(** * HLS monitor: a shallow embedding of the monitor engine

    The development follows the three source files of the repository:
    the stream schema (error types, the stream record, the age-out hook run
    before every save), the monitor worker (decay factor, sliding window,
    scores, error ledger, [checkStream]) and the segment processor (the
    bounded process queue and the probe's field parsing).

    Conventions of the embedding.
    - Millisecond timestamps, counters and sequence numbers are [Z].
    - Scores and bit rates that the code computes with fractional factors
      are exact rationals [Q]: the embedding does not round to binary64.
    - A JavaScript number that can be [NaN] or infinite (the results of
      [parseFloat], [parseInt] and of a division) is a [JsNum].
    - [undefined]/[null] fields are [option]s; a [Date] is a [JsDate].
    - Reads of the wall clock and of the random generator are answered by
      an oracle ([Env]), one answer per read, in program order. *)

From Stdlib Require Import ZArith QArith Qminmax String Ascii List Lia Lqa.
From stdpp Require Import gmap strings list pretty.
Import ListNotations.

Local Open Scope Z_scope.

(* ================================================================== *)
(** * Part I: the model                                                *)
(* ================================================================== *)

(** ** JavaScript values used by the code *)

(** A [Date] object: its time value is a number of milliseconds, or NaN
    for an invalid date. *)
Inductive JsDate : Type :=
  | ValidDate (ms : Z)
  | InvalidDate.

(** [d.getTime()]; [None] stands for NaN. *)
Definition getTime (d : JsDate) : option Z :=
  match d with
  | ValidDate ms => Some ms
  | InvalidDate => None
  end.

(** [x < y] on rationals, as a boolean. *)
Definition Qltb (x y : Q) : bool := negb (Qle_bool y x).

(** [Math.min] and [Math.max] on integers are [Z.min] and [Z.max]; on
    rationals they are [Qmin] and [Qmax]. *)

(** ** The stream schema *)

Module ErrorTypes.
Definition MANIFEST_RETRIEVAL : string := "Manifest Retrieval".
Definition MEDIA_SEQUENCE : string := "Media Sequence".
Definition PLAYLIST_SIZE : string := "Playlist Size".
Definition PLAYLIST_CONTENT : string := "Playlist Content".
Definition SEGMENT_CONTINUITY : string := "Segment Continuity".
Definition DISCONTINUITY_SEQUENCE : string := "Discontinuity Sequence".
Definition STALE_MANIFEST : string := "Stale Manifest".
End ErrorTypes.

(** [status]: the schema's enum. *)
Inductive Status : Type := online | offline | error | stale.

Definition Status_eqb (a b : Status) : bool :=
  match a, b with
  | online, online | offline, offline | error, error | stale, stale => true
  | _, _ => false
  end.

(** One entry of [streamErrors]. *)
Record StreamError : Type := mkStreamError {
  eid : string;
  date : option JsDate;
  errorType : option string;
  mediaType : string;
  variant : string;
  details : option string;
  code : option Z
}.

(** The [health] block. *)
Record Health : Type := mkHealth {
  isStale : bool;
  lastManifestUpdate : option JsDate;
  timeSinceLastUpdate : Z;
  staleThreshold : Z;
  mediaSequence : Z;
  previousMediaSequence : Z;
  sequenceJumps : Z;
  sequenceResets : Z;
  discontinuitySequence : Z;
  discontinuityCount : Z;
  segmentCount : Z;
  targetDuration : Z;
  playlistType : string;
  totalErrors : Z;
  timeSinceLastError : Z;
  recentErrors : Z;
  recentSequenceJumps : Z;
  recentSequenceResets : Z;
  lastErrorTime : option JsDate
}.

(** The [stats] block; field names carry the sub-block's initial where the
    schema repeats a name ([codec], [bitRate]). *)
Record VideoStats : Type := mkVideoStats {
  v_codec : option string;
  v_profile : option string;
  v_level : option string;
  v_width : option Z;
  v_height : option Z;
  v_pixFmt : option string;
  v_colorSpace : option string;
  v_bitRate : option Q
}.

Record AudioStats : Type := mkAudioStats {
  a_codec : option string;
  a_channels : option Z;
  a_sampleRate : option Z;
  a_bitRate : option Q;
  a_peakDb : option Q;
  a_avgDb : option Q;
  a_channelLayout : option string;
  a_isSilent : option bool
}.

Record ContainerStats : Type := mkContainerStats {
  c_formatName : option string;
  c_duration : option Q;
  c_size : option Z;
  c_bitRate : option Q
}.

(** A JavaScript number that may be NaN or infinite.  Finite values are
    exact rationals: the embedding neither rounds to binary64 nor
    overflows, and it does not represent the sign of a zero. *)
Inductive JsNum : Type :=
  | JNaN
  | JInf (negative : bool)
  | JFin (q : Q).

Record Stats : Type := mkStats {
  bandwidth : option Z;
  resolution : option string;
  fps : option JsNum;
  video : option VideoStats;
  audio : option AudioStats;
  container : option ContainerStats
}.

(** The stream document.  [health] and [stats] are nested schema paths and
    are always present; [streamErrors] may be missing, which the code tests
    for before use. *)
Record Stream : Type := mkStream {
  stream_id : string;
  name : string;
  url : string;
  status : Status;
  health : Health;
  stats : Stats;
  streamErrors : option (list StreamError);
  thumbnail : option string;
  lastChecked : option JsDate
}.


(** ** Field updates

    An assignment [stream.health.f = v] is [set_f v] on the health block
    under [with_health]. *)

Definition set_isStale (v : bool) (h : Health) : Health :=
  mkHealth v (lastManifestUpdate h) (timeSinceLastUpdate h) (staleThreshold h)
    (mediaSequence h) (previousMediaSequence h) (sequenceJumps h)
    (sequenceResets h) (discontinuitySequence h) (discontinuityCount h)
    (segmentCount h) (targetDuration h) (playlistType h) (totalErrors h)
    (timeSinceLastError h) (recentErrors h) (recentSequenceJumps h)
    (recentSequenceResets h) (lastErrorTime h).

Definition set_lastManifestUpdate (v : option JsDate) (h : Health) : Health :=
  mkHealth (isStale h) v (timeSinceLastUpdate h) (staleThreshold h)
    (mediaSequence h) (previousMediaSequence h) (sequenceJumps h)
    (sequenceResets h) (discontinuitySequence h) (discontinuityCount h)
    (segmentCount h) (targetDuration h) (playlistType h) (totalErrors h)
    (timeSinceLastError h) (recentErrors h) (recentSequenceJumps h)
    (recentSequenceResets h) (lastErrorTime h).

Definition set_timeSinceLastUpdate (v : Z) (h : Health) : Health :=
  mkHealth (isStale h) (lastManifestUpdate h) v (staleThreshold h)
    (mediaSequence h) (previousMediaSequence h) (sequenceJumps h)
    (sequenceResets h) (discontinuitySequence h) (discontinuityCount h)
    (segmentCount h) (targetDuration h) (playlistType h) (totalErrors h)
    (timeSinceLastError h) (recentErrors h) (recentSequenceJumps h)
    (recentSequenceResets h) (lastErrorTime h).

Definition set_mediaSequence (v : Z) (h : Health) : Health :=
  mkHealth (isStale h) (lastManifestUpdate h) (timeSinceLastUpdate h)
    (staleThreshold h) v (previousMediaSequence h) (sequenceJumps h)
    (sequenceResets h) (discontinuitySequence h) (discontinuityCount h)
    (segmentCount h) (targetDuration h) (playlistType h) (totalErrors h)
    (timeSinceLastError h) (recentErrors h) (recentSequenceJumps h)
    (recentSequenceResets h) (lastErrorTime h).

Definition set_previousMediaSequence (v : Z) (h : Health) : Health :=
  mkHealth (isStale h) (lastManifestUpdate h) (timeSinceLastUpdate h)
    (staleThreshold h) (mediaSequence h) v (sequenceJumps h) (sequenceResets
    h) (discontinuitySequence h) (discontinuityCount h) (segmentCount h)
    (targetDuration h) (playlistType h) (totalErrors h) (timeSinceLastError h)
    (recentErrors h) (recentSequenceJumps h) (recentSequenceResets h)
    (lastErrorTime h).

Definition set_sequenceJumps (v : Z) (h : Health) : Health :=
  mkHealth (isStale h) (lastManifestUpdate h) (timeSinceLastUpdate h)
    (staleThreshold h) (mediaSequence h) (previousMediaSequence h) v
    (sequenceResets h) (discontinuitySequence h) (discontinuityCount h)
    (segmentCount h) (targetDuration h) (playlistType h) (totalErrors h)
    (timeSinceLastError h) (recentErrors h) (recentSequenceJumps h)
    (recentSequenceResets h) (lastErrorTime h).

Definition set_sequenceResets (v : Z) (h : Health) : Health :=
  mkHealth (isStale h) (lastManifestUpdate h) (timeSinceLastUpdate h)
    (staleThreshold h) (mediaSequence h) (previousMediaSequence h)
    (sequenceJumps h) v (discontinuitySequence h) (discontinuityCount h)
    (segmentCount h) (targetDuration h) (playlistType h) (totalErrors h)
    (timeSinceLastError h) (recentErrors h) (recentSequenceJumps h)
    (recentSequenceResets h) (lastErrorTime h).

Definition set_discontinuitySequence (v : Z) (h : Health) : Health :=
  mkHealth (isStale h) (lastManifestUpdate h) (timeSinceLastUpdate h)
    (staleThreshold h) (mediaSequence h) (previousMediaSequence h)
    (sequenceJumps h) (sequenceResets h) v (discontinuityCount h)
    (segmentCount h) (targetDuration h) (playlistType h) (totalErrors h)
    (timeSinceLastError h) (recentErrors h) (recentSequenceJumps h)
    (recentSequenceResets h) (lastErrorTime h).

Definition set_discontinuityCount (v : Z) (h : Health) : Health :=
  mkHealth (isStale h) (lastManifestUpdate h) (timeSinceLastUpdate h)
    (staleThreshold h) (mediaSequence h) (previousMediaSequence h)
    (sequenceJumps h) (sequenceResets h) (discontinuitySequence h) v
    (segmentCount h) (targetDuration h) (playlistType h) (totalErrors h)
    (timeSinceLastError h) (recentErrors h) (recentSequenceJumps h)
    (recentSequenceResets h) (lastErrorTime h).

Definition set_segmentCount (v : Z) (h : Health) : Health :=
  mkHealth (isStale h) (lastManifestUpdate h) (timeSinceLastUpdate h)
    (staleThreshold h) (mediaSequence h) (previousMediaSequence h)
    (sequenceJumps h) (sequenceResets h) (discontinuitySequence h)
    (discontinuityCount h) v (targetDuration h) (playlistType h) (totalErrors
    h) (timeSinceLastError h) (recentErrors h) (recentSequenceJumps h)
    (recentSequenceResets h) (lastErrorTime h).

Definition set_targetDuration (v : Z) (h : Health) : Health :=
  mkHealth (isStale h) (lastManifestUpdate h) (timeSinceLastUpdate h)
    (staleThreshold h) (mediaSequence h) (previousMediaSequence h)
    (sequenceJumps h) (sequenceResets h) (discontinuitySequence h)
    (discontinuityCount h) (segmentCount h) v (playlistType h) (totalErrors h)
    (timeSinceLastError h) (recentErrors h) (recentSequenceJumps h)
    (recentSequenceResets h) (lastErrorTime h).

Definition set_playlistType (v : string) (h : Health) : Health :=
  mkHealth (isStale h) (lastManifestUpdate h) (timeSinceLastUpdate h)
    (staleThreshold h) (mediaSequence h) (previousMediaSequence h)
    (sequenceJumps h) (sequenceResets h) (discontinuitySequence h)
    (discontinuityCount h) (segmentCount h) (targetDuration h) v (totalErrors
    h) (timeSinceLastError h) (recentErrors h) (recentSequenceJumps h)
    (recentSequenceResets h) (lastErrorTime h).

Definition set_totalErrors (v : Z) (h : Health) : Health :=
  mkHealth (isStale h) (lastManifestUpdate h) (timeSinceLastUpdate h)
    (staleThreshold h) (mediaSequence h) (previousMediaSequence h)
    (sequenceJumps h) (sequenceResets h) (discontinuitySequence h)
    (discontinuityCount h) (segmentCount h) (targetDuration h) (playlistType
    h) v (timeSinceLastError h) (recentErrors h) (recentSequenceJumps h)
    (recentSequenceResets h) (lastErrorTime h).

Definition set_timeSinceLastError (v : Z) (h : Health) : Health :=
  mkHealth (isStale h) (lastManifestUpdate h) (timeSinceLastUpdate h)
    (staleThreshold h) (mediaSequence h) (previousMediaSequence h)
    (sequenceJumps h) (sequenceResets h) (discontinuitySequence h)
    (discontinuityCount h) (segmentCount h) (targetDuration h) (playlistType
    h) (totalErrors h) v (recentErrors h) (recentSequenceJumps h)
    (recentSequenceResets h) (lastErrorTime h).

Definition set_recentErrors (v : Z) (h : Health) : Health :=
  mkHealth (isStale h) (lastManifestUpdate h) (timeSinceLastUpdate h)
    (staleThreshold h) (mediaSequence h) (previousMediaSequence h)
    (sequenceJumps h) (sequenceResets h) (discontinuitySequence h)
    (discontinuityCount h) (segmentCount h) (targetDuration h) (playlistType
    h) (totalErrors h) (timeSinceLastError h) v (recentSequenceJumps h)
    (recentSequenceResets h) (lastErrorTime h).

Definition set_recentSequenceJumps (v : Z) (h : Health) : Health :=
  mkHealth (isStale h) (lastManifestUpdate h) (timeSinceLastUpdate h)
    (staleThreshold h) (mediaSequence h) (previousMediaSequence h)
    (sequenceJumps h) (sequenceResets h) (discontinuitySequence h)
    (discontinuityCount h) (segmentCount h) (targetDuration h) (playlistType
    h) (totalErrors h) (timeSinceLastError h) (recentErrors h) v
    (recentSequenceResets h) (lastErrorTime h).

Definition set_recentSequenceResets (v : Z) (h : Health) : Health :=
  mkHealth (isStale h) (lastManifestUpdate h) (timeSinceLastUpdate h)
    (staleThreshold h) (mediaSequence h) (previousMediaSequence h)
    (sequenceJumps h) (sequenceResets h) (discontinuitySequence h)
    (discontinuityCount h) (segmentCount h) (targetDuration h) (playlistType
    h) (totalErrors h) (timeSinceLastError h) (recentErrors h)
    (recentSequenceJumps h) v (lastErrorTime h).

Definition set_lastErrorTime (v : option JsDate) (h : Health) : Health :=
  mkHealth (isStale h) (lastManifestUpdate h) (timeSinceLastUpdate h)
    (staleThreshold h) (mediaSequence h) (previousMediaSequence h)
    (sequenceJumps h) (sequenceResets h) (discontinuitySequence h)
    (discontinuityCount h) (segmentCount h) (targetDuration h) (playlistType
    h) (totalErrors h) (timeSinceLastError h) (recentErrors h)
    (recentSequenceJumps h) (recentSequenceResets h) v.

Definition set_bandwidth (v : option Z) (st : Stats) : Stats :=
  mkStats v (resolution st) (fps st) (video st) (audio st) (container st).

Definition set_resolution (v : option string) (st : Stats) : Stats :=
  mkStats (bandwidth st) v (fps st) (video st) (audio st) (container st).

Definition set_status (v : Status) (s : Stream) : Stream :=
  mkStream (stream_id s) (name s) (url s) v (health s) (stats s) (streamErrors
    s) (thumbnail s) (lastChecked s).

Definition set_health (v : Health) (s : Stream) : Stream :=
  mkStream (stream_id s) (name s) (url s) (status s) v (stats s) (streamErrors
    s) (thumbnail s) (lastChecked s).

Definition set_stats (v : Stats) (s : Stream) : Stream :=
  mkStream (stream_id s) (name s) (url s) (status s) (health s) v
    (streamErrors s) (thumbnail s) (lastChecked s).

Definition set_streamErrors (v : option (list StreamError)) (s : Stream) :
    Stream :=
  mkStream (stream_id s) (name s) (url s) (status s) (health s) (stats s) v
    (thumbnail s) (lastChecked s).

Definition set_lastChecked (v : option JsDate) (s : Stream) : Stream :=
  mkStream (stream_id s) (name s) (url s) (status s) (health s) (stats s)
    (streamErrors s) (thumbnail s) v.

(** [stream.health.f = v] and [stream.stats.f = v]. *)
Definition with_health (f : Health -> Health) (s : Stream) : Stream :=
  set_health (f (health s)) s.

Definition with_stats (f : Stats -> Stats) (s : Stream) : Stream :=
  set_stats (f (stats s)) s.

(** The schema's defaults for a new document. *)
Definition defaultHealth : Health :=
  mkHealth false None 0 7000 (-1) (-1) 0 0 0 0 0 0 "LIVE" 0 0 0 0 0 None.

Definition defaultStats : Stats := mkStats None None None None None None.

Definition newStream (id name url : string) (created : Z) : Stream :=
  mkStream id name url offline defaultHealth defaultStats (Some [])
    None (Some (ValidDate created)).

#[global] Instance Status_eq_dec : EqDecision Status.
Proof. solve_decision. Defined.

(** ** Truthiness *)

Definition truthy_string (o : option string) : bool :=
  match o with
  | Some s => negb (String.eqb s "")
  | None => false
  end.

Definition truthy_Z (o : option Z) : bool :=
  match o with
  | Some z => negb (z =? 0)
  | None => false
  end.

Definition truthy_Q (o : option Q) : bool :=
  match o with
  | Some q => negb (Qeq_bool q 0)
  | None => false
  end.

Definition truthy_bool (o : option bool) : bool :=
  match o with
  | Some b => b
  | None => false
  end.

Definition truthy_num (n : JsNum) : bool :=
  match n with
  | JNaN => false
  | JInf _ => true
  | JFin q => negb (Qeq_bool q 0)
  end.

(** ** Monitor worker: decay, window, scores *)

Definition MONITOR_INTERVAL : Z := 7000.
Definition SLIDING_WINDOW_SIZE : Z := 100.

(** [getErrorDecayFactor(lastErrorTime)].  [dateNow] is the value
    [Date.now()] returns inside the call.  The elapsed time is a difference
    of two finite timestamps, hence finite: the [!isFinite] disjunct is
    never true, and nothing in the body throws, so the [catch] is dead. *)
Definition getErrorDecayFactor (dateNow : Z) (lastErrorTime : option JsDate) : Q :=
  match lastErrorTime with
  | None => 1
  | Some errorDate =>
      match getTime errorDate with
      | None => 0
      | Some errorTimestamp =>
          let hoursSinceError :=
            (inject_Z (dateNow - errorTimestamp) / inject_Z (1000 * 60 * 60))%Q in
          if Qltb hoursSinceError 0 then 0
          else if Qltb hoursSinceError 1 then 0
          else if Qltb hoursSinceError 6 then 1 # 4
          else if Qltb hoursSinceError 24 then 1 # 2
          else if Qltb hoursSinceError 72 then 3 # 4
          else 9 # 10
      end
  end%Q.

(** The result of [calculateSlidingWindowMetrics]. *)
Record RecentIssues : Type := mkRecentIssues {
  jumps : Z;
  resets : Z;
  errors : Z
}.

(** [calculateHealthScore(stream, recentIssues = null, decayFactor = 0)].
    The successive assignments to [score] are successive [let]s.  The
    default [stream.health || {}] is for a document without a health block,
    which the record type excludes; [recentIssues] is an object or [null],
    hence an [option]. *)
Definition calculateHealthScore
    (stream : Stream) (recentIssues : option RecentIssues) (decayFactor : Q) : Q :=
  (let score := 100 in
   let health := health stream in
   let score := if isStale health then score - 30 else score in
   let score := if Status_eqb (status stream) error then score - 40 else score in
   let score := if Status_eqb (status stream) offline then score - 50 else score in
   let score :=
     match recentIssues with
     | Some recentIssues =>
         let effectiveDecay := 1 - decayFactor in
         let jumpPenalty := Qmin (inject_Z (jumps recentIssues * 5)) 20 * effectiveDecay in
         let resetPenalty := Qmin (inject_Z (resets recentIssues * 10)) 30 * effectiveDecay in
         let errorPenalty := Qmin (inject_Z (errors recentIssues * 2)) 20 * effectiveDecay in
         score - (jumpPenalty + resetPenalty + errorPenalty)
     | None =>
         let score :=
           if (0 <? sequenceJumps health)%Z
           then score - Qmin (inject_Z (sequenceJumps health * 5)) 20 else score in
         let score :=
           if (0 <? sequenceResets health)%Z
           then score - Qmin (inject_Z (sequenceResets health * 10)) 30 else score in
         let score :=
           if (0 <? totalErrors health)%Z
           then score - Qmin (inject_Z (totalErrors health * 2)) 20 else score in
         score
     end in
   Qmax 0 (Qmin 100 score))%Q.

(** [calculateVideoScore(stream)]. *)
Definition calculateVideoScore (stream : Stream) : Z :=
  let score := 100 in
  match video (stats stream) with
  | None => 50
  | Some video =>
      let score := if negb (truthy_string (v_codec video)) then score - 20 else score in
      let score :=
        if truthy_Z (v_width video) && (default 0 (v_width video) <? 720)
        then score - 10 else score in
      let score :=
        if truthy_Z (v_width video) && (1920 <=? default 0 (v_width video))
        then score + 0 else score in
      Z.max 0 (Z.min 100 score)
  end.

(** [calculateAudioScore(stream)]. *)
Definition calculateAudioScore (stream : Stream) : Z :=
  let score := 100 in
  match audio (stats stream) with
  | None => 50
  | Some audio =>
      let score := if negb (truthy_string (a_codec audio)) then score - 20 else score in
      let score :=
        if truthy_Z (a_sampleRate audio) && (default 0 (a_sampleRate audio) <? 44100)
        then score - 10 else score in
      let score := if truthy_bool (a_isSilent audio) then score - 15 else score in
      Z.max 0 (Z.min 100 score)
  end.

(** [s.includes(sub)]: [sub] occurs at some offset of [s]. *)
Fixpoint includes (s sub : string) : bool :=
  String.prefix sub s ||
  match s with
  | EmptyString => false
  | String _ rest => includes rest sub
  end.

(** What [Stream.findById(id).select('streamErrors').lean()] settles to:
    a rejection, or the projected document ([None] when no document has the
    id). *)
Record LeanStream : Type := mkLeanStream {
  lean_streamErrors : option (list StreamError)
}.

Inductive QueryResult : Type :=
  | QueryRejected (message : string)
  | QueryResolved (doc : option LeanStream).

(** The filter callback of the window: [if (!err.date) return false;
    return new Date(err.date) >= windowStart].  A comparison with the NaN
    of an invalid date is false. *)
Definition inWindowStart (windowStart : Z) (err : StreamError) : bool :=
  match date err with
  | None => false
  | Some d =>
      match getTime d with
      | None => false
      | Some t => windowStart <=? t
      end
  end.

(** [err.details && err.details.includes(sub)]. *)
Definition detailsInclude (err : StreamError) (sub : string) : bool :=
  truthy_string (details err) && includes (default "" (details err)) sub.

(** The body of the [forEach] over the windowed errors, on the three
    counters [(jumps, resets, errors)]. *)
Definition countIssue (acc : Z * Z * Z) (err : StreamError) : Z * Z * Z :=
  let '(jumps, resets, errors) := acc in
  let errors := errors + 1 in
  let jumps :=
    if bool_decide (errorType err = Some "SEQUENCE_JUMP")
       || detailsInclude err "Sequence jumped"
    then jumps + 1 else jumps in
  let resets :=
    if bool_decide (errorType err = Some "SEQUENCE_RESET")
       || detailsInclude err "reset"
    then resets + 1 else resets in
  (jumps, resets, errors).

(** [calculateSlidingWindowMetrics(streamId)].  [lookup] is what the query
    settles to and [dateNow] the clock read after it. *)
Definition calculateSlidingWindowMetrics
    (dateNow : Z) (lookup : QueryResult) (streamId : option string) : RecentIssues :=
  let defaultResult := mkRecentIssues 0 0 0 in
  if negb (truthy_string streamId) then defaultResult
  else
    match lookup with
    | QueryRejected _ => defaultResult
    | QueryResolved None => defaultResult
    | QueryResolved (Some stream) =>
        match lean_streamErrors stream with
        | None => defaultResult
        | Some streamErrors =>
            let windowStart := dateNow - 12 * 60 * 1000 in
            let recentErrors := List.filter (inWindowStart windowStart) streamErrors in
            let '(jumps, resets, errors) := fold_left countIssue recentErrors (0, 0, 0) in
            mkRecentIssues jumps resets errors
        end
    end.

(** ** Segment processor: the bounded process queue *)

Definition MAX_CONCURRENT_FFMPEG : Z := 4.

(** A task is identified by a number (each call of [runLimited] makes one
    [execute] closure).  The promise [runLimited] returns is pending until
    it is settled. *)
Definition Task : Type := nat.

Inductive PromiseState : Type := Pending | Resolved | Rejected.

(** How the promise returned by [task()] settles. *)
Inductive TaskOutcome : Type :=
  | TaskFulfilled
  | TaskRejected (reason : string).

(** The module's state: the counter and the queue of the source, and, to
    state what they guard, the tasks whose external tool is running
    ([running]), the tasks whose promise has settled but whose [finally]
    callback has not run yet ([settled]), and the promises handed out. *)
Record Pipeline : Type := mkPipeline {
  activeProcesses : Z;
  processQueue : list Task;
  running : list Task;
  settled : list Task;
  promises : list (Task * PromiseState)
}.

Definition emptyPipeline : Pipeline := mkPipeline 0 [] [] [] [].

(** Remove the first occurrence of [t]. *)
Fixpoint removeFirst (t : Task) (l : list Task) : list Task :=
  match l with
  | [] => []
  | x :: rest => if Nat.eqb x t then rest else x :: removeFirst t rest
  end.

(** Settle the first pending promise of task [t] with [st]. *)
Fixpoint settlePromise (t : Task) (st : PromiseState)
    (l : list (Task * PromiseState)) : list (Task * PromiseState) :=
  match l with
  | [] => []
  | (x, Pending) :: rest =>
      if Nat.eqb x t then (x, st) :: rest else (x, Pending) :: settlePromise t st rest
  | p :: rest => p :: settlePromise t st rest
  end.

(** [execute()]: [activeProcesses++; task()...]: the external tool starts. *)
Definition execute (t : Task) (p : Pipeline) : Pipeline :=
  mkPipeline (activeProcesses p + 1) (processQueue p) (running p ++ [t])
    (settled p) (promises p).

(** [runLimited(task)]: a new pending promise, and [execute] now or later. *)
Definition runLimited (t : Task) (p : Pipeline) : Pipeline :=
  let p := mkPipeline (activeProcesses p) (processQueue p) (running p)
             (settled p) (promises p ++ [(t, Pending)]) in
  if activeProcesses p <? MAX_CONCURRENT_FFMPEG
  then execute t p
  else mkPipeline (activeProcesses p) (processQueue p ++ [t]) (running p)
         (settled p) (promises p).

(** The promise of a running task settles; [.catch(() => { })] turns a
    rejection into a fulfilment, so the outcome is forgotten and the
    [finally] callback is due. *)
Definition taskSettles (t : Task) (o : TaskOutcome) (p : Pipeline) : Pipeline :=
  mkPipeline (activeProcesses p) (processQueue p) (removeFirst t (running p))
    (settled p ++ [t]) (promises p).

(** The [finally] callback of task [t]: [activeProcesses--; resolve();]
    then the head of the queue, if any, is shifted out and executed. *)
Definition finallyCallback (t : Task) (p : Pipeline) : Pipeline :=
  let p := mkPipeline (activeProcesses p - 1) (processQueue p) (running p)
             (removeFirst t (settled p)) (settlePromise t Resolved (promises p)) in
  match processQueue p with
  | next :: rest =>
      execute next (mkPipeline (activeProcesses p) rest (running p)
                      (settled p) (promises p))
  | [] => p
  end.

(** One step of the event loop that touches the queue. *)
Inductive PipelineStep : Pipeline -> Pipeline -> Prop :=
  | step_runLimited (t : Task) (p : Pipeline) :
      PipelineStep p (runLimited t p)
  | step_taskSettles (t : Task) (o : TaskOutcome) (p : Pipeline) :
      In t (running p) ->
      PipelineStep p (taskSettles t o p)
  | step_finallyCallback (t : Task) (p : Pipeline) :
      In t (settled p) ->
      PipelineStep p (finallyCallback t p).

(** The states the module can be in. *)
Inductive Reachable : Pipeline -> Prop :=
  | reach_init : Reachable emptyPipeline
  | reach_step (p q : Pipeline) : Reachable p -> PipelineStep p q -> Reachable q.

(** ** Segment processor: parsing the probe's fields *)

(** [getChannelLayout(channels)]. *)
Definition getChannelLayout (channels : option Z) : string :=
  match channels with
  | Some 1 => "Mono"
  | Some 2 => "Stereo"
  | Some 6 => "5.1 Surround"
  | Some 8 => "7.1 Surround"
  | _ => if truthy_Z channels
         then pretty (default 0 channels) +:+ " channels"
         else "Unknown"
  end.

(** White space skipped by [parseInt] and [parseFloat] (the ASCII part). *)
Definition isWhiteSpace (c : ascii) : bool :=
  match nat_of_ascii c with
  | 9%nat | 10%nat | 11%nat | 12%nat | 13%nat | 32%nat => true
  | _ => false
  end.

Fixpoint trimStart (s : string) : string :=
  match s with
  | String c rest => if isWhiteSpace c then trimStart rest else s
  | EmptyString => s
  end.

(** The value of a digit in the given radix (10 or 16). *)
Definition digitValue (radix : Z) (c : ascii) : option Z :=
  let n := Z.of_nat (nat_of_ascii c) in
  if (48 <=? n) && (n <=? 57) then Some (n - 48)
  else if (radix =? 16) && (97 <=? n) && (n <=? 102) then Some (n - 87)
  else if (radix =? 16) && (65 <=? n) && (n <=? 70) then Some (n - 55)
  else None.

(** Read the longest prefix of digits: its value (continuing [acc]), the
    number of digits read, and the rest of the string. *)
Fixpoint readDigits (radix : Z) (s : string) (acc : Z) (count : nat)
    : Z * nat * string :=
  match s with
  | String c rest =>
      match digitValue radix c with
      | Some d => readDigits radix rest (acc * radix + d) (S count)
      | None => (acc, count, s)
      end
  | EmptyString => (acc, count, s)
  end.

(** An optional sign: whether it is a minus, and the rest. *)
Definition readSign (s : string) : bool * string :=
  match s with
  | String "-" rest => (true, rest)
  | String "+" rest => (false, rest)
  | _ => (false, s)
  end.

(** [parseInt(s)] without a radix; [None] stands for NaN. *)
Definition parseInt (s : string) : option Z :=
  let s := trimStart s in
  let '(negative, s) := readSign s in
  let '(radix, s) :=
    match s with
    | String "0" (String "x" rest) | String "0" (String "X" rest) => (16, rest)
    | _ => (10, s)
    end in
  let '(value, count, _) := readDigits radix s 0 0 in
  if Nat.eqb count 0 then None
  else Some (if negative then - value else value).

(** [parseFloat(s)]: leading white space, an optional sign, then
    [Infinity] or the longest decimal literal (digits, an optional
    fraction, an optional exponent); NaN when there is no digit. *)
Definition parseFloat (s : string) : JsNum :=
  let s := trimStart s in
  let '(negative, s) := readSign s in
  if String.prefix "Infinity" s then JInf negative
  else
    let '(int, n1, s) := readDigits 10 s 0 0 in
    let '(frac, n2, s) :=
      match s with
      | String "." rest => readDigits 10 rest 0 0
      | _ => (0, 0%nat, s)
      end in
    if Nat.eqb (n1 + n2) 0 then JNaN
    else
      let exponent :=
        match s with
        | String "e" rest | String "E" rest =>
            let '(eneg, rest) := readSign rest in
            let '(e, n3, _) := readDigits 10 rest 0 0 in
            if Nat.eqb n3 0 then 0 else if eneg then - e else e
        | _ => 0
        end in
      let mantissa := (inject_Z int + inject_Z frac / inject_Z (10 ^ Z.of_nat n2))%Q in
      let value := (mantissa * Qpower 10 exponent)%Q in
      JFin (Qred (if negative then - value else value)).

(** [s.split(sep)] for a one-character separator. *)
Fixpoint splitFrom (sep : ascii) (s : string) (current : string) : list string :=
  match s with
  | EmptyString => [current]
  | String c rest =>
      if Ascii.eqb c sep then current :: splitFrom sep rest EmptyString
      else splitFrom sep rest (current +:+ String c EmptyString)
  end.

Definition split (sep : ascii) (s : string) : list string :=
  splitFrom sep s EmptyString.

(** [a / b] on JavaScript numbers: NaN is absorbing, infinity over
    infinity and zero over zero are NaN, a finite number that is not zero
    over zero is infinite (the zero counts as positive). *)
Definition jsDiv (a b : JsNum) : JsNum :=
  match a, b with
  | JNaN, _ | _, JNaN => JNaN
  | JInf _, JInf _ => JNaN
  | JInf s, JFin q => JInf (xorb s (Qltb q 0))
  | JFin _, JInf _ => JFin 0
  | JFin p, JFin q =>
      if Qeq_bool q 0
      then (if Qeq_bool p 0 then JNaN else JInf (Qltb p 0))
      else JFin (Qred (p / q))
  end.

(** [n || 0]. *)
Definition orZero (n : JsNum) : JsNum :=
  if truthy_num n then n else JFin 0.

(** The value the probe stores in [stream.stats.fps] for a video stream
    with the given [r_frame_rate] (the block commented "Safe parsing of
    fraction" in [processSegment]). *)
Definition frameRate (r_frame_rate : option string) : JsNum :=
  let fps := JFin 0 in
  if truthy_string r_frame_rate then
    let r_frame_rate := default "" r_frame_rate in
    let parts := split "/" r_frame_rate in
    if Nat.eqb (length parts) 2
    then orZero (jsDiv (parseFloat (nth 0 parts "")) (parseFloat (nth 1 parts "")))
    else orZero (parseFloat r_frame_rate)
  else fps.

(** The audio stream of the probe's metadata, as far as the code reads it.
    A missing field is [None]; [parseInt] then reads the text
    ["undefined"]. *)
Record ProbeAudio : Type := mkProbeAudio {
  codec_name : option string;
  channels : option Z;
  sample_rate : option string;
  bit_rate : option string
}.

Definition parseIntField (field : option string) : option Z :=
  parseInt (default "undefined" field).

(** [parseInt(x) || d]. *)
Definition parseIntOr (field : option string) (d : Z) : Z :=
  if truthy_Z (parseIntField field) then default 0 (parseIntField field) else d.

(** The object the probe assigns to [stream.stats.audio] for the audio
    stream of the metadata ("Audio stream - Basic stats" in
    [processSegment]); [previous] is the block it replaces. *)
Definition probeAudioStats (audio : ProbeAudio) (previous : option AudioStats)
    : AudioStats :=
  let audioBitrate := parseIntOr (bit_rate audio) 128000 in
  mkAudioStats
    (codec_name audio)
    (channels audio)
    (Some (parseIntOr (sample_rate audio) 0))
    (Some (inject_Z audioBitrate))
    (match previous with
     | Some prev => if truthy_Q (a_peakDb prev) then a_peakDb prev else None
     | None => None
     end)
    (match previous with
     | Some prev => if truthy_Q (a_avgDb prev) then a_avgDb prev else None
     | None => None
     end)
    (Some (getChannelLayout (channels audio)))
    (Some (match previous with
           | Some prev => truthy_bool (a_isSilent prev)
           | None => false
           end)).

(** ** Monitor worker: the world [checkStream] runs in *)

(** The poll state cached per stream id. *)
Record PollState : Type := mkPollState {
  lastPollTime : Z;
  lastMediaSequence : Z;
  consecutiveStales : Z
}.

(** The parsed manifest, as far as the code reads it. *)
Record Variant : Type := mkVariant {
  uri : string;
  BANDWIDTH : option Z;
  RESOLUTION : option (Z * Z)
}.

Record Segment : Type := mkSegment {
  seg_uri : string;
  discontinuity : bool
}.

Record Manifest : Type := mkManifest {
  playlists : option (list Variant);
  segments : option (list Segment);
  mf_mediaSequence : option Z;
  mf_targetDuration : option Z;
  mf_discontinuitySequence : option Z;
  mf_playlistType : option string
}.

(** A thrown or rejected error: its [name] and [message]. *)
Record JsError : Type := mkJsError {
  err_name : string;
  err_message : string
}.

(** What [fetchManifest(url)] settles to; a failure carries
    [err.message] and [err.response?.status]. *)
Inductive FetchResult : Type :=
  | FetchOk (manifest : Manifest)
  | FetchFailed (message : string) (response_status : option Z).

(** One document of the metrics history. *)
Record MetricsSample : Type := mkMetricsSample {
  ms_streamId : string;
  ms_healthScore : Q;
  ms_videoScore : Z;
  ms_audioScore : Z;
  ms_videoBitrate : Q;
  ms_audioBitrate : Q;
  ms_videoLevel : Q;
  ms_audioLevel : Q;
  ms_fps : JsNum;
  ms_status : Status;
  ms_mediaSequence : Z;
  ms_segmentCount : Z;
  ms_errorCount : Z
}.

(** What [checkStream] does to the outside, in order. *)
Inductive Event : Type :=
  | StreamSave (rejection : option JsError)
  | EmitStreamUpdate (stream : Stream)
  | ProcessSegment (segmentUrl : string)
  | MetricsHistoryCreate (sample : MetricsSample) (rejection : option JsError).

(** The answers of the outside during one poll: the k-th read of the
    clock, the k-th random suffix, the two manifest fetches, the k-th
    [stream.save()], the window's query and the history insert. *)
Record Env : Type := mkEnv {
  clock : nat -> Z;
  randomSuffix : nat -> string;
  fetchMaster : string -> FetchResult;
  fetchVariant : string -> FetchResult;
  saveRejection : nat -> option JsError;
  findById : string -> QueryResult;
  createRejection : option JsError
}.

(** The mutable state: the document object [stream], the module's
    [streamState] map, how many answers of each oracle have been used, and
    the events so far. *)
Record World : Type := mkWorld {
  doc : Stream;
  streamState : gmap string PollState;
  clockReads : nat;
  randomDraws : nat;
  saveCalls : nat;
  events : list Event
}.

Inductive Outcome (A : Type) : Type :=
  | Normal (a : A)
  | Thrown (e : JsError).
Arguments Normal {A} a.
Arguments Thrown {A} e.

(** Computations of the worker: they read the oracle, change the world,
    and return or throw. *)
Definition M (A : Type) : Type := Env -> World -> Outcome A * World.

#[global] Instance M_ret : MRet M := fun A a _ w => (Normal a, w).

#[global] Instance M_bind : MBind M := fun A B f m env w =>
  match m env w with
  | (Normal a, w') => f a env w'
  | (Thrown e, w') => (Thrown e, w')
  end.

Definition throw {A : Type} (e : JsError) : M A := fun _ w => (Thrown e, w).

(** [try { body } catch (err) { handler(err) }]. *)
Definition tryCatch {A : Type} (body : M A) (handler : JsError -> M A) : M A :=
  fun env w =>
    match body env w with
    | (Normal a, w') => (Normal a, w')
    | (Thrown e, w') => handler e env w'
    end.

Definition getStream : M Stream := fun _ w => (Normal (doc w), w).

Definition modifyStream (f : Stream -> Stream) : M unit := fun _ w =>
  (Normal tt,
   mkWorld (f (doc w)) (streamState w) (clockReads w) (randomDraws w)
     (saveCalls w) (events w)).

Definition getStreamState : M (gmap string PollState) :=
  fun _ w => (Normal (streamState w), w).

Definition setStreamState (id : string) (state : PollState) : M unit := fun _ w =>
  (Normal tt,
   mkWorld (doc w) (<[id := state]> (streamState w)) (clockReads w)
     (randomDraws w) (saveCalls w) (events w)).

(** [Date.now()] and the time value of [new Date()]. *)
Definition dateNow : M Z := fun env w =>
  (Normal (clock env (clockReads w)),
   mkWorld (doc w) (streamState w) (S (clockReads w)) (randomDraws w)
     (saveCalls w) (events w)).

(** [Math.random().toString(36).substr(2, 9)]. *)
Definition randomBase36 : M string := fun env w =>
  (Normal (randomSuffix env (randomDraws w)),
   mkWorld (doc w) (streamState w) (clockReads w) (S (randomDraws w))
     (saveCalls w) (events w)).

Definition emit (e : Event) : M unit := fun _ w =>
  (Normal tt,
   mkWorld (doc w) (streamState w) (clockReads w) (randomDraws w)
     (saveCalls w) (events w ++ [e])).

Definition askEnv : M Env := fun env w => (Normal env, w).

(** ** Stream schema: the age-out hook and [save] *)

(** The filter callback of the hook: keep an entry with a valid date
    later than [sevenDaysAgo]. *)
Definition keepRecent (sevenDaysAgo : Z) (err : StreamError) : bool :=
  match date err with
  | None => false
  | Some d =>
      match getTime d with
      | None => false
      | Some t => sevenDaysAgo <? t
      end
  end.

(** [StreamSchema.pre('save', ...)]: the clock is read only when there are
    entries. *)
Definition preSave : M unit :=
  stream ← getStream;
  match streamErrors stream with
  | Some errs =>
      if (0 <? length errs)%nat then
        now ← dateNow;
        let sevenDaysAgo := now - 7 * 24 * 60 * 60 * 1000 in
        modifyStream (set_streamErrors (Some (List.filter (keepRecent sevenDaysAgo) errs)))
      else mret tt
  | None => mret tt
  end.

(** [await stream.save()]: the hook runs, then the store accepts the write
    or rejects it. *)
Definition storeAnswer : M (option JsError) := fun env w =>
  (Normal (saveRejection env (saveCalls w)),
   mkWorld (doc w) (streamState w) (clockReads w) (randomDraws w)
     (S (saveCalls w)) (events w)).

Definition save : M unit :=
  preSave;;
  rejection ← storeAnswer;
  emit (StreamSave rejection);;
  match rejection with
  | Some e => throw e
  | None => mret tt
  end.

(** ** Monitor worker: the error ledger *)

(** [generateErrorId()]. *)
Definition generateErrorId : M string :=
  now ← dateNow;
  suffix ← randomBase36;
  mret ("eid-" +:+ pretty now +:+ "-" +:+ suffix).

(** [stream.stats?.bandwidth?.toString() || 'unknown']. *)
Definition variantOf (stream : Stream) : string :=
  match bandwidth (stats stream) with
  | Some b => pretty b
  | None => "unknown"
  end.

(** [addError(stream, errorType, details, mediaType = 'VIDEO', code = null)]. *)
Definition addError (errorType details : string) (mediaType : string)
    (code : option Z) : M unit :=
  eid ← generateErrorId;
  date ← dateNow;
  stream ← getStream;
  let error := mkStreamError eid (Some (ValidDate date)) (Some errorType)
                 mediaType (variantOf stream) (Some details) code in
  modifyStream (fun s => set_streamErrors (Some (default [] (streamErrors s) ++ [error])) s);;
  modifyStream (with_health (fun h => set_totalErrors (totalErrors h + 1) h));;
  modifyStream (with_health (set_timeSinceLastError 0));;
  lastErrorTime ← dateNow;
  modifyStream (with_health (set_lastErrorTime (Some (ValidDate lastErrorTime)))).

(** ** Monitor worker: URLs *)

(** [s.lastIndexOf(c)], or [-1]. *)
Fixpoint lastIndexFrom (c : ascii) (s : string) (i : Z) (found : Z) : Z :=
  match s with
  | EmptyString => found
  | String x rest => lastIndexFrom c rest (i + 1) (if Ascii.eqb x c then i else found)
  end.

Definition lastIndexOf (c : ascii) (s : string) : Z := lastIndexFrom c s 0 (-1).

(** [url.substring(0, url.lastIndexOf('/') + 1)]. *)
Definition baseUrlOf (url : string) : string :=
  String.substring 0 (Z.to_nat (lastIndexOf "/" url + 1)) url.

(** [resolveVariantUrl(masterUrl, variantUri)]; the segment URL is resolved
    by the same rule against the variant URL. *)
Definition resolveVariantUrl (masterUrl variantUri : string) : string :=
  if String.prefix "http" variantUri then variantUri
  else baseUrlOf masterUrl +:+ variantUri.

(** ** Monitor worker: [checkStream] *)

Definition setStatus (st : Status) : M unit := modifyStream (set_status st).

(** [try { await stream.save(); } catch (saveErr) { if (saveErr.name ===
    'VersionError') { ...; return; } throw saveErr; }]: [true] when the
    caller goes on, [false] when it returns. *)
Definition saveOrReturn : M bool :=
  tryCatch (save;; mret true)
    (fun saveErr =>
       if String.eqb (err_name saveErr) "VersionError" then mret false
       else throw saveErr).

(** The end of the three failure branches: persist, publish, return. *)
Definition saveAndPublish : M unit :=
  saved ← saveOrReturn;
  if saved : bool then
    stream ← getStream;
    emit (EmitStreamUpdate stream)
  else mret tt.

(** The block "STALENESS CHECK" of [checkStream], on the local [state];
    [now] is the [Date.now()] read at the start of the poll, while
    [lastManifestUpdate] gets a [new Date()] of its own. *)
Definition stalenessCheck (now currentSequence : Z) (state : PollState) : M PollState :=
  if currentSequence =? lastMediaSequence state then
    let state := mkPollState (lastPollTime state) (lastMediaSequence state)
                   (consecutiveStales state + 1) in
    modifyStream (with_health (set_timeSinceLastUpdate (now - lastPollTime state)));;
    stream ← getStream;
    (if staleThreshold (health stream) <? timeSinceLastUpdate (health stream) then
       modifyStream (with_health (set_isStale true));;
       setStatus stale;;
       addError ErrorTypes.STALE_MANIFEST
         ("Playlist stale for " +:+ pretty (timeSinceLastUpdate (health stream)) +:+ "ms")
         "VIDEO" None
     else mret tt);;
    mret state
  else
    modifyStream (with_health (set_isStale false));;
    updated ← dateNow;
    modifyStream (with_health (set_lastManifestUpdate (Some (ValidDate updated))));;
    modifyStream (with_health (set_timeSinceLastUpdate 0));;
    let state := mkPollState (lastPollTime state) (lastMediaSequence state) 0 in
    setStatus online;;
    mret state.

(** The block "SEQUENCE CHECKS" of [checkStream]. *)
Definition sequenceChecks (currentSequence : Z) (state : PollState) : M unit :=
  if negb (lastMediaSequence state =? -1) then
    let expectedSequence := lastMediaSequence state + 1 in
    (if expectedSequence <? currentSequence then
       let gap := currentSequence - expectedSequence in
       if 3 <=? gap then
         modifyStream (with_health (fun h => set_sequenceJumps (sequenceJumps h + 1) h));;
         addError ErrorTypes.MEDIA_SEQUENCE
           ("Sequence jumped from " +:+ pretty (lastMediaSequence state)
            +:+ " to " +:+ pretty currentSequence
            +:+ " (gap: " +:+ pretty gap +:+ ")")
           "VIDEO" None
       else mret tt
     else mret tt);;
    (if currentSequence <? lastMediaSequence state then
       modifyStream (with_health (fun h => set_sequenceResets (sequenceResets h + 1) h));;
       addError ErrorTypes.MEDIA_SEQUENCE
         ("Sequence reset from " +:+ pretty (lastMediaSequence state)
          +:+ " to " +:+ pretty currentSequence)
         "VIDEO" None
     else mret tt)
  else mret tt.

(** The block "DISCONTINUITY CHECK" of [checkStream]. *)
Definition discontinuityCheck (manifest : Manifest) : M unit :=
  let currentDiscontinuityCount :=
    fold_left (fun n seg => if discontinuity seg then n + 1 else n)
      (default [] (segments manifest)) 0 in
  match mf_discontinuitySequence manifest with
  | Some ds =>
      stream ← getStream;
      if negb (discontinuitySequence (health stream) =? ds)
      then modifyStream (with_health (set_discontinuitySequence ds))
      else mret tt
  | None => mret tt
  end;;
  modifyStream (with_health (set_discontinuityCount currentDiscontinuityCount)).

(** The blocks "UPDATE HEALTH" and "Update state" of [checkStream]. *)
Definition updateHealth (now currentSequence segmentCount targetDuration : Z)
    (manifest : Manifest) (state : PollState) : M unit :=
  modifyStream (with_health (set_previousMediaSequence (lastMediaSequence state)));;
  modifyStream (with_health (set_mediaSequence currentSequence));;
  modifyStream (with_health (set_segmentCount segmentCount));;
  modifyStream (with_health (set_targetDuration targetDuration));;
  modifyStream (with_health (set_playlistType
    (if truthy_string (mf_playlistType manifest)
     then default "" (mf_playlistType manifest) else "LIVE")));;
  let state := mkPollState now currentSequence (consecutiveStales state) in
  stream ← getStream;
  setStreamState (stream_id stream) state.

(** From the staleness check to the write of the poll state: the playlist
    evaluation of one poll. *)
Definition evaluatePlaylist (now : Z) (manifest : Manifest) (state : PollState) : M unit :=
  let currentSequence := default 0 (mf_mediaSequence manifest) in
  let segmentCount := Z.of_nat (length (default [] (segments manifest))) in
  let targetDuration := default 0 (mf_targetDuration manifest) in
  state ← stalenessCheck now currentSequence state;
  sequenceChecks currentSequence state;;
  discontinuityCheck manifest;;
  updateHealth now currentSequence segmentCount targetDuration manifest state.

(** The block "HANDLE MASTER PLAYLIST" of [checkStream]: follow the first
    variant.  [None] when the block has returned from [checkStream];
    otherwise the media manifest and the URL it came from. *)
Definition followVariant (manifest : Manifest) : M (option (Manifest * string)) :=
  stream ← getStream;
  match playlists manifest with
  | Some (variant :: _) =>
      let variantUrl := resolveVariantUrl (url stream) (uri variant) in
      (if truthy_Z (BANDWIDTH variant)
       then modifyStream (with_stats (set_bandwidth (BANDWIDTH variant)))
       else mret tt);;
      match RESOLUTION variant with
      | Some (width, height) =>
          modifyStream (with_stats (set_resolution
            (Some (pretty width +:+ "x" +:+ pretty height))))
      | None => mret tt
      end;;
      env ← askEnv;
      match fetchVariant env variantUrl with
      | FetchOk manifest => mret (Some (manifest, variantUrl))
      | FetchFailed message response_status =>
          addError ErrorTypes.MANIFEST_RETRIEVAL
            ("Failed to fetch variant: " +:+ message) "VIDEO" response_status;;
          setStatus error;;
          saveAndPublish;;
          mret None
      end
  | _ => mret (Some (manifest, url stream))
  end.

(** [calculateSlidingWindowMetrics(stream._id)] in the world: the query is
    answered by the oracle, and the clock is read only where the function
    reads it. *)
Definition recentIssuesOf (streamId : option string) : M RecentIssues :=
  env ← askEnv;
  let lookup := findById env (default "" streamId) in
  match lookup with
  | QueryResolved (Some (mkLeanStream (Some _))) =>
      if truthy_string streamId then
        now ← dateNow;
        mret (calculateSlidingWindowMetrics now lookup streamId)
      else mret (calculateSlidingWindowMetrics 0 lookup streamId)
  | _ => mret (calculateSlidingWindowMetrics 0 lookup streamId)
  end.

(** [getErrorDecayFactor(stream.health.lastErrorTime)] in the world. *)
Definition decayFactorOf (lastErrorTime : option JsDate) : M Q :=
  match lastErrorTime with
  | Some (ValidDate _) =>
      now ← dateNow;
      mret (getErrorDecayFactor now lastErrorTime)
  | _ => mret (getErrorDecayFactor 0 lastErrorTime)
  end.

(** [stream.stats?.video?.bitRate || stream.stats?.container?.bitRate * 0.85 || 0]. *)
Definition videoBitrateOf (stream : Stream) : Q :=
  let videoBitRate := video (stats stream) ≫= v_bitRate in
  let containerBitRate := container (stats stream) ≫= c_bitRate in
  if truthy_Q videoBitRate then default 0%Q videoBitRate
  else if truthy_Q containerBitRate then (default 0 containerBitRate * (85 # 100))%Q
  else 0%Q.

(** [stream.stats?.audio?.bitRate || 128000]. *)
Definition audioBitrateOf (stream : Stream) : Q :=
  let audioBitRate := audio (stats stream) ≫= a_bitRate in
  if truthy_Q audioBitRate then default 0%Q audioBitRate else 128000%Q.

(** [Math.min(100, Math.max(0, (bitrate / full) * 100))]. *)
Definition signalLevel (bitrate full : Q) : Q :=
  Qmin 100 (Qmax 0 (bitrate / full * 100)).

(** [checkStream] after its first save: signal levels, window and decay,
    the recent counters, the history sample (a failed insert is logged and
    ignored), the second save (any failure is ignored) and the update
    event. *)
Definition scoreAndPublish (currentSequence segmentCount : Z) : M unit :=
  stream ← getStream;
  let videoBitrate := videoBitrateOf stream in
  let audioBitrate := audioBitrateOf stream in
  let videoLevel := signalLevel videoBitrate 5000000 in
  let audioLevel := signalLevel audioBitrate 320000 in
  recentIssues ← recentIssuesOf (Some (stream_id stream));
  decayFactor ← decayFactorOf (lastErrorTime (health stream));
  modifyStream (with_health (set_recentErrors (errors recentIssues)));;
  modifyStream (with_health (set_recentSequenceJumps (jumps recentIssues)));;
  modifyStream (with_health (set_recentSequenceResets (resets recentIssues)));;
  stream ← getStream;
  env ← askEnv;
  emit (MetricsHistoryCreate
          (mkMetricsSample
             (stream_id stream)
             (calculateHealthScore stream (Some recentIssues) decayFactor)
             (calculateVideoScore stream)
             (calculateAudioScore stream)
             videoBitrate audioBitrate videoLevel audioLevel
             (match fps (stats stream) with
              | Some f => orZero f
              | None => JFin 0
              end)
             (status stream)
             currentSequence segmentCount
             (totalErrors (health stream)))
          (createRejection env));;
  tryCatch save (fun saveErr => mret tt);;
  stream ← getStream;
  emit (EmitStreamUpdate stream).

(** The block "ANALYZE MEDIA PLAYLIST" of [checkStream] and what follows
    it in the [try]: the content check, the evaluation, the dispatch of the
    latest segment ("TRIGGER SPRITE GENERATION"; [processSegment] is not
    awaited), the time stamp and the first save. *)
Definition analyzeMediaPlaylist (now : Z) (manifest : Manifest) (variantUrl : string)
    (state : PollState) : M unit :=
  match segments manifest with
  | Some (first :: others) =>
      evaluatePlaylist now manifest state;;
      let latestSegment := List.last others first in
      let segmentUrl := resolveVariantUrl variantUrl (seg_uri latestSegment) in
      emit (ProcessSegment segmentUrl);;
      checked ← dateNow;
      modifyStream (set_lastChecked (Some (ValidDate checked)));;
      saved ← saveOrReturn;
      if saved : bool
      then scoreAndPublish (default 0 (mf_mediaSequence manifest))
             (Z.of_nat (length (first :: others)))
      else mret tt
  | _ =>
      addError ErrorTypes.PLAYLIST_CONTENT "Playlist has no segments" "VIDEO" None;;
      setStatus error;;
      saveAndPublish
  end.

(** The outer [catch] of [checkStream]: a version conflict at its save
    returns, any other failure is logged and the event is still emitted. *)
Definition fatalHandler (err : JsError) : M unit :=
  setStatus error;;
  addError ErrorTypes.MANIFEST_RETRIEVAL (err_message err) "VIDEO" None;;
  proceed ← tryCatch (save;; mret true)
              (fun saveErr =>
                 mret (negb (String.eqb (err_name saveErr) "VersionError")));
  if proceed : bool then
    stream ← getStream;
    emit (EmitStreamUpdate stream)
  else mret tt.

(** [streamState.get(id) || { lastPollTime: 0, lastMediaSequence: -1,
    consecutiveStales: 0 }].  The code updates the object it gets in place,
    from the staleness check on, and stores it with [streamState.set]
    after the health update; no exit lies between the two, so the
    embedding keeps the object as a local value until the [set]. *)
Definition cachedState (cache : gmap string PollState) (id : string) : PollState :=
  default (mkPollState 0 (-1) 0) (cache !! id).

(** [checkStream(stream, io)], with [stream] the document of the world.
    The errors that reach the outer [catch] in the embedding are the
    failures of [save] other than a version conflict. *)
Definition checkStream : M unit :=
  now ← dateNow;
  stream ← getStream;
  cache ← getStreamState;
  let state := cachedState cache (stream_id stream) in
  tryCatch
    (env ← askEnv;
     match fetchMaster env (url stream) with
     | FetchFailed message response_status =>
         addError ErrorTypes.MANIFEST_RETRIEVAL
           ("Failed to fetch manifest: " +:+ message) "MASTER" response_status;;
         setStatus error;;
         saveAndPublish
     | FetchOk manifest =>
         followed ← followVariant manifest;
         match followed with
         | Some (manifest, variantUrl) =>
             analyzeMediaPlaylist now manifest variantUrl state
         | None => mret tt
         end
     end)
    fatalHandler.

(** ** Monitor worker: the sweep and its scheduler *)

(** What [Stream.find()] settles to. *)
Inductive FindResult : Type :=
  | FindRejected (e : JsError)
  | FindResolved (streams : list Stream).

(** [await checkStream(stream, io)] for one of the found documents: the
    document becomes the [stream] of the world, and its state after the
    poll is returned. *)
Definition checkStreamOf (stream : Stream) : M Stream :=
  modifyStream (fun _ => stream);;
  checkStream;;
  getStream.

(** The [for ... of] loop of [monitorLoop]: the documents are polled one
    after the other; the result lists them as the polls left them. *)
Fixpoint forEachStream (streams : list Stream) : M (list Stream) :=
  match streams with
  | [] => mret []
  | stream :: rest =>
      polled ← checkStreamOf stream;
      others ← forEachStream rest;
      mret (polled :: others)
  end.

(** [monitorLoop(io)], given what [Stream.find()] settles to. *)
Definition monitorLoop (found : FindResult) : M (list Stream) :=
  match found with
  | FindRejected e => throw e
  | FindResolved streams => forEachStream streams
  end.

(** The scheduler of the module: the flag [isRunning], the sweeps that
    have been started and have not finished, and the timers set by
    [setTimeout] that have not fired. *)
Record Scheduler : Type := mkScheduler {
  isRunning : bool;
  sweeps : nat;
  timers : nat
}.

(** [runMonitor()] up to its first [await]: the guard, then the start of a
    sweep. *)
Definition runMonitor (s : Scheduler) : Scheduler :=
  if isRunning s then s
  else mkScheduler true (S (sweeps s)) (timers s).

(** The [finally] of [runMonitor], run when [monitorLoop] has settled,
    fulfilled or rejected: the flag is cleared and the next run is
    scheduled. *)
Definition sweepSettles (s : Scheduler) : Scheduler :=
  mkScheduler false (Nat.pred (sweeps s)) (S (timers s)).

(** A timer fires and calls [runMonitor]. *)
Definition timerFires (s : Scheduler) : Scheduler :=
  runMonitor (mkScheduler (isRunning s) (sweeps s) (Nat.pred (timers s))).

(** The module's export calls [runMonitor()] once. *)
Definition schedulerStarted : Scheduler := runMonitor (mkScheduler false 0 0).

Inductive SchedulerStep : Scheduler -> Scheduler -> Prop :=
  | step_sweepSettles (s : Scheduler) :
      (0 < sweeps s)%nat -> SchedulerStep s (sweepSettles s)
  | step_timerFires (s : Scheduler) :
      (0 < timers s)%nat -> SchedulerStep s (timerFires s).

Inductive SchedulerReachable : Scheduler -> Prop :=
  | sched_init : SchedulerReachable schedulerStarted
  | sched_step (s s' : Scheduler) :
      SchedulerReachable s -> SchedulerStep s s' -> SchedulerReachable s'.

(** ** Segment processor: the three tasks of a segment *)

(** The calls of [runLimited] made by [processSegment(stream, segmentUrl,
    io)]: the probe, the volume detection and the thumbnail, in this
    order. *)
Definition processSegment (probe volume sprite : Task) (p : Pipeline) : Pipeline :=
  runLimited sprite (runLimited volume (runLimited probe p)).

(** ** Segment processor: the volume detection *)

(** [parseFloat(match[1])] kept when it is neither NaN nor infinite
    ([null] otherwise, and when the pattern did not match). *)
Definition validDb (capture : option string) : option Q :=
  match capture with
  | None => None
  | Some text =>
      match parseFloat text with
      | JFin q => Some q
      | _ => None
      end
  end.

(** A pattern matched: [match] is not [null]. *)
Definition matched (m : option string) : bool :=
  match m with
  | Some _ => true
  | None => false
  end.

(** The update of the document in the [end] handler of the volume
    detection; [meanMatch] and [maxMatch] are the texts captured by the two
    patterns in the tool's output, [None] for a pattern that does not
    match. *)
Definition volumeDetected (meanMatch maxMatch : option string) (stream : Stream)
    : Stream :=
  if matched meanMatch || matched maxMatch then
    let validAvgDb := validDb meanMatch in
    let validPeakDb := validDb maxMatch in
    let isSilent :=
      match validPeakDb with
      | Some peak => Qltb peak (-50)
      | None => false
      end in
    match audio (stats stream) with
    | Some a =>
        with_stats (fun st =>
          mkStats (bandwidth st) (resolution st) (fps st) (video st)
            (Some (mkAudioStats (a_codec a) (a_channels a) (a_sampleRate a)
                     (a_bitRate a) validPeakDb validAvgDb (a_channelLayout a)
                     (Some isSilent)))
            (container st)) stream
    | None => stream
    end
  else stream.

(* ================================================================== *)
(** * Part II: properties                                              *)
(* ================================================================== *)

(** ** Decay factor *)

Definition HOUR_MS : Z := 3600000.

(** Comparing the elapsed hours with a whole number of hours is comparing
    the elapsed milliseconds with that many hours of milliseconds. *)
Lemma hours_ltb (elapsed k : Z) :
  Qltb (inject_Z elapsed / inject_Z (1000 * 60 * 60)) (inject_Z k)
  = (elapsed <? k * HOUR_MS).
Proof.
  unfold Qdiv. change (/ inject_Z (1000 * 60 * 60))%Q with (1 # 3600000)%Q.
  unfold Qltb, Qle_bool, HOUR_MS. cbn.
  change (Z.pos (1 * 3600000)) with 3600000.
  destruct (Z.leb_spec (k * 3600000) (elapsed * 1 * 1));
    destruct (Z.ltb_spec elapsed (k * 3600000)); simpl; try reflexivity; lia.
Qed.

Lemma getErrorDecayFactor_valid (dateNow t : Z) :
  getErrorDecayFactor dateNow (Some (ValidDate t)) =
  let elapsed := dateNow - t in
  (if elapsed <? 0 then 0
   else if elapsed <? 1 * HOUR_MS then 0
   else if elapsed <? 6 * HOUR_MS then 1 # 4
   else if elapsed <? 24 * HOUR_MS then 1 # 2
   else if elapsed <? 72 * HOUR_MS then 3 # 4
   else 9 # 10)%Q.
Proof.
  unfold getErrorDecayFactor, getTime.
  change 0%Q with (inject_Z 0). change 1%Q with (inject_Z 1).
  change 6%Q with (inject_Z 6). change 24%Q with (inject_Z 24).
  change 72%Q with (inject_Z 72).
  rewrite !hours_ltb. reflexivity.
Qed.

(** C5.  The decay factor is 1 without a last error time, 0 for an invalid
    date or a negative elapsed time, and otherwise follows the table: 0
    under one hour, 1/4 on [1,6) hours, 1/2 on [6,24), 3/4 on [24,72) and
    9/10 from 72 hours on.  The function is total: it returns for every
    input. *)
Theorem getErrorDecayFactor_table (dateNow : Z) :
  getErrorDecayFactor dateNow None = 1%Q /\
  getErrorDecayFactor dateNow (Some InvalidDate) = 0%Q /\
  forall t : Z,
    let elapsed := dateNow - t in
    let factor := getErrorDecayFactor dateNow (Some (ValidDate t)) in
    (elapsed < 0 -> factor = 0%Q) /\
    (0 <= elapsed < HOUR_MS -> factor = 0%Q) /\
    (HOUR_MS <= elapsed < 6 * HOUR_MS -> factor = (1 # 4)%Q) /\
    (6 * HOUR_MS <= elapsed < 24 * HOUR_MS -> factor = (1 # 2)%Q) /\
    (24 * HOUR_MS <= elapsed < 72 * HOUR_MS -> factor = (3 # 4)%Q) /\
    (72 * HOUR_MS <= elapsed -> factor = (9 # 10)%Q).
Proof.
  split; [reflexivity | split; [reflexivity |]].
  intros t elapsed factor. subst factor. rewrite getErrorDecayFactor_valid.
  fold elapsed. cbv zeta. unfold HOUR_MS.
  repeat split; intros H;
    repeat match goal with
    | |- context [?a <? ?b] => destruct (Z.ltb_spec a b); try lia
    end; reflexivity.
Qed.

(** The table at one concrete clock: no error, an invalid date, a date in
    the future, and one date in each row. *)
Lemma getErrorDecayFactor_table_witness :
  let now := 1000 * HOUR_MS in
  getErrorDecayFactor now None = 1%Q /\
  getErrorDecayFactor now (Some InvalidDate) = 0%Q /\
  getErrorDecayFactor now (Some (ValidDate (now + 5))) = 0%Q /\
  getErrorDecayFactor now (Some (ValidDate (now - 59 * 60000))) = 0%Q /\
  getErrorDecayFactor now (Some (ValidDate (now - HOUR_MS))) = (1 # 4)%Q /\
  getErrorDecayFactor now (Some (ValidDate (now - 6 * HOUR_MS))) = (1 # 2)%Q /\
  getErrorDecayFactor now (Some (ValidDate (now - 48 * HOUR_MS))) = (3 # 4)%Q /\
  getErrorDecayFactor now (Some (ValidDate (now - 72 * HOUR_MS))) = (9 # 10)%Q.
Proof.
  intros now.
  pose proof (getErrorDecayFactor_table now) as (H0 & H1 & H).
  split; [exact H0 | split; [exact H1 |]].
  split; [apply (proj1 (H (now + 5))); unfold now, HOUR_MS; lia |].
  split; [apply (proj1 (proj2 (H (now - 59 * 60000)))); unfold now, HOUR_MS; lia |].
  split; [apply (proj1 (proj2 (proj2 (H (now - HOUR_MS))))); unfold now, HOUR_MS; lia |].
  split; [apply (proj1 (proj2 (proj2 (proj2 (H (now - 6 * HOUR_MS)))))); unfold now, HOUR_MS; lia |].
  split; [apply (proj1 (proj2 (proj2 (proj2 (proj2 (H (now - 48 * HOUR_MS))))))); unfold now, HOUR_MS; lia |].
  apply (proj2 (proj2 (proj2 (proj2 (proj2 (H (now - 72 * HOUR_MS))))))); unfold now, HOUR_MS; lia.
Defined.

(** ** Health score *)

(** The penalties for the current status: 30 when stale, 40 when the status
    is [error], 50 when it is [offline], added up. *)
Definition immediatePenalty (stream : Stream) : Q :=
  ((if isStale (health stream) then 30 else 0)
   + match status stream with error => 40 | _ => 0 end
   + match status stream with offline => 50 | _ => 0 end)%Q.

(** The capped penalties of [j] jumps, [r] resets and [e] errors. *)
Definition cappedPenalty (j r e : Z) : Q :=
  (Qmin (inject_Z j * 5) 20 + Qmin (inject_Z r * 10) 30 + Qmin (inject_Z e * 2) 20)%Q.

Definition clampScore (x : Q) : Q := Qmax 0 (Qmin 100 x).

Lemma clampScore_compat (x y : Q) : (x == y)%Q -> (clampScore x == clampScore y)%Q.
Proof. intros H. unfold clampScore. now rewrite H. Qed.

Lemma clampScore_range (x : Q) : (0 <= clampScore x <= 100)%Q.
Proof.
  unfold clampScore. split.
  - apply Q.le_max_l.
  - apply Q.max_lub; [discriminate | apply Q.le_min_l].
Qed.

Lemma calculateHealthScore_clamped stream r d :
  exists x, calculateHealthScore stream r d = clampScore x.
Proof. unfold calculateHealthScore, clampScore. eexists. reflexivity. Qed.

Lemma immediate_steps (stream : Stream) :
  ((if Status_eqb (status stream) offline
    then (if Status_eqb (status stream) error
          then (if isStale (health stream) then 100 - 30 else 100) - 40
          else (if isStale (health stream) then 100 - 30 else 100)) - 50
    else (if Status_eqb (status stream) error
          then (if isStale (health stream) then 100 - 30 else 100) - 40
          else (if isStale (health stream) then 100 - 30 else 100)))
   == 100 - immediatePenalty stream)%Q.
Proof.
  unfold immediatePenalty.
  destruct (isStale (health stream)), (status stream); reflexivity.
Qed.

(** Without a positive counter the capped term is zero. *)
Lemma capped_guard (n k cap : Z) (s : Q) :
  0 <= n -> 0 < k -> 0 < cap ->
  ((if 0 <? n then s - Qmin (inject_Z (n * k)) (inject_Z cap) else s)
   == s - Qmin (inject_Z n * inject_Z k) (inject_Z cap))%Q.
Proof.
  intros Hn Hk Hcap. rewrite <- inject_Z_mult.
  destruct (Z.ltb_spec 0 n) as [Hpos | Hle]; [reflexivity |].
  assert (n = 0) by lia. subst n. rewrite Z.mul_0_l.
  rewrite Q.min_l by (rewrite <- Zle_Qle; lia).
  change (inject_Z 0) with 0%Q. ring.
Qed.

(** C1.  With recent-issue counts [r] and decay [d] the score is 100 minus
    the status penalties minus the capped recent penalties scaled by
    [1 - d], clamped to [0,100]; without [r] the all-time counters (which
    count events, so are not negative) take the place of [r] with the same
    caps and no scaling; and the score is in [0,100] for every input. *)
Theorem calculateHealthScore_formula (stream : Stream) :
  (forall (r : RecentIssues) (d : Q),
      (calculateHealthScore stream (Some r) d ==
       clampScore (100 - immediatePenalty stream
                   - cappedPenalty (jumps r) (resets r) (errors r) * (1 - d)))%Q) /\
  (0 <= sequenceJumps (health stream) ->
   0 <= sequenceResets (health stream) ->
   0 <= totalErrors (health stream) ->
   forall d : Q,
      (calculateHealthScore stream None d ==
       clampScore (100 - immediatePenalty stream
                   - cappedPenalty (sequenceJumps (health stream))
                                   (sequenceResets (health stream))
                                   (totalErrors (health stream))))%Q) /\
  (forall (r : option RecentIssues) (d : Q),
      (0 <= calculateHealthScore stream r d <= 100)%Q).
Proof.
  split; [| split].
  - intros r d. unfold calculateHealthScore. cbv zeta.
    apply clampScore_compat. rewrite immediate_steps.
    unfold cappedPenalty. rewrite !inject_Z_mult.
    change (inject_Z 5) with 5%Q. change (inject_Z 10) with 10%Q.
    change (inject_Z 2) with 2%Q. ring.
  - intros Hj Hr He d. unfold calculateHealthScore. cbv zeta.
    apply clampScore_compat.
    change 20%Q with (inject_Z 20). change 30%Q with (inject_Z 30).
    rewrite (capped_guard (totalErrors (health stream)) 2 20) by lia.
    rewrite (capped_guard (sequenceResets (health stream)) 10 30) by lia.
    rewrite (capped_guard (sequenceJumps (health stream)) 5 20) by lia.
    rewrite immediate_steps. unfold cappedPenalty.
    change (inject_Z 5) with 5%Q. change (inject_Z 10) with 10%Q.
    change (inject_Z 2) with 2%Q. change (inject_Z 20) with 20%Q.
    change (inject_Z 30) with 30%Q. ring.
  - intros r d. destruct (calculateHealthScore_clamped stream r d) as [x ->].
    apply clampScore_range.
Qed.

(** An online stream with no recorded issue, and the same stream with
    all-time counters 2 jumps, 1 reset and 3 errors. *)
Definition quietStream : Stream :=
  set_status online (newStream "s1" "channel one" "http://host/live/index.m3u8" 0).

Definition busyStream : Stream :=
  with_health (fun h => set_sequenceJumps 2 (set_sequenceResets 1 (set_totalErrors 3 h)))
    quietStream.

(** The formula at [busyStream]: with the window [{2, 1, 3}] and decay 3/4
    the score is 100 - 26/4 = 93.5; from the all-time counters it is 74. *)
Lemma calculateHealthScore_formula_witness :
  (calculateHealthScore busyStream (Some (mkRecentIssues 2 1 3)) (3 # 4) == 187 # 2)%Q /\
  (calculateHealthScore busyStream None 0 == 74)%Q.
Proof.
  pose proof (calculateHealthScore_formula busyStream) as (Hrecent & Hall & _).
  split.
  - rewrite (Hrecent (mkRecentIssues 2 1 3) (3 # 4)%Q). reflexivity.
  - rewrite (Hall ltac:(simpl; lia) ltac:(simpl; lia) ltac:(simpl; lia) 0%Q).
    reflexivity.
Defined.

(** ** Audio score *)

(** The audio score as the specification words it: every sample rate under
    44100, a rate of 0 included, costs 10 points. *)
Definition audioScore_unguarded (stream : Stream) : Z :=
  match audio (stats stream) with
  | None => 50
  | Some a =>
      Z.max 0 (Z.min 100
        (100
         - (if truthy_string (a_codec a) then 0 else 20)
         - (match a_sampleRate a with
            | Some rate => if rate <? 44100 then 10 else 0
            | None => 0
            end)
         - (if truthy_bool (a_isSilent a) then 15 else 0)))
  end.

(** The audio block the probe writes for an AAC stereo stream for which the
    tool reports no sample rate and no bit rate. *)
Definition probedAudio : AudioStats :=
  probeAudioStats (mkProbeAudio (Some "aac") (Some 2) None None) None.

Definition probedStream : Stream :=
  with_stats (fun st => mkStats (bandwidth st) (resolution st) (fps st) (video st)
                          (Some probedAudio) (container st))
    quietStream.

(** C7, as stated, fails: the probe records a sample rate of 0 when the
    tool reports none, and such a stream scores 100, not 90. *)
Lemma calculateAudioScore_rate0_counterexample :
  (audio (stats probedStream) ≫= a_sampleRate) = Some 0 /\
  calculateAudioScore probedStream = 100 /\
  audioScore_unguarded probedStream = 90.
Proof. repeat split; vm_compute; reflexivity. Qed.

(** C7, amended.  Without an audio block the score is 50.  Otherwise it is
    100, minus 20 without a codec, minus 10 when the sample rate is known
    (present and not 0) and under 44100, minus 15 when silent, clamped to
    [0,100]; and a recorded sample rate of 0 costs nothing. *)
Theorem calculateAudioScore_guarded (stream : Stream) :
  (audio (stats stream) = None -> calculateAudioScore stream = 50) /\
  (forall a : AudioStats,
      audio (stats stream) = Some a ->
      calculateAudioScore stream =
      Z.max 0 (Z.min 100
        (100
         - (if truthy_string (a_codec a) then 0 else 20)
         - (match a_sampleRate a with
            | Some rate => if negb (rate =? 0) && (rate <? 44100) then 10 else 0
            | None => 0
            end)
         - (if truthy_bool (a_isSilent a) then 15 else 0))) /\
      (a_sampleRate a = Some 0 ->
       calculateAudioScore stream =
       100 - (if truthy_string (a_codec a) then 0 else 20)
           - (if truthy_bool (a_isSilent a) then 15 else 0))) /\
  0 <= calculateAudioScore stream <= 100.
Proof.
  unfold calculateAudioScore.
  destruct (audio (stats stream)) as [a |].
  - split; [discriminate |]. split; [| lia].
    intros a' [= <-].
    destruct (a_sampleRate a) as [rate |]; cbn [truthy_Z default from_option id].
    + split.
      * destruct (truthy_string (a_codec a)), (negb (rate =? 0) && (rate <? 44100)),
          (truthy_bool (a_isSilent a)); reflexivity.
      * intros [= ->].
        destruct (truthy_string (a_codec a)), (truthy_bool (a_isSilent a)); reflexivity.
    + split; [| discriminate].
      destruct (truthy_string (a_codec a)), (truthy_bool (a_isSilent a)); reflexivity.
  - split; [reflexivity |]. split; [discriminate | lia].
Qed.

(** The amended statement at the probed stream. *)
Lemma calculateAudioScore_guarded_witness :
  calculateAudioScore probedStream = 100.
Proof.
  exact (proj2 (proj1 (proj2 (calculateAudioScore_guarded probedStream))
                  probedAudio eq_refl) eq_refl).
Defined.

(** ** Sliding window *)

(** [sub] occurs in [s]. *)
Definition Substring (sub s : string) : Prop :=
  exists pre post : string, s = pre +:+ sub +:+ post.

Lemma prefix_spec (p s : string) :
  String.prefix p s = true <-> exists post, s = p +:+ post.
Proof.
  revert s. induction p as [| c p IH]; intros s.
  - split; [intros _; exists s; reflexivity | destruct s; reflexivity].
  - destruct s as [| d s]; simpl;
      [split; [discriminate | intros [post H]; discriminate] |].
    destruct (ascii_dec c d) as [-> | Hne].
    + rewrite IH. split; intros [post H]; exists post.
      * simpl. now rewrite H.
      * simpl in H. now injection H.
    + split; [discriminate |].
      intros [post H]. simpl in H. injection H as H1 H2. congruence.
Qed.

Lemma includes_spec (s sub : string) : includes s sub = true <-> Substring sub s.
Proof.
  induction s as [| c s IH]; cbn [includes].
  - rewrite orb_false_r, prefix_spec. split.
    + intros [post H]. exists EmptyString, post. exact H.
    + intros [pre [post H]]. destruct pre; [exists post; exact H | discriminate].
  - rewrite orb_true_iff, prefix_spec, IH. split.
    + intros [[post H] | [pre [post H]]].
      * exists EmptyString, post. exact H.
      * exists (String c pre), post. simpl. now rewrite H.
    + intros [pre [post H]]. destruct pre as [| d pre].
      * left. exists post. exact H.
      * right. simpl in H. inversion H. exists pre, post. reflexivity.
Qed.

(** The entry is in the window ending at [now]: it has a valid date not
    older than 12 minutes. *)
Definition InWindow (now : Z) (e : StreamError) : Prop :=
  exists t : Z, date e = Some (ValidDate t) /\ now - 12 * 60 * 1000 <= t.

(** The entry counts as a jump, respectively as a reset. *)
Definition IsJump (e : StreamError) : Prop :=
  errorType e = Some "SEQUENCE_JUMP" \/
  exists d : string, details e = Some d /\ Substring "Sequence jumped" d.

Definition IsReset (e : StreamError) : Prop :=
  errorType e = Some "SEQUENCE_RESET" \/
  exists d : string, details e = Some d /\ Substring "reset" d.

Lemma inWindowStart_spec (now : Z) (e : StreamError) :
  inWindowStart (now - 12 * 60 * 1000) e = true <-> InWindow now e.
Proof.
  unfold inWindowStart, InWindow.
  destruct (date e) as [[t |] |]; simpl.
  - rewrite Z.leb_le. split; [intros H; exists t; auto | intros [t' [[= <-] H]]; exact H].
  - split; [discriminate | intros [t [H _]]; discriminate].
  - split; [discriminate | intros [t [H _]]; discriminate].
Qed.

Lemma detailsInclude_spec (e : StreamError) (sub : string) :
  sub <> EmptyString ->
  detailsInclude e sub = true <-> exists d, details e = Some d /\ Substring sub d.
Proof.
  intros Hsub. unfold detailsInclude.
  destruct (details e) as [d |]; simpl.
  - rewrite andb_true_iff, includes_spec, negb_true_iff. split.
    + intros [_ H]. exists d. auto.
    + intros [d' [[= <-] H]]. split; [| exact H].
      destruct d; [| reflexivity].
      destruct H as [pre [post H]]. destruct pre, sub; try discriminate.
      contradiction.
  - split; [discriminate | intros [d [H _]]; discriminate].
Qed.

Definition isJumpb (e : StreamError) : bool :=
  bool_decide (errorType e = Some "SEQUENCE_JUMP") || detailsInclude e "Sequence jumped".

Definition isResetb (e : StreamError) : bool :=
  bool_decide (errorType e = Some "SEQUENCE_RESET") || detailsInclude e "reset".

Lemma isJumpb_spec (e : StreamError) : isJumpb e = true <-> IsJump e.
Proof.
  unfold isJumpb, IsJump.
  rewrite orb_true_iff, bool_decide_eq_true, detailsInclude_spec by discriminate.
  reflexivity.
Qed.

Lemma isResetb_spec (e : StreamError) : isResetb e = true <-> IsReset e.
Proof.
  unfold isResetb, IsReset.
  rewrite orb_true_iff, bool_decide_eq_true, detailsInclude_spec by discriminate.
  reflexivity.
Qed.

#[global] Instance InWindow_dec (now : Z) (e : StreamError) : Decision (InWindow now e).
Proof.
  refine (cast_if (decide (inWindowStart (now - 12 * 60 * 1000) e = true)));
    rewrite <- inWindowStart_spec; assumption.
Defined.

#[global] Instance IsJump_dec (e : StreamError) : Decision (IsJump e).
Proof.
  refine (cast_if (decide (isJumpb e = true))); rewrite <- isJumpb_spec; assumption.
Defined.

#[global] Instance IsReset_dec (e : StreamError) : Decision (IsReset e).
Proof.
  refine (cast_if (decide (isResetb e = true))); rewrite <- isResetb_spec; assumption.
Defined.

(** A boolean filter and the filter by the property it decides agree. *)
Lemma filter_bool_Prop {A} (f : A -> bool) (P : A -> Prop) `{!forall x, Decision (P x)}
    (l : list A) :
  (forall x, f x = true <-> P x) -> List.filter f l = filter P l.
Proof.
  intros Hspec. induction l as [| x l IH]; [reflexivity |].
  simpl. rewrite filter_cons. destruct (decide (P x)) as [HP | HP].
  - apply Hspec in HP. rewrite HP, IH. reflexivity.
  - destruct (f x) eqn:Hf; [apply Hspec in Hf; contradiction | exact IH].
Qed.

Lemma triple_eq (a b c a' b' c' : Z) :
  a = a' -> b = b' -> c = c' -> (a, b, c) = (a', b', c').
Proof. congruence. Qed.

(** The three counters after the loop: what they were plus the number of
    jumps, of resets and of entries of the list. *)
Lemma fold_countIssue (l : list StreamError) (j r n : Z) :
  fold_left countIssue l (j, r, n) =
  (j + Z.of_nat (length (filter IsJump l)),
   r + Z.of_nat (length (filter IsReset l)),
   n + Z.of_nat (length l)).
Proof.
  revert j r n. induction l as [| e l IH]; intros j r n.
  - simpl. apply triple_eq; lia.
  - cbn [fold_left]. unfold countIssue at 2. rewrite !filter_cons.
    fold (isJumpb e). fold (isResetb e).
    destruct (decide (IsJump e)) as [Hj | Hj]; destruct (decide (IsReset e)) as [Hr | Hr];
      pose proof (isJumpb_spec e) as Hjb; pose proof (isResetb_spec e) as Hrb;
      destruct (isJumpb e), (isResetb e);
      try (exfalso; intuition congruence);
      rewrite IH; cbn [length]; apply triple_eq; lia.
Qed.

Definition noIssues : RecentIssues := mkRecentIssues 0 0 0.

(** C6.  For a stream id and the stream's ledger [errs], the result counts
    the entries of the window of the last 12 minutes: all of them as
    [errors], those typed SEQUENCE_JUMP or whose details contain "Sequence
    jumped" as [jumps], those typed SEQUENCE_RESET or whose details
    contain "reset" as [resets]; without an id, when the query fails, finds
    no document or finds no ledger, the result is all zeros. *)
Theorem calculateSlidingWindowMetrics_spec (now : Z) (id : string) :
  id <> EmptyString ->
  (forall errs : list StreamError,
      let windowed := filter (InWindow now) errs in
      calculateSlidingWindowMetrics now
        (QueryResolved (Some (mkLeanStream (Some errs)))) (Some id) =
      mkRecentIssues (Z.of_nat (length (filter IsJump windowed)))
                     (Z.of_nat (length (filter IsReset windowed)))
                     (Z.of_nat (length windowed))) /\
  (forall lookup, calculateSlidingWindowMetrics now lookup None = noIssues) /\
  (forall lookup, calculateSlidingWindowMetrics now lookup (Some EmptyString) = noIssues) /\
  (forall message,
      calculateSlidingWindowMetrics now (QueryRejected message) (Some id) = noIssues) /\
  calculateSlidingWindowMetrics now (QueryResolved None) (Some id) = noIssues /\
  calculateSlidingWindowMetrics now (QueryResolved (Some (mkLeanStream None))) (Some id)
  = noIssues.
Proof.
  intros Hid.
  assert (Ht : truthy_string (Some id) = true).
  { destruct id; [contradiction | reflexivity]. }
  unfold calculateSlidingWindowMetrics. rewrite Ht. cbn [negb lean_streamErrors].
  split; [| repeat split; reflexivity].
  intros errs.
  rewrite (filter_bool_Prop _ (InWindow now)) by (intros x; apply inWindowStart_spec).
  rewrite fold_countIssue. reflexivity.
Qed.

(** A ledger read at [now = 10^9]: a jump two minutes old, a reset five
    minutes old (both written under the type "Media Sequence"), and a stale
    entry one hour old. *)
Definition sampleLedger : list StreamError :=
  [ mkStreamError "eid-1" (Some (ValidDate (1000000000 - 120000)))
      (Some ErrorTypes.MEDIA_SEQUENCE) "VIDEO" "unknown"
      (Some "Sequence jumped from 100 to 105 (gap: 4)") None;
    mkStreamError "eid-2" (Some (ValidDate (1000000000 - 300000)))
      (Some ErrorTypes.MEDIA_SEQUENCE) "VIDEO" "unknown"
      (Some "Sequence reset from 105 to 50") None;
    mkStreamError "eid-3" (Some (ValidDate (1000000000 - 3600000)))
      (Some ErrorTypes.STALE_MANIFEST) "VIDEO" "unknown"
      (Some "Playlist stale for 7100ms") None ].

Lemma calculateSlidingWindowMetrics_spec_witness :
  calculateSlidingWindowMetrics 1000000000
    (QueryResolved (Some (mkLeanStream (Some sampleLedger)))) (Some "s1")
  = mkRecentIssues 1 1 2.
Proof.
  rewrite (proj1 (calculateSlidingWindowMetrics_spec 1000000000 "s1"
                    ltac:(discriminate)) sampleLedger).
  vm_compute. reflexivity.
Defined.

(** ** Frame rate *)

(** [c] does not occur in [s]. *)
Fixpoint lacks (c : ascii) (s : string) : Prop :=
  match s with
  | EmptyString => True
  | String x rest => x <> c /\ lacks c rest
  end.

Lemma app_cons (x : ascii) (a b : string) : String x a +:+ b = String x (a +:+ b).
Proof. reflexivity. Qed.

Lemma app_assoc_string (a b c : string) : (a +:+ b) +:+ c = a +:+ (b +:+ c).
Proof.
  induction a as [| x a IH]; [reflexivity |].
  rewrite !app_cons. f_equal. exact IH.
Qed.

Lemma app_empty_r (a : string) : a +:+ EmptyString = a.
Proof.
  induction a as [| x a IH]; [reflexivity |].
  rewrite app_cons. f_equal. exact IH.
Qed.

Lemma splitFrom_lacks (sep : ascii) (s current : string) :
  lacks sep s -> splitFrom sep s current = [current +:+ s].
Proof.
  revert current. induction s as [| x s IH]; intros current H; cbn [splitFrom].
  - now rewrite app_empty_r.
  - destruct H as [Hx Hs]. destruct (Ascii.eqb_spec x sep) as [-> | _]; [contradiction |].
    rewrite IH by exact Hs. now rewrite app_assoc_string.
Qed.

Lemma splitFrom_sep (sep : ascii) (a b current : string) :
  lacks sep a ->
  splitFrom sep (a +:+ String sep b) current = (current +:+ a) :: splitFrom sep b EmptyString.
Proof.
  revert current. induction a as [| x a IH]; intros current H.
  - change (EmptyString +:+ String sep b) with (String sep b).
    cbn [splitFrom]. rewrite Ascii.eqb_refl. now rewrite app_empty_r.
  - rewrite app_cons. cbn [splitFrom].
    destruct H as [Hx Ha]. destruct (Ascii.eqb_spec x sep) as [-> | _]; [contradiction |].
    rewrite IH by exact Ha. now rewrite app_assoc_string.
Qed.

(** A rate with exactly one slash is stored as the quotient of the parsed
    parts, and as 0 when that quotient is 0 or NaN. *)
Lemma frameRate_fraction (num den : string) :
  lacks "/" num -> lacks "/" den ->
  frameRate (Some (num +:+ String "/" den)) =
  orZero (jsDiv (parseFloat num) (parseFloat den)).
Proof.
  intros Hn Hd. unfold frameRate.
  assert (Ht : truthy_string (Some (num +:+ String "/" den)) = true).
  { destruct num; reflexivity. }
  rewrite Ht. cbn [default from_option id]. unfold split.
  rewrite splitFrom_sep by exact Hn. rewrite splitFrom_lacks by exact Hd.
  reflexivity.
Qed.

(** A rate without a slash is stored as its numeric value, or as 0. *)
Lemma frameRate_plain (rate : string) :
  rate <> EmptyString -> lacks "/" rate ->
  frameRate (Some rate) = orZero (parseFloat rate).
Proof.
  intros Hne Hl. unfold frameRate.
  assert (Ht : truthy_string (Some rate) = true).
  { destruct rate; [contradiction | reflexivity]. }
  rewrite Ht. cbn [default from_option id]. unfold split.
  rewrite splitFrom_lacks by exact Hl. reflexivity.
Qed.

(** A zero denominator under a numerator that is finite and not zero gives
    an infinite frame rate: the fallback to 0 only catches NaN and 0. *)
Lemma frameRate_zero_denominator (num den : string) (p q : Q) :
  lacks "/" num -> lacks "/" den ->
  parseFloat num = JFin p -> parseFloat den = JFin q ->
  (q == 0)%Q -> ~ (p == 0)%Q ->
  frameRate (Some (num +:+ String "/" den)) = JInf (Qltb p 0).
Proof.
  intros Hn Hd Hp Hq Hq0 Hp0. rewrite frameRate_fraction by assumption.
  rewrite Hp, Hq. unfold jsDiv.
  apply Qeq_bool_iff in Hq0. rewrite Hq0.
  destruct (Qeq_bool p 0) eqn:E; [apply Qeq_bool_iff in E; contradiction |].
  reflexivity.
Qed.

(** C8 at the input "30/0": the code stores an infinite frame rate where
    the specification asks for 30. *)
Theorem frameRate_30_over_0 :
  frameRate (Some "30/0") = JInf false /\
  frameRate (Some "30") = JFin 30 /\
  frameRate (Some "30000/1001") = JFin (30000 # 1001) /\
  frameRate (Some "0/0") = JFin 0.
Proof. repeat split; vm_compute; reflexivity. Qed.

(** ** The process queue *)

Lemma length_removeFirst (t : Task) (l : list Task) :
  In t l -> S (length (removeFirst t l)) = length l.
Proof.
  induction l as [| x l IH]; simpl; [contradiction |].
  intros [-> | Hin].
  - now rewrite Nat.eqb_refl.
  - destruct (Nat.eqb x t); [reflexivity |]. simpl. now rewrite IH.
Qed.

Lemma settlePromise_In (t u : Task) (st : PromiseState) (l : list (Task * PromiseState)) :
  In (u, st) (settlePromise t Resolved l) -> In (u, st) l \/ st = Resolved.
Proof.
  induction l as [| [x s] l IH]; [simpl; tauto |].
  destruct s; cbn [settlePromise].
  - destruct (Nat.eqb x t); cbn [In]; intros [H | H].
    + right. congruence.
    + left. right. exact H.
    + left. left. exact H.
    + destruct (IH H); [left; right; assumption | right; assumption].
  - cbn [In]. intros [H | H]; [left; left; exact H |].
    destruct (IH H); [left; right; assumption | right; assumption].
  - cbn [In]. intros [H | H]; [left; left; exact H |].
    destruct (IH H); [left; right; assumption | right; assumption].
Qed.

(** The counter counts the tasks between [execute] and their [finally]
    callback, there are at most four of them, and no promise is rejected. *)
Definition PipelineInv (p : Pipeline) : Prop :=
  activeProcesses p = Z.of_nat (length (running p) + length (settled p)) /\
  activeProcesses p <= MAX_CONCURRENT_FFMPEG /\
  (forall t st, In (t, st) (promises p) -> st <> Rejected).

Lemma PipelineInv_step (p q : Pipeline) :
  PipelineInv p -> PipelineStep p q -> PipelineInv q.
Proof.
  intros (Hcount & Hmax & Hprom) Hstep. unfold MAX_CONCURRENT_FFMPEG in *.
  destruct Hstep as [t p | t o p Hin | t p Hin]; unfold PipelineInv, MAX_CONCURRENT_FFMPEG.
  - unfold runLimited, execute, MAX_CONCURRENT_FFMPEG. cbn [activeProcesses promises].
    assert (Hp : forall u st, In (u, st) (promises p ++ [(t, Pending)]) -> st <> Rejected).
    { intros u st Hu. apply in_app_iff in Hu. destruct Hu as [H | H]; [eauto |].
      simpl in H. destruct H as [H | []]. congruence. }
    destruct (Z.ltb_spec (activeProcesses p) 4); cbn [activeProcesses running settled promises].
    + rewrite length_app. simpl. repeat split; [lia | lia | exact Hp].
    + repeat split; [lia | lia | exact Hp].
  - unfold taskSettles. cbn [activeProcesses running settled promises].
    apply length_removeFirst in Hin. rewrite length_app. simpl.
    repeat split; [lia | lia | exact Hprom].
  - unfold finallyCallback, execute. cbn [activeProcesses processQueue running settled promises].
    apply length_removeFirst in Hin.
    assert (Hp : forall u st,
               In (u, st) (settlePromise t Resolved (promises p)) -> st <> Rejected).
    { intros u st [H | ->]%settlePromise_In; [eauto | discriminate]. }
    destruct (processQueue p) as [| next rest];
      cbn [activeProcesses processQueue running settled promises].
    + repeat split; [lia | lia | exact Hp].
    + rewrite length_app. simpl. repeat split; [lia | lia | exact Hp].
Qed.

Lemma Reachable_inv (p : Pipeline) : Reachable p -> PipelineInv p.
Proof.
  induction 1 as [| p q _ IH Hstep].
  - unfold PipelineInv, MAX_CONCURRENT_FFMPEG. simpl. repeat split; [lia | tauto].
  - exact (PipelineInv_step p q IH Hstep).
Qed.

(** C9.  In every reachable state at most four tasks are executing.  A
    submitted task is executed at once while fewer than four are active and
    otherwise goes to the back of the queue; when a task has finished,
    whatever its outcome, its [finally] callback decrements the counter and
    starts the task at the front of the queue, if there is one (which
    increments the counter again); and no promise of [runLimited] is ever
    rejected. *)
Theorem pipeline_bounded (p : Pipeline) :
  Reachable p ->
  (length (running p) <= 4)%nat /\
  activeProcesses p = Z.of_nat (length (running p) + length (settled p)) /\
  (forall t : Task,
      (activeProcesses p < MAX_CONCURRENT_FFMPEG ->
       running (runLimited t p) = running p ++ [t] /\
       processQueue (runLimited t p) = processQueue p) /\
      (MAX_CONCURRENT_FFMPEG <= activeProcesses p ->
       running (runLimited t p) = running p /\
       processQueue (runLimited t p) = processQueue p ++ [t])) /\
  (forall (t : Task) (o : TaskOutcome),
      taskSettles t o p = taskSettles t TaskFulfilled p) /\
  (forall t : Task,
      In t (settled p) ->
      match processQueue p with
      | [] =>
          activeProcesses (finallyCallback t p) = activeProcesses p - 1 /\
          running (finallyCallback t p) = running p
      | next :: rest =>
          running (finallyCallback t p) = running p ++ [next] /\
          processQueue (finallyCallback t p) = rest /\
          activeProcesses (finallyCallback t p) = activeProcesses p - 1 + 1
      end) /\
  (forall (t : Task) (st : PromiseState), In (t, st) (promises p) -> st <> Rejected).
Proof.
  intros Hreach. destruct (Reachable_inv p Hreach) as (Hcount & Hmax & Hprom).
  unfold MAX_CONCURRENT_FFMPEG in *.
  split; [lia |]. split; [exact Hcount |]. split; [| split; [| split]].
  - intros t. unfold runLimited, MAX_CONCURRENT_FFMPEG. cbn [activeProcesses].
    destruct (Z.ltb_spec (activeProcesses p) 4); split; intros; try lia;
      split; reflexivity.
  - reflexivity.
  - intros t _. unfold finallyCallback, execute.
    cbn [activeProcesses processQueue running settled promises].
    destruct (processQueue p) as [| next rest];
      cbn [activeProcesses processQueue running settled promises];
      repeat split; lia.
  - exact Hprom.
Qed.

(** Six submissions to the empty queue: four tasks run, two wait. *)
Definition sixSubmitted : Pipeline :=
  runLimited 6%nat (runLimited 5%nat (runLimited 4%nat (runLimited 3%nat
    (runLimited 2%nat (runLimited 1%nat emptyPipeline))))).

Lemma sixSubmitted_reachable : Reachable sixSubmitted.
Proof. unfold sixSubmitted. repeat (eapply reach_step; [| apply step_runLimited]). apply reach_init. Qed.

Lemma pipeline_bounded_witness :
  (length (running sixSubmitted) <= 4)%nat /\
  running sixSubmitted = [1; 2; 3; 4]%nat /\
  processQueue sixSubmitted = [5; 6]%nat.
Proof.
  split; [exact (proj1 (pipeline_bounded sixSubmitted sixSubmitted_reachable)) |].
  split; reflexivity.
Defined.

(** ** A weakest-precondition calculus for the worker monad *)

(** [wp m env w Q]: run from [w] with the answers of [env], the computation
    [m] ends in an outcome and a world that satisfy [Q]. *)
Definition wp {A : Type} (m : M A) (env : Env) (w : World)
    (Q : Outcome A -> World -> Prop) : Prop :=
  Q (fst (m env w)) (snd (m env w)).

Lemma wp_ret {A} (a : A) env w (Q : Outcome A -> World -> Prop) :
  Q (Normal a) w -> wp (mret a) env w Q.
Proof. exact (fun H => H). Qed.

Lemma wp_bind {A B} (m : M A) (f : A -> M B) env w (Q : Outcome B -> World -> Prop) :
  wp m env w (fun o w' =>
    match o with
    | Normal a => wp (f a) env w' Q
    | Thrown e => Q (Thrown e) w'
    end) ->
  wp (m ≫= f) env w Q.
Proof.
  unfold wp, mbind, M_bind. destruct (m env w) as [[a | e] w']; simpl; auto.
Qed.

Lemma wp_tryCatch {A} (body : M A) (handler : JsError -> M A) env w
    (Q : Outcome A -> World -> Prop) :
  wp body env w (fun o w' =>
    match o with
    | Normal a => Q (Normal a) w'
    | Thrown e => wp (handler e) env w' Q
    end) ->
  wp (tryCatch body handler) env w Q.
Proof.
  unfold wp, tryCatch. destruct (body env w) as [[a | e] w']; simpl; auto.
Qed.

Lemma wp_mono {A} (m : M A) env w (Q Q' : Outcome A -> World -> Prop) :
  wp m env w Q -> (forall o w', Q o w' -> Q' o w') -> wp m env w Q'.
Proof. unfold wp. auto. Qed.

Lemma wp_throw {A} (e : JsError) env w (Q : Outcome A -> World -> Prop) :
  Q (Thrown e) w -> wp (throw e) env w Q.
Proof. exact (fun H => H). Qed.

Lemma wp_getStream env w (Q : Outcome Stream -> World -> Prop) :
  Q (Normal (doc w)) w -> wp getStream env w Q.
Proof. exact (fun H => H). Qed.

Lemma wp_modifyStream f env w (Q : Outcome unit -> World -> Prop) :
  Q (Normal tt) (mkWorld (f (doc w)) (streamState w) (clockReads w)
                   (randomDraws w) (saveCalls w) (events w)) ->
  wp (modifyStream f) env w Q.
Proof. exact (fun H => H). Qed.

Lemma wp_getStreamState env w (Q : Outcome (gmap string PollState) -> World -> Prop) :
  Q (Normal (streamState w)) w -> wp getStreamState env w Q.
Proof. exact (fun H => H). Qed.

Lemma wp_setStreamState id st env w (Q : Outcome unit -> World -> Prop) :
  Q (Normal tt) (mkWorld (doc w) (<[id := st]> (streamState w)) (clockReads w)
                   (randomDraws w) (saveCalls w) (events w)) ->
  wp (setStreamState id st) env w Q.
Proof. exact (fun H => H). Qed.

Lemma wp_dateNow env w (Q : Outcome Z -> World -> Prop) :
  Q (Normal (clock env (clockReads w)))
    (mkWorld (doc w) (streamState w) (S (clockReads w)) (randomDraws w)
       (saveCalls w) (events w)) ->
  wp dateNow env w Q.
Proof. exact (fun H => H). Qed.

Lemma wp_randomBase36 env w (Q : Outcome string -> World -> Prop) :
  Q (Normal (randomSuffix env (randomDraws w)))
    (mkWorld (doc w) (streamState w) (clockReads w) (S (randomDraws w))
       (saveCalls w) (events w)) ->
  wp randomBase36 env w Q.
Proof. exact (fun H => H). Qed.

Lemma wp_emit e env w (Q : Outcome unit -> World -> Prop) :
  Q (Normal tt) (mkWorld (doc w) (streamState w) (clockReads w) (randomDraws w)
                   (saveCalls w) (events w ++ [e])) ->
  wp (emit e) env w Q.
Proof. exact (fun H => H). Qed.

Lemma wp_askEnv env w (Q : Outcome Env -> World -> Prop) :
  Q (Normal env) w -> wp askEnv env w Q.
Proof. exact (fun H => H). Qed.

Lemma wp_storeAnswer env w (Q : Outcome (option JsError) -> World -> Prop) :
  Q (Normal (saveRejection env (saveCalls w)))
    (mkWorld (doc w) (streamState w) (clockReads w) (randomDraws w)
       (S (saveCalls w)) (events w)) ->
  wp storeAnswer env w Q.
Proof. exact (fun H => H). Qed.

(** Projections of updated records. *)
Ltac world_simpl :=
  cbn [doc streamState clockReads randomDraws saveCalls events
       with_health with_stats
       set_isStale set_lastManifestUpdate set_timeSinceLastUpdate set_mediaSequence
       set_previousMediaSequence set_sequenceJumps set_sequenceResets
       set_discontinuitySequence set_discontinuityCount set_segmentCount
       set_targetDuration set_playlistType set_totalErrors set_timeSinceLastError
       set_recentErrors set_recentSequenceJumps set_recentSequenceResets set_lastErrorTime
       set_status set_health set_stats set_streamErrors set_lastChecked
       set_bandwidth set_resolution
       isStale lastManifestUpdate timeSinceLastUpdate staleThreshold mediaSequence
       previousMediaSequence sequenceJumps sequenceResets discontinuitySequence
       discontinuityCount segmentCount targetDuration playlistType totalErrors
       timeSinceLastError recentErrors recentSequenceJumps recentSequenceResets
       lastErrorTime stream_id name url status health stats streamErrors thumbnail
       lastChecked lastPollTime lastMediaSequence consecutiveStales
       bandwidth resolution fps video audio container
       eid date errorType mediaType variant details code].

(** Tests of the code as facts about integers. *)
Ltac bool_hyps :=
  repeat match goal with
  | H : negb _ = true |- _ => apply negb_true_iff in H
  | H : negb _ = false |- _ => apply negb_false_iff in H
  | H : (_ =? _) = true |- _ => apply Z.eqb_eq in H
  | H : (_ =? _) = false |- _ => apply Z.eqb_neq in H
  | H : (_ <? _) = true |- _ => apply Z.ltb_lt in H
  | H : (_ <? _) = false |- _ => apply Z.ltb_ge in H
  | H : (_ <=? _) = true |- _ => apply Z.leb_le in H
  | H : (_ <=? _) = false |- _ => apply Z.leb_gt in H
  end.

(** One step of symbolic execution; a branch whose tests contradict the
    hypotheses is closed. *)
Ltac wp_step :=
  lazymatch goal with
  | |- wp (mret _) _ _ _ => apply wp_ret
  | |- wp (_ ≫= _) _ _ _ => apply wp_bind
  | |- wp (tryCatch _ _) _ _ _ => apply wp_tryCatch
  | |- wp (throw _) _ _ _ => apply wp_throw
  | |- wp getStream _ _ _ => apply wp_getStream
  | |- wp (modifyStream _) _ _ _ => apply wp_modifyStream
  | |- wp (setStatus _) _ _ _ => apply wp_modifyStream
  | |- wp getStreamState _ _ _ => apply wp_getStreamState
  | |- wp (setStreamState _ _) _ _ _ => apply wp_setStreamState
  | |- wp dateNow _ _ _ => apply wp_dateNow
  | |- wp randomBase36 _ _ _ => apply wp_randomBase36
  | |- wp (emit _) _ _ _ => apply wp_emit
  | |- wp askEnv _ _ _ => apply wp_askEnv
  | |- wp storeAnswer _ _ _ => apply wp_storeAnswer
  | |- wp (if ?b then _ else _) _ _ _ =>
      first [ match goal with E : b = _ |- _ => rewrite E end
            | let H := fresh "Hb" in
              destruct b eqn:H; bool_hyps; try (exfalso; lia) ]
  | |- wp (match ?x with _ => _ end) _ _ _ =>
      first [ match goal with E : x = _ |- _ => rewrite E end
            | let H := fresh "Hm" in destruct x eqn:H ]
  end; world_simpl.

(** ** The playlist evaluation of one poll *)

(** The entries of the ledger of a document. *)
Definition ledger (s : Stream) : list StreamError := default [] (streamErrors s).

Ltac unfold_evaluation :=
  unfold evaluatePlaylist, stalenessCheck, sequenceChecks, discontinuityCheck,
    updateHealth, addError, generateErrorId, ledger.

Ltac close_leaf :=
  world_simpl; cbn [default from_option id ledger];
  repeat match goal with
  | |- _ /\ _ => split
  | |- exists _ : StreamError, _ => eexists
  | |- _ !! _ = _ => rewrite lookup_insert_eq
  | |- _ <$> _ !! _ = _ => rewrite lookup_insert_eq
  end;
  try reflexivity; try lia.

(** The same sequence as at the last poll, seen later than the stale
    threshold allows. *)
Lemma evaluatePlaylist_stale env w now m st :
  default 0 (mf_mediaSequence m) = lastMediaSequence st ->
  staleThreshold (health (doc w)) < now - lastPollTime st ->
  wp (evaluatePlaylist now m st) env w (fun o w' =>
    o = Normal tt /\
    consecutiveStales <$> streamState w' !! stream_id (doc w)
      = Some (consecutiveStales st + 1) /\
    timeSinceLastUpdate (health (doc w')) = now - lastPollTime st /\
    isStale (health (doc w')) = true /\
    status (doc w') = stale /\
    exists e : StreamError,
      ledger (doc w') = ledger (doc w) ++ [e] /\
      errorType e = Some ErrorTypes.STALE_MANIFEST /\
      details e = Some ("Playlist stale for " +:+ pretty (now - lastPollTime st) +:+ "ms")).
Proof.
  intros Heq Hlt. unfold_evaluation. rewrite Heq.
  repeat wp_step; close_leaf.
Qed.

(** The same sequence as at the last poll, within the stale threshold. *)
Lemma evaluatePlaylist_unchanged env w now m st :
  default 0 (mf_mediaSequence m) = lastMediaSequence st ->
  now - lastPollTime st <= staleThreshold (health (doc w)) ->
  wp (evaluatePlaylist now m st) env w (fun o w' =>
    o = Normal tt /\
    consecutiveStales <$> streamState w' !! stream_id (doc w)
      = Some (consecutiveStales st + 1) /\
    timeSinceLastUpdate (health (doc w')) = now - lastPollTime st /\
    isStale (health (doc w')) = isStale (health (doc w)) /\
    status (doc w') = status (doc w) /\
    ledger (doc w') = ledger (doc w)).
Proof.
  intros Heq Hle. unfold_evaluation. rewrite Heq.
  repeat wp_step; close_leaf.
Qed.

(** A sequence other than the one of the last poll. *)
Lemma evaluatePlaylist_updated env w now m st :
  default 0 (mf_mediaSequence m) <> lastMediaSequence st ->
  wp (evaluatePlaylist now m st) env w (fun o w' =>
    o = Normal tt /\
    isStale (health (doc w')) = false /\
    lastManifestUpdate (health (doc w')) = Some (ValidDate (clock env (clockReads w))) /\
    timeSinceLastUpdate (health (doc w')) = 0 /\
    consecutiveStales <$> streamState w' !! stream_id (doc w) = Some 0 /\
    status (doc w') = online).
Proof.
  intros Hne. unfold_evaluation.
  generalize dependent (default 0 (mf_mediaSequence m)). intros seq Hne.
  repeat wp_step; close_leaf.
Qed.

(** C4.  When the fetched sequence equals the cached one, the stale count
    of the cache goes up by one and [timeSinceLastUpdate] becomes the time
    since the cached poll; if that exceeds the threshold the stream becomes
    stale with one more ledger entry of type Stale Manifest carrying the
    elapsed milliseconds, and if not, staleness, status and ledger stay as
    they were.  When the sequence differs, the stream is fresh and online,
    [lastManifestUpdate] is the time of the update, [timeSinceLastUpdate]
    and the stale count are 0. *)
Theorem evaluatePlaylist_freshness (env : Env) (w : World) (now : Z)
    (m : Manifest) (st : PollState) :
  let seq := default 0 (mf_mediaSequence m) in
  let elapsed := now - lastPollTime st in
  let w' := snd (evaluatePlaylist now m st env w) in
  let cached := streamState w' !! stream_id (doc w) in
  (seq = lastMediaSequence st ->
     consecutiveStales <$> cached = Some (consecutiveStales st + 1) /\
     timeSinceLastUpdate (health (doc w')) = elapsed /\
     (staleThreshold (health (doc w)) < elapsed ->
        isStale (health (doc w')) = true /\
        status (doc w') = stale /\
        exists e : StreamError,
          ledger (doc w') = ledger (doc w) ++ [e] /\
          errorType e = Some ErrorTypes.STALE_MANIFEST /\
          details e = Some ("Playlist stale for " +:+ pretty elapsed +:+ "ms")) /\
     (elapsed <= staleThreshold (health (doc w)) ->
        isStale (health (doc w')) = isStale (health (doc w)) /\
        status (doc w') = status (doc w) /\
        ledger (doc w') = ledger (doc w))) /\
  (seq <> lastMediaSequence st ->
     isStale (health (doc w')) = false /\
     lastManifestUpdate (health (doc w')) = Some (ValidDate (clock env (clockReads w))) /\
     timeSinceLastUpdate (health (doc w')) = 0 /\
     consecutiveStales <$> cached = Some 0 /\
     status (doc w') = online).
Proof.
  intros seq elapsed w' cached. subst seq elapsed w' cached. split.
  - intros Heq.
    destruct (Z.lt_ge_cases (staleThreshold (health (doc w))) (now - lastPollTime st))
      as [Hlt | Hge].
    + pose proof (evaluatePlaylist_stale env w now m st Heq Hlt) as H.
      unfold wp in H. destruct H as (_ & Hc & Ht & Hs & Hst & He).
      repeat split; try assumption; intros; try lia; assumption.
    + pose proof (evaluatePlaylist_unchanged env w now m st Heq Hge) as H.
      unfold wp in H. destruct H as (_ & Hc & Ht & Hs & Hst & He).
      repeat split; try assumption; intros; try lia; assumption.
  - intros Hne.
    pose proof (evaluatePlaylist_updated env w now m st Hne) as H.
    unfold wp in H. destruct H as (_ & H). exact H.
Qed.

(** The text of the two Media Sequence entries. *)
Definition jumpMessage (last seq : Z) : string :=
  "Sequence jumped from " +:+ pretty last +:+ " to " +:+ pretty seq
  +:+ " (gap: " +:+ pretty (seq - (last + 1)) +:+ ")".

Definition resetMessage (last seq : Z) : string :=
  "Sequence reset from " +:+ pretty last +:+ " to " +:+ pretty seq.

(** The poll appends exactly the entry [e] of type Media Sequence with the
    given details. *)
Definition AppendsMediaSequence (w w' : World) (text : string) : Prop :=
  exists e : StreamError,
    ledger (doc w') = ledger (doc w) ++ [e] /\
    errorType e = Some ErrorTypes.MEDIA_SEQUENCE /\
    details e = Some text.

(** A gap of three or more after the expected sequence. *)
Lemma evaluatePlaylist_jump env w now m st :
  lastMediaSequence st <> -1 ->
  3 <= default 0 (mf_mediaSequence m) - (lastMediaSequence st + 1) ->
  wp (evaluatePlaylist now m st) env w (fun o w' =>
    o = Normal tt /\
    sequenceJumps (health (doc w')) = sequenceJumps (health (doc w)) + 1 /\
    sequenceResets (health (doc w')) = sequenceResets (health (doc w)) /\
    AppendsMediaSequence w w'
      (jumpMessage (lastMediaSequence st) (default 0 (mf_mediaSequence m)))).
Proof.
  intros Hseen Hgap. unfold AppendsMediaSequence, jumpMessage. unfold_evaluation.
  generalize dependent (default 0 (mf_mediaSequence m)). intros seq Hgap.
  repeat wp_step; close_leaf.
Qed.

(** A sequence past the cached one with a gap under three. *)
Lemma evaluatePlaylist_small_gap env w now m st :
  lastMediaSequence st < default 0 (mf_mediaSequence m) ->
  default 0 (mf_mediaSequence m) - (lastMediaSequence st + 1) < 3 ->
  wp (evaluatePlaylist now m st) env w (fun o w' =>
    o = Normal tt /\
    sequenceJumps (health (doc w')) = sequenceJumps (health (doc w)) /\
    sequenceResets (health (doc w')) = sequenceResets (health (doc w)) /\
    ledger (doc w') = ledger (doc w)).
Proof.
  intros Hlt Hgap. unfold_evaluation.
  generalize dependent (default 0 (mf_mediaSequence m)). intros seq Hlt Hgap.
  repeat wp_step; close_leaf.
Qed.

(** A sequence under the cached one. *)
Lemma evaluatePlaylist_reset env w now m st :
  lastMediaSequence st <> -1 ->
  default 0 (mf_mediaSequence m) < lastMediaSequence st ->
  wp (evaluatePlaylist now m st) env w (fun o w' =>
    o = Normal tt /\
    sequenceResets (health (doc w')) = sequenceResets (health (doc w)) + 1 /\
    sequenceJumps (health (doc w')) = sequenceJumps (health (doc w)) /\
    AppendsMediaSequence w w'
      (resetMessage (lastMediaSequence st) (default 0 (mf_mediaSequence m)))).
Proof.
  intros Hseen Hlt. unfold AppendsMediaSequence, resetMessage. unfold_evaluation.
  generalize dependent (default 0 (mf_mediaSequence m)). intros seq Hlt.
  repeat wp_step; close_leaf.
Qed.

(** After the evaluation the cache holds the sequence and the poll time. *)
Lemma evaluatePlaylist_cache env w now m st :
  wp (evaluatePlaylist now m st) env w (fun o w' =>
    o = Normal tt /\
    lastMediaSequence <$> streamState w' !! stream_id (doc w)
      = Some (default 0 (mf_mediaSequence m)) /\
    lastPollTime <$> streamState w' !! stream_id (doc w) = Some now /\
    stream_id (doc w') = stream_id (doc w)).
Proof.
  unfold_evaluation.
  generalize (default 0 (mf_mediaSequence m)). intros seq.
  repeat wp_step; close_leaf.
Qed.

(** C2.  With a cached sequence [last] other than -1 and [expected = last
    + 1]: a fetched sequence [seq > expected] with [gap = seq - expected >=
    3] adds one to [sequenceJumps] and appends one Media Sequence entry
    "Sequence jumped from last to seq (gap: gap)"; a gap of 1 or 2 leaves the
    ledger and [sequenceJumps] as they were; [seq < last] adds one to
    [sequenceResets] and appends one Media Sequence entry "Sequence reset
    from last to seq". *)
Theorem evaluatePlaylist_sequence (env : Env) (w : World) (now : Z)
    (m : Manifest) (st : PollState) :
  lastMediaSequence st <> -1 ->
  let seq := default 0 (mf_mediaSequence m) in
  let last := lastMediaSequence st in
  let expected := last + 1 in
  let gap := seq - expected in
  let w' := snd (evaluatePlaylist now m st env w) in
  (expected < seq -> 3 <= gap ->
     sequenceJumps (health (doc w')) = sequenceJumps (health (doc w)) + 1 /\
     exists e : StreamError,
       ledger (doc w') = ledger (doc w) ++ [e] /\
       errorType e = Some ErrorTypes.MEDIA_SEQUENCE /\
       details e = Some ("Sequence jumped from " +:+ pretty last +:+ " to "
                         +:+ pretty seq +:+ " (gap: " +:+ pretty gap +:+ ")")) /\
  (expected < seq -> gap = 1 \/ gap = 2 ->
     ledger (doc w') = ledger (doc w) /\
     sequenceJumps (health (doc w')) = sequenceJumps (health (doc w))) /\
  (seq < last ->
     sequenceResets (health (doc w')) = sequenceResets (health (doc w)) + 1 /\
     exists e : StreamError,
       ledger (doc w') = ledger (doc w) ++ [e] /\
       errorType e = Some ErrorTypes.MEDIA_SEQUENCE /\
       details e = Some ("Sequence reset from " +:+ pretty last +:+ " to "
                         +:+ pretty seq)).
Proof.
  intros Hseen seq last expected gap w'. subst seq last expected gap w'.
  split; [| split].
  - intros _ Hgap.
    pose proof (evaluatePlaylist_jump env w now m st Hseen Hgap) as H.
    unfold wp in H. destruct H as (_ & Hj & _ & He). split; [exact Hj | exact He].
  - intros Hlt Hgap.
    pose proof (evaluatePlaylist_small_gap env w now m st ltac:(lia) ltac:(lia)) as H.
    unfold wp in H. destruct H as (_ & Hj & _ & He). split; [exact He | exact Hj].
  - intros Hlt.
    pose proof (evaluatePlaylist_reset env w now m st Hseen Hlt) as H.
    unfold wp in H. destruct H as (_ & Hr & _ & He). split; [exact Hr | exact He].
Qed.

(** ** Two successive polls *)

(** A media playlist of three segments starting at [seq]. *)
Definition mediaPlaylist (seq : Z) : Manifest :=
  mkManifest None
    (Some [mkSegment "seg-a.ts" false; mkSegment "seg-b.ts" false;
           mkSegment "seg-c.ts" false])
    (Some seq) (Some 6) None None.

(** An outside whose clock starts at [t0] and advances by one millisecond
    per read, which serves the playlist at [seq] and answers the saves with
    [rejections]. *)
Definition pollEnv (t0 seq : Z) (rejections : nat -> option JsError) : Env :=
  mkEnv (fun k => t0 + Z.of_nat k) (fun k => "r" +:+ pretty k)
    (fun _ => FetchOk (mediaPlaylist seq))
    (fun _ => FetchFailed "not a master playlist" None)
    rejections (fun _ => QueryResolved None) None.

Definition acceptAll : nat -> option JsError := fun _ => None.

(** A new stream, never polled. *)
Definition freshWorld : World :=
  mkWorld (newStream "s1" "channel one" "http://host/live/index.m3u8" 0) ∅ 0 0 0 [].

(** The world in which the next poll of the same stream starts: the
    document as it is, the cache as it is, no event yet. *)
Definition nextPoll (w : World) : World :=
  mkWorld (doc w) (streamState w) 0 0 0 [].

(** The rule of successive polls with the difference [threshold] from which
    a jump is recorded: of two successive evaluations of the same stream
    that see [s1] and then [s2 > s1], the second leaves the ledger alone
    when [s2 - s1 < threshold] and appends the jump entry for [s1] and [s2]
    otherwise.  ([s1] is a sequence number, not the cache's marker -1.)
    Successive means that the second evaluation finds the cache entry of
    the stream as the first left it; the entries of other streams may have
    changed in between. *)
Definition SuccessivePollsRule (threshold : Z) : Prop :=
  forall (env1 env2 : Env) (w1 w2 : World) (now1 now2 : Z) (m1 m2 : Manifest),
    let s1 := default 0 (mf_mediaSequence m1) in
    let s2 := default 0 (mf_mediaSequence m2) in
    let id := stream_id (doc w1) in
    let after1 :=
      snd (evaluatePlaylist now1 m1 (cachedState (streamState w1) id) env1 w1) in
    let after2 :=
      snd (evaluatePlaylist now2 m2 (cachedState (streamState w2) id) env2 w2) in
    stream_id (doc w2) = id ->
    streamState w2 !! id = streamState after1 !! id ->
    s1 <> -1 ->
    s1 < s2 ->
    (s2 - s1 < threshold /\ ledger (doc after2) = ledger (doc w2)) \/
    (threshold <= s2 - s1 /\ AppendsMediaSequence w2 after2 (jumpMessage s1 s2)).

Lemma cachedState_after_poll env w now m st :
  let after := snd (evaluatePlaylist now m st env w) in
  lastMediaSequence (cachedState (streamState after) (stream_id (doc w)))
  = default 0 (mf_mediaSequence m).
Proof.
  intros after. subst after.
  pose proof (evaluatePlaylist_cache env w now m st) as H. unfold wp in H.
  destruct H as (_ & Hseq & _). unfold cachedState.
  destruct (streamState (snd (evaluatePlaylist now m st env w)) !! stream_id (doc w));
    simpl in *; congruence.
Qed.

Lemma append_one_neq {A} (l : list A) (x : A) : l <> l ++ [x].
Proof.
  intros H. apply (f_equal (@length A)) in H. rewrite length_app in H. simpl in H. lia.
Qed.

(** C3, as stated, fails: polls that see 100 and then 103 differ by 3, and
    the second appends nothing (its gap after the expected 101 is 2). *)
Lemma successive_polls_gap3_counterexample :
  let after1 :=
    snd (evaluatePlaylist 1000 (mediaPlaylist 100) (cachedState ∅ "s1")
           (pollEnv 1000 100 acceptAll) freshWorld) in
  let after2 :=
    snd (evaluatePlaylist 8000 (mediaPlaylist 103)
           (cachedState (streamState after1) "s1")
           (pollEnv 8000 103 acceptAll) (nextPoll after1)) in
  3 <= 103 - 100 /\
  ledger (doc after2) = ledger (doc after1) /\
  ~ SuccessivePollsRule 3.
Proof.
  intros after1 after2. split; [lia |]. split; [vm_compute; reflexivity |].
  intros Hrule.
  specialize (Hrule (pollEnv 1000 100 acceptAll) (pollEnv 8000 103 acceptAll)
                freshWorld (nextPoll after1) 1000 8000
                (mediaPlaylist 100) (mediaPlaylist 103)
                eq_refl eq_refl ltac:(discriminate) ltac:(reflexivity)).
  destruct Hrule as [[Hlt _] | [_ (e & He & _)]].
  - vm_compute in Hlt. discriminate.
  - vm_compute in He. destruct (append_one_neq [] e He).
Qed.

(** C3, amended.  Of two successive evaluations of the same stream that see
    [s1] and then [s2 > s1], the second leaves the ledger alone when [s2 -
    s1 <= 3] and appends the Media Sequence entry "Sequence jumped from s1
    to s2 (gap: s2 - s1 - 1)" when [s2 - s1 >= 4]. *)
Theorem successive_polls_gap4 : SuccessivePollsRule 4.
Proof.
  intros env1 env2 w1 w2 now1 now2 m1 m2 s1 s2 id after1 after2 Hid Hcache Hs1 Hlt.
  pose proof (cachedState_after_poll env1 w1 now1 m1
                (cachedState (streamState w1) id)) as Hlast.
  cbv zeta in Hlast. fold id after1 s1 in Hlast.
  assert (Hsame : cachedState (streamState w2) id = cachedState (streamState after1) id)
    by (unfold cachedState; rewrite Hcache; reflexivity).
  rewrite <- Hsame in Hlast.
  set (st2 := cachedState (streamState w2) id) in *.
  destruct (Z.lt_ge_cases (s2 - s1) 4) as [Hsmall | Hbig].
  - left. split; [exact Hsmall |].
    pose proof (evaluatePlaylist_small_gap env2 w2 now2 m2 st2) as H.
    fold s2 in H. rewrite Hlast in H.
    specialize (H Hlt ltac:(lia)). unfold wp in H. apply H.
  - right. split; [exact Hbig |].
    pose proof (evaluatePlaylist_jump env2 w2 now2 m2 st2) as H.
    fold s2 in H. rewrite Hlast in H.
    specialize (H Hs1 ltac:(lia)). unfold wp in H. apply H.
Qed.

(** The world of the second poll of stream [s1] when another stream, [s2],
    has been polled in between: the cache holds an entry more. *)
Definition betweenPolls (w : World) : World :=
  mkWorld (doc w) (<["s2" := mkPollState 4000 7 0]> (streamState w)) 0 0 0 [].

(** The amended rule at polls that see 100 and then 105, with a poll of
    another stream between them. *)
Lemma successive_polls_gap4_witness :
  let after1 :=
    snd (evaluatePlaylist 1000 (mediaPlaylist 100) (cachedState ∅ "s1")
           (pollEnv 1000 100 acceptAll) freshWorld) in
  let after2 :=
    snd (evaluatePlaylist 8000 (mediaPlaylist 105)
           (cachedState (streamState (betweenPolls after1)) "s1")
           (pollEnv 8000 105 acceptAll) (betweenPolls after1)) in
  streamState (betweenPolls after1) <> streamState after1 /\
  AppendsMediaSequence (betweenPolls after1) after2
    "Sequence jumped from 100 to 105 (gap: 4)".
Proof.
  intros after1 after2. split.
  - intros Heq. apply (f_equal (fun cache => cache !! "s2")) in Heq.
    vm_compute in Heq. discriminate.
  - destruct (successive_polls_gap4 (pollEnv 1000 100 acceptAll) (pollEnv 8000 105 acceptAll)
                freshWorld (betweenPolls after1) 1000 8000
                (mediaPlaylist 100) (mediaPlaylist 105)
                eq_refl ltac:(vm_compute; reflexivity) ltac:(discriminate)
                ltac:(reflexivity))
      as [[Hlt _] | [_ H]].
    + vm_compute in Hlt. discriminate.
    + exact H.
Defined.

(** The statements above at the polls of the scenarios: after a first poll
    at sequence 100, a poll at 105 (a jump), and a poll at 100 again 7.1
    seconds later (stale). *)
Definition afterFirstPoll : World :=
  nextPoll (snd (evaluatePlaylist 1000 (mediaPlaylist 100) (cachedState ∅ "s1")
                   (pollEnv 1000 100 acceptAll) freshWorld)).

Lemma evaluatePlaylist_sequence_witness :
  let w' := snd (evaluatePlaylist 8000 (mediaPlaylist 105) (mkPollState 1000 100 0)
                   (pollEnv 8000 105 acceptAll) afterFirstPoll) in
  sequenceJumps (health (doc w')) = 1 /\
  exists e : StreamError,
    ledger (doc w') = [e] /\
    errorType e = Some "Media Sequence" /\
    details e = Some "Sequence jumped from 100 to 105 (gap: 4)".
Proof.
  exact (proj1 (evaluatePlaylist_sequence (pollEnv 8000 105 acceptAll) afterFirstPoll
                  8000 (mediaPlaylist 105) (mkPollState 1000 100 0)
                  ltac:(discriminate))
           ltac:(reflexivity) ltac:(discriminate)).
Defined.

Lemma evaluatePlaylist_freshness_witness :
  let w' := snd (evaluatePlaylist 8100 (mediaPlaylist 100) (mkPollState 1000 100 0)
                   (pollEnv 8100 100 acceptAll) afterFirstPoll) in
  isStale (health (doc w')) = true /\
  status (doc w') = stale /\
  exists e : StreamError,
    ledger (doc w') = [e] /\
    errorType e = Some "Stale Manifest" /\
    details e = Some "Playlist stale for 7100ms".
Proof.
  exact (proj1 (proj2 (proj2 (proj1
           (evaluatePlaylist_freshness (pollEnv 8100 100 acceptAll) afterFirstPoll
              8100 (mediaPlaylist 100) (mkPollState 1000 100 0))
           eq_refl)))
         ltac:(reflexivity)).
Defined.

(** ** A version conflict at the first save *)

(** What the evaluation leaves alone, and what it writes to the cache. *)
Lemma evaluatePlaylist_frame env w now m st :
  wp (evaluatePlaylist now m st) env w (fun o w' =>
    o = Normal tt /\
    events w' = events w /\
    saveCalls w' = saveCalls w /\
    stream_id (doc w') = stream_id (doc w) /\
    recentErrors (health (doc w')) = recentErrors (health (doc w)) /\
    recentSequenceJumps (health (doc w')) = recentSequenceJumps (health (doc w)) /\
    recentSequenceResets (health (doc w')) = recentSequenceResets (health (doc w)) /\
    lastMediaSequence <$> streamState w' !! stream_id (doc w)
      = Some (default 0 (mf_mediaSequence m)) /\
    lastPollTime <$> streamState w' !! stream_id (doc w) = Some now).
Proof.
  unfold_evaluation.
  generalize (default 0 (mf_mediaSequence m)). intros seq.
  repeat wp_step; close_leaf.
Qed.

(** The media playlist a poll evaluates and the URL it was fetched from:
    the first manifest itself, or the first variant of a master playlist. *)
Definition mediaOf (env : Env) (stream : Stream) (manifest : Manifest)
    : option (Manifest * string) :=
  match playlists manifest with
  | Some (variant :: _) =>
      let variantUrl := resolveVariantUrl (url stream) (uri variant) in
      match fetchVariant env variantUrl with
      | FetchOk media => Some (media, variantUrl)
      | FetchFailed _ _ => None
      end
  | _ => Some (manifest, url stream)
  end.

Lemma followVariant_media env w manifest media variantUrl :
  mediaOf env (doc w) manifest = Some (media, variantUrl) ->
  wp (followVariant manifest) env w (fun o w' =>
    o = Normal (Some (media, variantUrl)) /\
    events w' = events w /\ saveCalls w' = saveCalls w /\
    clockReads w' = clockReads w /\
    streamState w' = streamState w /\
    stream_id (doc w') = stream_id (doc w) /\
    health (doc w') = health (doc w)).
Proof.
  unfold mediaOf, followVariant. intros Hmedia.
  apply wp_bind, wp_getStream.
  destruct (playlists manifest) as [[| variant rest] |].
  - injection Hmedia as <- <-. apply wp_ret. auto 10.
  - cbv zeta in Hmedia.
    destruct (fetchVariant env (resolveVariantUrl (url (doc w)) (uri variant)))
      as [media' | msg st'] eqn:Hfetch; [| discriminate].
    injection Hmedia as <- <-.
    repeat wp_step; close_leaf; auto 10.
  - injection Hmedia as <- <-. apply wp_ret. auto 10.
Qed.

(** C10.  A poll that reaches the playlist evaluation and whose first save
    is rejected with a version conflict returns at once: the only events of
    the poll are the dispatch of the segment analysis and the rejected
    save (no history sample, no update event), the three recent counters of
    the document are as they were, and the cache already holds the new
    sequence and poll time. *)
Theorem checkStream_version_conflict (env : Env) (w : World)
    (manifest media : Manifest) (variantUrl : string)
    (first : Segment) (others : list Segment) (conflict : JsError) :
  fetchMaster env (url (doc w)) = FetchOk manifest ->
  mediaOf env (doc w) manifest = Some (media, variantUrl) ->
  segments media = Some (first :: others) ->
  saveRejection env (saveCalls w) = Some conflict ->
  err_name conflict = "VersionError" ->
  let w' := snd (checkStream env w) in
  let id := stream_id (doc w) in
  fst (checkStream env w) = Normal tt /\
  events w' =
    events w ++
    [ProcessSegment (resolveVariantUrl variantUrl (seg_uri (List.last others first)));
     StreamSave (Some conflict)] /\
  recentErrors (health (doc w')) = recentErrors (health (doc w)) /\
  recentSequenceJumps (health (doc w')) = recentSequenceJumps (health (doc w)) /\
  recentSequenceResets (health (doc w')) = recentSequenceResets (health (doc w)) /\
  lastMediaSequence <$> streamState w' !! id = Some (default 0 (mf_mediaSequence media)) /\
  lastPollTime <$> streamState w' !! id = Some (clock env (clockReads w)).
Proof.
  intros Hfetch Hmedia Hseg Hrej Hname w' id. subst w' id.
  change (wp checkStream env w (fun o w' =>
    o = Normal tt /\
    events w' =
      events w ++
      [ProcessSegment (resolveVariantUrl variantUrl (seg_uri (List.last others first)));
       StreamSave (Some conflict)] /\
    recentErrors (health (doc w')) = recentErrors (health (doc w)) /\
    recentSequenceJumps (health (doc w')) = recentSequenceJumps (health (doc w)) /\
    recentSequenceResets (health (doc w')) = recentSequenceResets (health (doc w)) /\
    lastMediaSequence <$> streamState w' !! stream_id (doc w)
      = Some (default 0 (mf_mediaSequence media)) /\
    lastPollTime <$> streamState w' !! stream_id (doc w)
      = Some (clock env (clockReads w)))).
  assert (Hver : String.eqb (err_name conflict) "VersionError" = true)
    by (rewrite Hname; reflexivity).
  unfold checkStream.
  do 10 wp_step.
  apply wp_bind.
  eapply wp_mono; [apply (followVariant_media _ _ manifest media variantUrl); exact Hmedia |].
  intros o w1 (-> & Hev1 & Hsc1 & Hcr1 & Hss1 & Hid1 & Hh1).
  cbn [doc streamState clockReads randomDraws saveCalls events] in Hev1, Hsc1, Hcr1, Hss1, Hid1, Hh1.
  unfold analyzeMediaPlaylist. rewrite Hseg.
  apply wp_bind.
  eapply wp_mono; [apply evaluatePlaylist_frame |].
  intros o w2 (-> & Hev2 & Hsc2 & Hid2 & Hre2 & Hrj2 & Hrr2 & Hseq2 & Hpoll2).
  assert (Hrej2 : saveRejection env (saveCalls w2) = Some conflict)
    by (rewrite Hsc2, Hsc1; exact Hrej).
  unfold saveOrReturn, save, preSave.
  repeat wp_step;
    (repeat split;
     [ rewrite <- app_assoc, Hev2, Hev1; reflexivity
     | rewrite Hre2, Hh1; reflexivity
     | rewrite Hrj2, Hh1; reflexivity
     | rewrite Hrr2, Hh1; reflexivity
     | rewrite <- Hid1; exact Hseq2
     | rewrite <- Hid1; exact Hpoll2 ]).
Qed.

(** The statement at the second poll of the scenarios, with every save
    rejected by a version conflict. *)
Definition versionConflict : JsError :=
  mkJsError "VersionError" "No matching document found".

Lemma checkStream_version_conflict_witness :
  let w' := snd (checkStream (pollEnv 8000 105 (fun _ => Some versionConflict))
                   afterFirstPoll) in
  events w' = [ProcessSegment "http://host/live/seg-c.ts";
               StreamSave (Some versionConflict)] /\
  lastMediaSequence <$> streamState w' !! "s1" = Some 105.
Proof.
  pose proof (checkStream_version_conflict
                (pollEnv 8000 105 (fun _ => Some versionConflict)) afterFirstPoll
                (mediaPlaylist 105) (mediaPlaylist 105) "http://host/live/index.m3u8"
                (mkSegment "seg-a.ts" false)
                [mkSegment "seg-b.ts" false; mkSegment "seg-c.ts" false]
                versionConflict eq_refl eq_refl eq_refl eq_refl eq_refl)
    as (_ & Hev & _ & _ & _ & Hseq & _).
  split; [exact Hev | exact Hseq].
Defined.

(** ** The scenarios of the specification, run through [checkStream] *)

(** The health scores of the history samples among the events. *)
Definition healthScoresOf (evs : list Event) : list Q :=
  flat_map (fun ev =>
              match ev with
              | MetricsHistoryCreate sample _ => [Qred (ms_healthScore sample)]
              | _ => []
              end) evs.

(** The kinds of the events, in order. *)
Definition eventKinds (evs : list Event) : list string :=
  List.map (fun ev =>
              match ev with
              | StreamSave None => "save"
              | StreamSave (Some _) => "save rejected"
              | EmitStreamUpdate _ => "stream:update"
              | ProcessSegment _ => "processSegment"
              | MetricsHistoryCreate _ _ => "history sample"
              end) evs.

(** First poll of a new stream at sequence 100. *)
Definition firstPoll : World :=
  snd (checkStream (pollEnv 1000 100 acceptAll) freshWorld).

(** The poll that follows it, seven seconds later, at sequence [seq]. *)
Definition secondPoll (seq : Z) : World :=
  snd (checkStream (pollEnv 8000 seq acceptAll) (nextPoll firstPoll)).

Example scenario_fresh_online :
  status (doc firstPoll) = online /\
  mediaSequence (health (doc firstPoll)) = 100 /\
  previousMediaSequence (health (doc firstPoll)) = -1 /\
  ledger (doc firstPoll) = [] /\
  recentErrors (health (doc firstPoll)) = 0 /\
  healthScoresOf (events firstPoll) = [100%Q] /\
  eventKinds (events firstPoll) =
    ["processSegment"; "save"; "history sample"; "save"; "stream:update"].
Proof. vm_compute. repeat split; reflexivity. Qed.

Example scenario_normal_advance :
  ledger (doc (secondPoll 101)) = [] /\
  sequenceJumps (health (doc (secondPoll 101))) = 0 /\
  status (doc (secondPoll 101)) = online.
Proof. vm_compute. repeat split; reflexivity. Qed.

Example scenario_silent_gap :
  ledger (doc (secondPoll 102)) = [] /\
  sequenceJumps (health (doc (secondPoll 102))) = 0.
Proof. vm_compute. repeat split; reflexivity. Qed.

Example scenario_significant_jump :
  List.map details (ledger (doc (secondPoll 105)))
    = [Some "Sequence jumped from 100 to 105 (gap: 4)"] /\
  List.map errorType (ledger (doc (secondPoll 105))) = [Some "Media Sequence"] /\
  sequenceJumps (health (doc (secondPoll 105))) = 1.
Proof. vm_compute. repeat split; reflexivity. Qed.

Example scenario_reset :
  List.map details (ledger (doc (secondPoll 50)))
    = [Some "Sequence reset from 100 to 50"] /\
  sequenceResets (health (doc (secondPoll 50))) = 1.
Proof. vm_compute. repeat split; reflexivity. Qed.

Example scenario_stale :
  let w := snd (checkStream (pollEnv 8100 100 acceptAll) (nextPoll firstPoll)) in
  isStale (health (doc w)) = true /\
  status (doc w) = stale /\
  List.map details (ledger (doc w)) = [Some "Playlist stale for 7100ms"].
Proof. vm_compute. repeat split; reflexivity. Qed.

Example scenario_decay :
  getErrorDecayFactor (100 * HOUR_MS) (Some (ValidDate (52 * HOUR_MS))) = (3 # 4)%Q /\
  Qred (calculateHealthScore quietStream (Some (mkRecentIssues 2 1 3)) (3 # 4))
  = (187 # 2)%Q.
Proof. vm_compute. repeat split; reflexivity. Qed.

(* ================================================================== *)
(** * Part III: further properties of the code                         *)
(* ================================================================== *)

(** ** The age-out hook *)

Definition SEVEN_DAYS_MS : Z := 7 * 24 * 60 * 60 * 1000.
Definition WINDOW_MS : Z := 12 * 60 * 1000.

(** The entry has a valid date later than [limit]. *)
Definition DatedAfter (limit : Z) (e : StreamError) : Prop :=
  exists t : Z, date e = Some (ValidDate t) /\ limit < t.

Lemma keepRecent_spec (limit : Z) (e : StreamError) :
  keepRecent limit e = true <-> DatedAfter limit e.
Proof.
  unfold keepRecent, DatedAfter. destruct (date e) as [[t |] |]; simpl.
  - rewrite Z.ltb_lt. split; [intros H; exists t; auto | intros [t' [[= <-] H]]; exact H].
  - split; [discriminate | intros [t [H _]]; discriminate].
  - split; [discriminate | intros [t [H _]]; discriminate].
Qed.

#[global] Instance DatedAfter_dec (limit : Z) (e : StreamError) :
  Decision (DatedAfter limit e).
Proof.
  refine (cast_if (decide (keepRecent limit e = true)));
    rewrite <- keepRecent_spec; assumption.
Defined.

(** What the hook does to the world. *)
Lemma preSave_run env w :
  wp preSave env w (fun o w' =>
    o = Normal tt /\
    ledger (doc w') =
      List.filter (keepRecent (clock env (clockReads w) - SEVEN_DAYS_MS)) (ledger (doc w)) /\
    health (doc w') = health (doc w) /\
    status (doc w') = status (doc w) /\
    stats (doc w') = stats (doc w) /\
    stream_id (doc w') = stream_id (doc w) /\
    url (doc w') = url (doc w) /\
    streamState w' = streamState w /\
    events w' = events w /\
    saveCalls w' = saveCalls w /\
    (clockReads w <= clockReads w')%nat).
Proof.
  unfold preSave, ledger, SEVEN_DAYS_MS.
  apply wp_bind, wp_getStream.
  destruct (streamErrors (doc w)) as [errs |] eqn:Herrs.
  - destruct errs as [| e errs].
    + cbn [length Nat.ltb Nat.leb]. apply wp_ret. rewrite Herrs. repeat split; auto.
    + change ((0 <? length (e :: errs))%nat) with true. cbv iota.
      repeat wp_step. cbn [default from_option id]. repeat split; auto.
  - apply wp_ret. rewrite Herrs. repeat split; auto.
Qed.

(** X1.  After the hook every entry of the ledger has a valid date within the
    last seven days (by the hook's clock), the entries that had one are all
    kept, in their order, and the hook does not throw. *)
Theorem preSave_ages_out (env : Env) (w : World) :
  let limit := clock env (clockReads w) - SEVEN_DAYS_MS in
  let w' := snd (preSave env w) in
  fst (preSave env w) = Normal tt /\
  Forall (DatedAfter limit) (ledger (doc w')) /\
  ledger (doc w') = filter (DatedAfter limit) (ledger (doc w)) /\
  (Forall (DatedAfter limit) (ledger (doc w)) -> ledger (doc w') = ledger (doc w)).
Proof.
  intros limit w'. subst limit w'.
  pose proof (preSave_run env w) as H. unfold wp in H.
  destruct H as (Ho & Hl & _). split; [exact Ho |].
  rewrite Hl. clear Ho Hl.
  set (limit := clock env (clockReads w) - SEVEN_DAYS_MS).
  generalize (ledger (doc w)). intros l.
  split; [| split].
  - apply List.Forall_forall. intros e He. apply filter_In in He.
    apply keepRecent_spec, He.
  - induction l as [| e l IH]; [reflexivity |].
    cbn [List.filter]. rewrite filter_cons.
    destruct (keepRecent limit e) eqn:Hk.
    + apply keepRecent_spec in Hk. destruct (decide (DatedAfter limit e)); [| contradiction].
      now rewrite IH.
    + destruct (decide (DatedAfter limit e)) as [Hd | _]; [| exact IH].
      apply keepRecent_spec in Hd. congruence.
  - intros Hall. induction Hall as [| e l He _ IH]; [reflexivity |].
    cbn [List.filter]. apply keepRecent_spec in He. rewrite He, IH. reflexivity.
Qed.

(** ** The window and the age-out *)

Lemma filter_filter_implied {A} (f g : A -> bool) (l : list A) :
  (forall x, f x = true -> g x = true) ->
  List.filter f (List.filter g l) = List.filter f l.
Proof.
  intros H. induction l as [| x l IH]; [reflexivity |].
  cbn [List.filter]. destruct (g x) eqn:Hg.
  - cbn [List.filter]. now rewrite IH.
  - rewrite IH. destruct (f x) eqn:Hf; [| reflexivity].
    apply H in Hf. congruence.
Qed.

(** X2.  The window of the last 12 minutes lies within the seven days the hook
    keeps: as long as the hook's clock is less than seven days minus 12
    minutes ahead of the reader's, the counts read from the ledger are the
    same before and after the hook. *)
Theorem window_survives_age_out (env : Env) (w : World) (readNow : Z)
    (id : option string) :
  clock env (clockReads w) - SEVEN_DAYS_MS < readNow - WINDOW_MS ->
  let read (errs : list StreamError) :=
    calculateSlidingWindowMetrics readNow
      (QueryResolved (Some (mkLeanStream (Some errs)))) id in
  read (ledger (doc (snd (preSave env w)))) = read (ledger (doc w)).
Proof.
  intros Hclock read. subst read. cbv beta.
  pose proof (preSave_run env w) as H. unfold wp in H.
  destruct H as (_ & Hl & _). rewrite Hl.
  unfold calculateSlidingWindowMetrics. cbn [lean_streamErrors].
  destruct (negb (truthy_string id)); [reflexivity |].
  rewrite filter_filter_implied; [reflexivity |].
  intros e. unfold inWindowStart, keepRecent, WINDOW_MS, SEVEN_DAYS_MS in *.
  destruct (date e) as [[t |] |]; simpl; try discriminate.
  rewrite Z.leb_le, Z.ltb_lt. lia.
Qed.

Lemma window_survives_age_out_witness :
  let env := pollEnv 1000000000 100 acceptAll in
  let w := mkWorld (set_streamErrors (Some sampleLedger) quietStream) ∅ 0 0 0 [] in
  calculateSlidingWindowMetrics 1000000000
    (QueryResolved (Some (mkLeanStream (Some (ledger (doc (snd (preSave env w))))))))
    (Some "s1")
  = mkRecentIssues 1 1 2.
Proof.
  intros env w.
  rewrite (window_survives_age_out env w 1000000000 (Some "s1") ltac:(vm_compute; reflexivity)).
  vm_compute. reflexivity.
Defined.

(** ** The counts of the window *)

Lemma length_filter_le {A} (P : A -> Prop) `{!forall x, Decision (P x)} (l : list A) :
  (length (filter P l) <= length l)%nat.
Proof.
  induction l as [| x l IH]; [reflexivity |].
  rewrite filter_cons. destruct (decide (P x)); simpl; lia.
Qed.

Lemma window_counts (now : Z) (lookup : QueryResult) (id : option string) :
  0 <= jumps (calculateSlidingWindowMetrics now lookup id)
    <= errors (calculateSlidingWindowMetrics now lookup id) /\
  0 <= resets (calculateSlidingWindowMetrics now lookup id)
    <= errors (calculateSlidingWindowMetrics now lookup id).
Proof.
  unfold calculateSlidingWindowMetrics.
  destruct (negb (truthy_string id)); [simpl; lia |].
  destruct lookup as [msg | [[[errs |]] |]]; try (simpl; lia).
  cbn [lean_streamErrors]. rewrite fold_countIssue. cbn [jumps resets errors].
  set (l := List.filter _ errs).
  pose proof (length_filter_le IsJump l). pose proof (length_filter_le IsReset l). lia.
Qed.

(** X3.  Whatever the query returns, the three counts are not negative, and
    neither [jumps] nor [resets] exceeds [errors]. *)
Theorem calculateSlidingWindowMetrics_bounds (now : Z) (lookup : QueryResult)
    (id : option string) :
  let r := calculateSlidingWindowMetrics now lookup id in
  0 <= jumps r <= errors r /\ 0 <= resets r <= errors r.
Proof. intros r. subst r. apply window_counts. Qed.

(** ** Decay and score *)

Lemma Qle_const (a b : Q) : Qle_bool a b = true -> (a <= b)%Q.
Proof. apply Qle_bool_imp_le. Qed.

(** The decay factor lies between 0 and 1. *)
Lemma getErrorDecayFactor_range (dateNow : Z) (lastErrorTime : option JsDate) :
  (0 <= getErrorDecayFactor dateNow lastErrorTime <= 1)%Q.
Proof.
  destruct lastErrorTime as [[t |] |]; try (split; apply Qle_const; reflexivity).
  rewrite getErrorDecayFactor_valid. cbv zeta.
  repeat match goal with
  | |- context [?a <? ?b] => destruct (a <? b)
  end; split; apply Qle_const; reflexivity.
Qed.

(** X4.  The older the last error, the larger the decay factor: the factor
    never decreases as the time since the last error grows (and a date in
    the future gets the smallest factor, 0). *)
Theorem getErrorDecayFactor_monotone (dateNow earlier later : Z) :
  earlier <= later ->
  (getErrorDecayFactor dateNow (Some (ValidDate later))
   <= getErrorDecayFactor dateNow (Some (ValidDate earlier)))%Q.
Proof.
  intros Hle. rewrite !getErrorDecayFactor_valid. cbv zeta. unfold HOUR_MS.
  repeat match goal with
  | |- context [?a <? ?b] => destruct (Z.ltb_spec a b)
  end; try lia; apply Qle_const; reflexivity.
Qed.

Lemma getErrorDecayFactor_monotone_witness :
  (getErrorDecayFactor (100 * HOUR_MS) (Some (ValidDate (98 * HOUR_MS)))
   <= getErrorDecayFactor (100 * HOUR_MS) (Some (ValidDate (10 * HOUR_MS))))%Q.
Proof.
  apply (getErrorDecayFactor_monotone (100 * HOUR_MS) (10 * HOUR_MS) (98 * HOUR_MS)).
  vm_compute. discriminate.
Defined.

Lemma calculateHealthScore_recent (stream : Stream) (r : RecentIssues) (d : Q) :
  (calculateHealthScore stream (Some r) d ==
   clampScore (100 - immediatePenalty stream
               - cappedPenalty (jumps r) (resets r) (errors r) * (1 - d)))%Q.
Proof.
  unfold calculateHealthScore. cbv zeta.
  apply clampScore_compat. rewrite immediate_steps.
  unfold cappedPenalty. rewrite !inject_Z_mult.
  change (inject_Z 5) with 5%Q. change (inject_Z 10) with 10%Q.
  change (inject_Z 2) with 2%Q. ring.
Qed.

Lemma clampScore_monotone (x y : Q) : (x <= y)%Q -> (clampScore x <= clampScore y)%Q.
Proof.
  intros H. unfold clampScore.
  apply Q.max_le_compat_l, Q.min_le_compat_l, H.
Qed.

Lemma cappedPenalty_nonneg (j r e : Z) :
  0 <= j -> 0 <= r -> 0 <= e -> (0 <= cappedPenalty j r e)%Q.
Proof.
  intros Hj Hr He. unfold cappedPenalty.
  assert (H : forall n k cap : Z, 0 <= n -> 0 <= k -> 0 <= cap ->
                (0 <= Qmin (inject_Z n * inject_Z k) (inject_Z cap))%Q).
  { intros n k cap Hn Hk Hcap. apply Q.min_glb.
    - rewrite <- inject_Z_mult. change 0%Q with (inject_Z 0). rewrite <- Zle_Qle. nia.
    - change 0%Q with (inject_Z 0). rewrite <- Zle_Qle. exact Hcap. }
  pose proof (H j 5 20 Hj ltac:(lia) ltac:(lia)) as H1.
  pose proof (H r 10 30 Hr ltac:(lia) ltac:(lia)) as H2.
  pose proof (H e 2 20 He ltac:(lia) ltac:(lia)) as H3.
  change (inject_Z 5) with 5%Q in H1. change (inject_Z 20) with 20%Q in H1, H3.
  change (inject_Z 10) with 10%Q in H2. change (inject_Z 30) with 30%Q in H2.
  change (inject_Z 2) with 2%Q in H3.
  lra.
Qed.

(** X5.  With the counts of the window, a larger decay factor never gives a
    lower health score, and the factor 1 leaves only the status penalties:
    the recent issues are forgiven in full. *)
Theorem calculateHealthScore_forgiveness (stream : Stream) (now : Z)
    (lookup : QueryResult) (id : option string) (d d' : Q) :
  (d <= d')%Q ->
  let recent := calculateSlidingWindowMetrics now lookup id in
  (calculateHealthScore stream (Some recent) d
   <= calculateHealthScore stream (Some recent) d')%Q /\
  (calculateHealthScore stream (Some recent) 1
   == clampScore (100 - immediatePenalty stream))%Q.
Proof.
  intros Hd recent.
  pose proof (window_counts now lookup id) as Hb. fold recent in Hb.
  assert (Hp : (0 <= cappedPenalty (jumps recent) (resets recent) (errors recent))%Q)
    by (apply cappedPenalty_nonneg; lia).
  split.
  - rewrite !calculateHealthScore_recent. apply clampScore_monotone.
    set (P := cappedPenalty _ _ _) in *.
    assert (H : (0 <= P * (d' - d))%Q) by (apply Qmult_le_0_compat; lra).
    nra.
  - rewrite calculateHealthScore_recent. apply clampScore_compat. ring.
Qed.

Lemma calculateHealthScore_forgiveness_witness :
  let recent :=
    calculateSlidingWindowMetrics 1000000000
      (QueryResolved (Some (mkLeanStream (Some sampleLedger)))) (Some "s1") in
  (calculateHealthScore quietStream (Some recent) (1 # 4)
   <= calculateHealthScore quietStream (Some recent) (3 # 4))%Q.
Proof.
  intros recent.
  apply (calculateHealthScore_forgiveness quietStream 1000000000
           (QueryResolved (Some (mkLeanStream (Some sampleLedger)))) (Some "s1")
           (1 # 4) (3 # 4)).
  vm_compute. discriminate.
Defined.

(** ** Video score *)

(** X6.  The video score is 50 exactly when the stream has no video block;
    with one it is 100, less 20 without a codec and less 10 for a known
    width under 720, so one of 100, 90, 80 and 70: a width of 1920 or more
    earns nothing, and the clamp never applies. *)
Theorem calculateVideoScore_values (stream : Stream) :
  (calculateVideoScore stream = 50 <-> video (stats stream) = None) /\
  (forall v : VideoStats,
      video (stats stream) = Some v ->
      calculateVideoScore stream =
      100 - (if truthy_string (v_codec v) then 0 else 20)
          - (match v_width v with
             | Some width => if negb (width =? 0) && (width <? 720) then 10 else 0
             | None => 0
             end)) /\
  0 <= calculateVideoScore stream <= 100.
Proof.
  unfold calculateVideoScore.
  destruct (video (stats stream)) as [v |].
  - assert (Hv : forall b1 b2 b3 : bool,
               Z.max 0 (Z.min 100
                 (if b3 then (if b2 then (if b1 then 100 - 20 else 100) - 10
                              else (if b1 then 100 - 20 else 100)) + 0
                  else (if b2 then (if b1 then 100 - 20 else 100) - 10
                        else (if b1 then 100 - 20 else 100)))) =
               100 - (if negb b1 then 0 else 20) - (if b2 then 10 else 0))
      by (intros [] [] []; reflexivity).
    rewrite Hv.
    split; [| split].
    + split; [| discriminate].
      destruct (negb (negb (truthy_string (v_codec v)))),
        (truthy_Z (v_width v) && (default 0 (v_width v) <? 720)); discriminate.
    + intros v' [= <-]. rewrite negb_involutive.
      destruct (v_width v) as [width |]; reflexivity.
    + destruct (negb (negb (truthy_string (v_codec v)))),
        (truthy_Z (v_width v) && (default 0 (v_width v) <? 720)); lia.
  - split; [split; reflexivity |]. split; [discriminate | lia].
Qed.

(** ** What a poll never undoes *)

(** From [w] to [w']: the document is the same stream, its error and
    sequence counters have not decreased, the number of errors counted but
    no longer in the ledger has not decreased, the cache entries of the
    other streams are the same, and the events of [w] are the first events
    of [w']. *)
Definition Progress (w w' : World) : Prop :=
  stream_id (doc w') = stream_id (doc w) /\
  url (doc w') = url (doc w) /\
  totalErrors (health (doc w)) <= totalErrors (health (doc w')) /\
  sequenceJumps (health (doc w)) <= sequenceJumps (health (doc w')) /\
  sequenceResets (health (doc w)) <= sequenceResets (health (doc w')) /\
  totalErrors (health (doc w)) - Z.of_nat (length (ledger (doc w)))
    <= totalErrors (health (doc w')) - Z.of_nat (length (ledger (doc w'))) /\
  (forall other : string,
      other <> stream_id (doc w) -> streamState w' !! other = streamState w !! other) /\
  (exists more : list Event, events w' = events w ++ more).

Lemma Progress_refl (w : World) : Progress w w.
Proof.
  unfold Progress. repeat split; try lia; try reflexivity.
  exists []. now rewrite app_nil_r.
Qed.

Lemma Progress_trans (w1 w2 w3 : World) :
  Progress w1 w2 -> Progress w2 w3 -> Progress w1 w3.
Proof.
  intros (Hi & Hu & Ht & Hj & Hr & Hs & Hc & [m1 He])
         (Hi' & Hu' & Ht' & Hj' & Hr' & Hs' & Hc' & [m2 He']).
  unfold Progress. repeat split; try lia; try congruence.
  - intros other Hne. rewrite Hc' by congruence. now apply Hc.
  - exists (m1 ++ m2). now rewrite He', He, app_assoc.
Qed.

(** The same facts about a change of the document alone. *)
Definition DocProgress (s s' : Stream) : Prop :=
  stream_id s' = stream_id s /\
  url s' = url s /\
  totalErrors (health s) <= totalErrors (health s') /\
  sequenceJumps (health s) <= sequenceJumps (health s') /\
  sequenceResets (health s) <= sequenceResets (health s') /\
  totalErrors (health s) - Z.of_nat (length (ledger s))
    <= totalErrors (health s') - Z.of_nat (length (ledger s')).

(** Every run of [m] makes progress, whatever its outcome. *)
Definition progresses {A : Type} (m : M A) : Prop :=
  forall env w, Progress w (snd (m env w)).

Lemma progresses_bind {A B} (m : M A) (f : A -> M B) :
  progresses m -> (forall a, progresses (f a)) -> progresses (m ≫= f).
Proof.
  intros Hm Hf env w. specialize (Hm env w).
  unfold mbind, M_bind. destruct (m env w) as [[a | e] w1]; simpl in *.
  - eapply Progress_trans; [exact Hm | apply Hf].
  - exact Hm.
Qed.

Lemma progresses_tryCatch {A} (body : M A) (handler : JsError -> M A) :
  progresses body -> (forall e, progresses (handler e)) ->
  progresses (tryCatch body handler).
Proof.
  intros Hb Hh env w. specialize (Hb env w).
  unfold tryCatch. destruct (body env w) as [[a | e] w1]; simpl in *.
  - exact Hb.
  - eapply Progress_trans; [exact Hb | apply Hh].
Qed.

Lemma progresses_wp {A} (m : M A) :
  (forall env w, wp m env w (fun _ w' => Progress w w')) -> progresses m.
Proof. exact (fun H => H). Qed.

Lemma progresses_modifyStream (f : Stream -> Stream) :
  (forall s, DocProgress s (f s)) -> progresses (modifyStream f).
Proof.
  intros Hf env w. destruct (Hf (doc w)) as (Hi & Hu & Ht & Hj & Hr & Hs).
  unfold Progress. simpl. repeat split; try assumption.
  exists []. now rewrite app_nil_r.
Qed.

Lemma progresses_emit (e : Event) : progresses (emit e).
Proof.
  intros env w. unfold Progress. simpl. repeat split; try lia. exists [e]. reflexivity.
Qed.

(** A leaf of a symbolic run: the final world against the first. *)
Ltac progress_leaf :=
  unfold Progress, DocProgress, ledger; world_simpl; cbn [default from_option id];
  rewrite ?length_app; cbn [length];
  repeat split; try lia; try reflexivity;
  try (intros other Hne; rewrite ?lookup_insert_ne by congruence; reflexivity);
  try (exists []; now rewrite app_nil_r).

Lemma progresses_unchanged {A} (m : M A) :
  (forall env w, doc (snd (m env w)) = doc w /\
                 streamState (snd (m env w)) = streamState w /\
                 events (snd (m env w)) = events w) ->
  progresses m.
Proof.
  intros H env w. destruct (H env w) as (Hd & Hs & He).
  unfold Progress. rewrite Hd, Hs, He. apply Progress_refl.
Qed.

Lemma progresses_ret {A} (a : A) : progresses (mret a : M A).
Proof. apply progresses_unchanged. intros; repeat split. Qed.

Lemma progresses_throw {A} (e : JsError) : progresses (throw e : M A).
Proof. apply progresses_unchanged. intros; repeat split. Qed.

Lemma progresses_getStream : progresses getStream.
Proof. apply progresses_unchanged. intros; repeat split. Qed.

Lemma progresses_getStreamState : progresses getStreamState.
Proof. apply progresses_unchanged. intros; repeat split. Qed.

Lemma progresses_askEnv : progresses askEnv.
Proof. apply progresses_unchanged. intros; repeat split. Qed.

Lemma progresses_dateNow : progresses dateNow.
Proof. apply progresses_unchanged. intros; repeat split. Qed.

Lemma progresses_randomBase36 : progresses randomBase36.
Proof. apply progresses_unchanged. intros; repeat split. Qed.

Lemma progresses_storeAnswer : progresses storeAnswer.
Proof. apply progresses_unchanged. intros; repeat split. Qed.

Lemma progresses_addError ty text media code : progresses (addError ty text media code).
Proof.
  apply progresses_wp. intros env w. unfold addError, generateErrorId.
  repeat wp_step. progress_leaf.
Qed.

Lemma filter_length_le {A} (f : A -> bool) (l : list A) :
  (length (List.filter f l) <= length l)%nat.
Proof. induction l as [| x l IH]; simpl; [lia |]. destruct (f x); simpl; lia. Qed.

Lemma progresses_preSave : progresses preSave.
Proof.
  intros env w. pose proof (preSave_run env w) as H. unfold wp in H.
  destruct H as (_ & Hl & Hh & _ & _ & Hi & Hu & Hc & He & _).
  unfold Progress. rewrite Hl, Hh, Hi, Hu, Hc, He.
  pose proof (filter_length_le
                (keepRecent (clock env (clockReads w) - SEVEN_DAYS_MS)) (ledger (doc w))).
  repeat split; try lia. exists []. now rewrite app_nil_r.
Qed.

Lemma progresses_updateHealth now seq count duration manifest state :
  progresses (updateHealth now seq count duration manifest state).
Proof.
  apply progresses_wp. intros env w. unfold updateHealth.
  repeat wp_step; progress_leaf.
Qed.

Create HintDb progress discriminated.
#[global] Hint Resolve progresses_ret progresses_throw progresses_getStream
  progresses_getStreamState progresses_askEnv progresses_dateNow
  progresses_randomBase36 progresses_storeAnswer progresses_emit
  progresses_addError progresses_preSave progresses_updateHealth : progress.

(** A change of the document that touches none of the counted fields. *)
Ltac doc_progress :=
  let s := fresh "s" in
  intros s; unfold DocProgress, ledger; world_simpl; cbn [default from_option id];
  repeat split; lia.

(** Decompose a computation into the blocks known to make progress. *)
Ltac prog :=
  cbv zeta;
  lazymatch goal with
  | |- progresses (_ ≫= _) => apply progresses_bind; [prog | intros; prog]
  | |- progresses (tryCatch _ _) => apply progresses_tryCatch; [prog | intros; prog]
  | |- progresses (modifyStream _) => apply progresses_modifyStream; doc_progress
  | |- progresses (setStatus _) => apply progresses_modifyStream; doc_progress
  | |- progresses (if ?b then _ else _) => destruct b; prog
  | |- progresses (match ?x with _ => _ end) => destruct x; prog
  | |- progresses (let '(_, _) := ?x in _) => destruct x; prog
  | |- _ => solve [auto with progress]
  end.

Lemma progresses_save : progresses save.
Proof. unfold save. prog. Qed.

Lemma progresses_evaluatePlaylist now manifest state :
  progresses (evaluatePlaylist now manifest state).
Proof. unfold evaluatePlaylist, stalenessCheck, sequenceChecks, discontinuityCheck. prog. Qed.

#[global] Hint Resolve progresses_save progresses_evaluatePlaylist : progress.

Lemma progresses_checkStream : progresses checkStream.
Proof.
  unfold checkStream, followVariant, analyzeMediaPlaylist, fatalHandler,
    saveAndPublish, saveOrReturn, scoreAndPublish, recentIssuesOf, decayFactorOf.
  prog.
Qed.

(** X7.  Across a poll, whatever the outside answers: the error counter and the
    two sequence counters of the document never decrease; if the counter
    covered the ledger before, it covers it after ([totalErrors >= size of
    streamErrors]); the cache entries of all other streams are untouched;
    and the events emitted before are kept, in order. *)
Theorem checkStream_progress (env : Env) (w : World) :
  let w' := snd (checkStream env w) in
  totalErrors (health (doc w)) <= totalErrors (health (doc w')) /\
  sequenceJumps (health (doc w)) <= sequenceJumps (health (doc w')) /\
  sequenceResets (health (doc w)) <= sequenceResets (health (doc w')) /\
  (Z.of_nat (length (ledger (doc w))) <= totalErrors (health (doc w)) ->
   Z.of_nat (length (ledger (doc w'))) <= totalErrors (health (doc w'))) /\
  (forall other : string,
      other <> stream_id (doc w) -> streamState w' !! other = streamState w !! other) /\
  stream_id (doc w') = stream_id (doc w) /\
  exists more : list Event, events w' = events w ++ more.
Proof.
  intros w'. subst w'.
  destruct (progresses_checkStream env w) as (Hi & _ & Ht & Hj & Hr & Hs & Hc & He).
  repeat split; try assumption. lia.
Qed.

Lemma checkStream_progress_witness :
  Z.of_nat (length (ledger (doc (secondPoll 105))))
  <= totalErrors (health (doc (secondPoll 105))).
Proof.
  apply (proj1 (proj2 (proj2 (proj2
           (checkStream_progress (pollEnv 8000 105 acceptAll) (nextPoll firstPoll)))))).
  vm_compute. discriminate.
Defined.

(** ** What a poll never throws *)

(** Every run of [m] returns. *)
Definition returns {A : Type} (m : M A) : Prop :=
  forall env w, exists a, fst (m env w) = Normal a.

Lemma returns_bind {A B} (m : M A) (f : A -> M B) :
  returns m -> (forall a, returns (f a)) -> returns (m ≫= f).
Proof.
  intros Hm Hf env w. destruct (Hm env w) as [a Ha].
  unfold mbind, M_bind. destruct (m env w) as [[a' | e] w1]; simpl in *; [| discriminate].
  apply Hf.
Qed.

(** A [try] whose handler returns, returns: the body may throw. *)
Lemma returns_tryCatch {A} (body : M A) (handler : JsError -> M A) :
  (forall e, returns (handler e)) -> returns (tryCatch body handler).
Proof.
  intros Hh env w. unfold tryCatch.
  destruct (body env w) as [[a | e] w1]; simpl; [eauto | apply Hh].
Qed.

Lemma returns_now {A} (m : M A) :
  (forall env w, exists a, fst (m env w) = Normal a) -> returns m.
Proof. exact (fun H => H). Qed.

Ltac ret_prim := apply returns_now; intros; eexists; reflexivity.

Ltac rets :=
  cbv zeta;
  lazymatch goal with
  | |- returns (_ ≫= _) => apply returns_bind; [rets | intros; rets]
  | |- returns (tryCatch _ _) => apply returns_tryCatch; intros; rets
  | |- returns (if ?b then _ else _) => destruct b; rets
  | |- returns (match ?x with _ => _ end) => destruct x; rets
  | |- _ => first [ret_prim | solve [auto with progress]]
  end.

Lemma returns_addError ty text media code : returns (addError ty text media code).
Proof. unfold addError, generateErrorId. rets. Qed.

#[global] Hint Resolve returns_addError : progress.

Lemma returns_fatalHandler (err : JsError) : returns (fatalHandler err).
Proof. unfold fatalHandler, setStatus. rets. Qed.

Lemma returns_checkStream : returns checkStream.
Proof.
  unfold checkStream. apply returns_bind; [ret_prim | intros now].
  apply returns_bind; [ret_prim | intros stream].
  apply returns_bind; [ret_prim | intros cache].
  cbv zeta. apply returns_tryCatch, returns_fatalHandler.
Qed.

(** X8.  [checkStream] never throws: whatever fails inside, a fetch, a save,
    the history insert or the window's query, the call returns. *)
Theorem checkStream_never_throws (env : Env) (w : World) :
  fst (checkStream env w) = Normal tt.
Proof. destruct (returns_checkStream env w) as [[] Ha]. exact Ha. Qed.

(** ** The scheduler *)

(** X10.  At any time exactly one of the two is there: a sweep that has not
    finished, or a timer that has not fired; the flag says which.  So two
    sweeps never overlap, the guard of [runMonitor] never has to turn a
    call away, and the loop never stops. *)
Theorem scheduler_single_sweep (s : Scheduler) :
  SchedulerReachable s ->
  (sweeps s <= 1)%nat /\
  (sweeps s + timers s = 1)%nat /\
  isRunning s = (sweeps s =? 1)%nat /\
  (forall s', SchedulerStep s s' -> (sweeps s' + timers s' = 1)%nat) /\
  exists s', SchedulerStep s s'.
Proof.
  intros Hreach.
  assert (Hinv : (sweeps s + timers s = 1)%nat /\ isRunning s = (sweeps s =? 1)%nat).
  { induction Hreach as [| s s' _ [Hsum Hflag] Hstep]; [split; reflexivity |].
    destruct Hstep as [s Hpos | s Hpos].
    - unfold sweepSettles. simpl. split; [lia |].
      destruct (sweeps s) as [| [| n]]; simpl in *; try lia; reflexivity.
    - unfold timerFires, runMonitor. simpl. rewrite Hflag.
      destruct (sweeps s) as [| n]; simpl in *; [| lia].
      split; [lia | reflexivity]. }
  destruct Hinv as [Hsum Hflag].
  split; [lia |]. split; [exact Hsum |]. split; [exact Hflag |]. split.
  - intros s' Hstep. destruct Hstep as [s Hpos | s Hpos].
    + unfold sweepSettles. simpl. lia.
    + unfold timerFires, runMonitor. simpl. rewrite Hflag.
      destruct (sweeps s) as [| n]; simpl in *; lia.
  - destruct (sweeps s) as [| n] eqn:Hs.
    + exists (timerFires s). apply step_timerFires. lia.
    + exists (sweepSettles s). apply step_sweepSettles. lia.
Qed.

Lemma scheduler_single_sweep_witness :
  (sweeps (timerFires (sweepSettles schedulerStarted)) <= 1)%nat.
Proof.
  apply (scheduler_single_sweep (timerFires (sweepSettles schedulerStarted))).
  eapply sched_step; [eapply sched_step; [apply sched_init |] |].
  - apply step_sweepSettles. simpl. lia.
  - apply step_timerFires. simpl. lia.
Defined.

(** ** A poll that fails before the evaluation *)

(** Why a poll fails before the evaluation, with the type, details, media
    type and code of the ledger entry it writes: the first fetch fails; the
    first variant of a master playlist cannot be fetched; or the media
    playlist has no segments. *)
Inductive PollFailure (env : Env) (s : Stream)
    : string -> string -> string -> option Z -> Prop :=
  | master_unreachable (message : string) (response_status : option Z) :
      fetchMaster env (url s) = FetchFailed message response_status ->
      PollFailure env s ErrorTypes.MANIFEST_RETRIEVAL
        ("Failed to fetch manifest: " +:+ message) "MASTER" response_status
  | variant_unreachable (manifest : Manifest) (variant : Variant)
      (others : list Variant) (message : string) (response_status : option Z) :
      fetchMaster env (url s) = FetchOk manifest ->
      playlists manifest = Some (variant :: others) ->
      fetchVariant env (resolveVariantUrl (url s) (uri variant))
        = FetchFailed message response_status ->
      PollFailure env s ErrorTypes.MANIFEST_RETRIEVAL
        ("Failed to fetch variant: " +:+ message) "VIDEO" response_status
  | playlist_empty (manifest media : Manifest) (variantUrl : string) :
      fetchMaster env (url s) = FetchOk manifest ->
      mediaOf env s manifest = Some (media, variantUrl) ->
      segments media = None \/ segments media = Some [] ->
      PollFailure env s ErrorTypes.PLAYLIST_CONTENT
        "Playlist has no segments" "VIDEO" None.

(** An event of persistence: a save or an update, not the dispatch of an
    analysis and not a history sample. *)
Definition persistenceEvent (ev : Event) : Prop :=
  match ev with
  | StreamSave _ | EmitStreamUpdate _ => True
  | ProcessSegment _ | MetricsHistoryCreate _ _ => False
  end.

(** What a failed poll leaves behind. *)
Definition FailedPoll (env : Env) (w : World) (ty text media : string)
    (response : option Z) (w' : World) : Prop :=
  streamState w' = streamState w /\
  status (doc w') = error /\
  totalErrors (health (doc w)) + 1 <= totalErrors (health (doc w')) /\
  (exists more : list Event,
      events w' = events w ++ more /\ Forall persistenceEvent more) /\
  (saveRejection env (saveCalls w) = None ->
   exists e : StreamError,
     errorType e = Some ty /\ details e = Some text /\
     mediaType e = media /\ code e = response /\
     ledger (doc w') =
       List.filter (keepRecent (clock env (4 + clockReads w) - SEVEN_DAYS_MS))
         (ledger (doc w) ++ [e]) /\
     totalErrors (health (doc w')) = totalErrors (health (doc w)) + 1 /\
     events w' = events w ++ [StreamSave None; EmitStreamUpdate (doc w')]) /\
  (forall conflict : JsError,
      saveRejection env (saveCalls w) = Some conflict ->
      err_name conflict = "VersionError" ->
      events w' = events w ++ [StreamSave (Some conflict)]).

Ltac impossible_leaf :=
  match goal with
  | H : (0 <? length (_ ++ [_]))%nat = false |- _ =>
      exfalso; apply Nat.ltb_ge in H; rewrite length_app in H; simpl in H; lia
  end.

Ltac accepted_leaf :=
  let Hacc := fresh "Hacc" in
  intros Hacc;
  first [ congruence
        | eexists; repeat split; try reflexivity; rewrite <- ?app_assoc; reflexivity ].

Ltac conflict_leaf :=
  let c := fresh "c" in
  let Hc := fresh "Hc" in
  let Hn := fresh "Hn" in
  intros c Hc Hn;
  first [ congruence
        | match goal with
          | H : saveRejection _ _ = Some ?e0 |- _ =>
              assert (e0 = c) by congruence; subst;
              try (match goal with
                   | Hb : (err_name ?x =? "VersionError")%string = false,
                     Hx : err_name ?x = "VersionError" |- _ =>
                       rewrite Hx in Hb; discriminate
                   end);
              rewrite <- ?app_assoc; reflexivity
          end ].

Ltac failed_leaf :=
  first
    [ solve [impossible_leaf]
    | unfold FailedPoll, ledger; world_simpl; cbn [default from_option id];
      split; [reflexivity |];
      split; [reflexivity |];
      split; [lia |];
      split; [eexists; split; [rewrite <- ?app_assoc; reflexivity
                              | simpl; repeat constructor] |];
      split; [accepted_leaf | conflict_leaf] ].

Ltac run_failed_poll :=
  unfold checkStream, followVariant, analyzeMediaPlaylist, saveAndPublish,
    saveOrReturn, fatalHandler, save, preSave, addError, generateErrorId;
  repeat wp_step; failed_leaf.

Lemma failed_poll_run env w ty text media code :
  PollFailure env (doc w) ty text media code ->
  wp checkStream env w (fun _ w' => FailedPoll env w ty text media code w').
Proof.
  intros Hfail.
  destruct Hfail as [msg st Hf | manifest variant others msg st Hf Hp Hv
                    | manifest media variantUrl Hf Hm Hs].
  - run_failed_poll.
  - run_failed_poll.
  - unfold mediaOf in Hm.
    destruct (playlists manifest) as [[| variant others] |] eqn:Hp.
    + injection Hm as <- <-. destruct Hs as [Hs | Hs]; run_failed_poll.
    + cbv zeta in Hm.
      destruct (fetchVariant env (resolveVariantUrl (url (doc w)) (uri variant)))
        as [media' | msg st] eqn:Hv; [| discriminate].
      injection Hm as <- <-. destruct Hs as [Hs | Hs]; run_failed_poll.
    + injection Hm as <- <-. destruct Hs as [Hs | Hs]; run_failed_poll.
Qed.

(** X11.  A poll that fails before the evaluation, for any of the three reasons,
    leaves the poll cache as it was, ends with the status [error] and at
    least one more counted error, and dispatches no segment analysis and
    writes no history sample.  When its save is accepted it has appended
    exactly the entry of the failure (before the age-out of that save) and
    emitted one update after the save; when its save meets a version
    conflict it emits nothing. *)
Theorem checkStream_failed_poll (env : Env) (w : World) (ty text media : string)
    (code : option Z) :
  PollFailure env (doc w) ty text media code ->
  FailedPoll env w ty text media code (snd (checkStream env w)).
Proof. intros Hfail. exact (failed_poll_run env w ty text media code Hfail). Qed.

(** A stream whose manifest cannot be fetched (HTTP 503). *)
Definition unreachableEnv : Env :=
  mkEnv (fun k => 1000 + Z.of_nat k) (fun k => "r" +:+ pretty k)
    (fun _ => FetchFailed "Request failed with status code 503" (Some 503))
    (fun _ => FetchFailed "unused" None)
    acceptAll (fun _ => QueryResolved None) None.

Lemma checkStream_failed_poll_witness :
  let w' := snd (checkStream unreachableEnv freshWorld) in
  streamState w' = ∅ /\ status (doc w') = error.
Proof.
  pose proof (checkStream_failed_poll unreachableEnv freshWorld _ _ _ _
                (master_unreachable unreachableEnv (doc freshWorld)
                   "Request failed with status code 503" (Some 503) eq_refl))
    as (Hc & Hs & _).
  split; [exact Hc | exact Hs].
Defined.

(** ** The process queue: waiting and finishing *)

(** How often [t] occurs among the tasks [l]. *)
Definition occurrences (t : Task) (l : list Task) : nat := count_occ Nat.eq_dec l t.

(** How many pending promises belong to [t]. *)
Fixpoint pendingOf (t : Task) (l : list (Task * PromiseState)) : nat :=
  match l with
  | [] => 0
  | (x, Pending) :: rest => (if Nat.eqb x t then 1 else 0) + pendingOf t rest
  | _ :: rest => pendingOf t rest
  end.

Lemma occurrences_app (t : Task) (l1 l2 : list Task) :
  occurrences t (l1 ++ l2) = (occurrences t l1 + occurrences t l2)%nat.
Proof. apply count_occ_app. Qed.

Lemma occurrences_one (t u : Task) :
  occurrences t [u] = if Nat.eqb u t then 1%nat else 0%nat.
Proof.
  unfold occurrences. simpl.
  destruct (Nat.eq_dec u t) as [-> | Hne].
  - now rewrite Nat.eqb_refl.
  - apply Nat.eqb_neq in Hne. now rewrite Hne.
Qed.

Lemma occurrences_cons (t u : Task) (l : list Task) :
  occurrences t (u :: l) = ((if Nat.eqb u t then 1 else 0) + occurrences t l)%nat.
Proof. change (u :: l) with ([u] ++ l). now rewrite occurrences_app, occurrences_one. Qed.

Lemma occurrences_In (t : Task) (l : list Task) : In t l -> (0 < occurrences t l)%nat.
Proof. apply count_occ_In. Qed.

Lemma occurrences_removeFirst (t u : Task) (l : list Task) :
  occurrences u (removeFirst t l)
  = if Nat.eqb t u then Nat.pred (occurrences u l) else occurrences u l.
Proof.
  induction l as [| x l IH]; [simpl; now destruct (Nat.eqb t u) |].
  cbn [removeFirst]. destruct (Nat.eqb_spec x t) as [-> | Hxt].
  - rewrite occurrences_cons. destruct (Nat.eqb t u); reflexivity.
  - rewrite !occurrences_cons, IH.
    destruct (Nat.eqb_spec t u) as [-> | Htu]; [| reflexivity].
    apply Nat.eqb_neq in Hxt. rewrite Hxt. reflexivity.
Qed.

Lemma pendingOf_app (t : Task) (l1 l2 : list (Task * PromiseState)) :
  pendingOf t (l1 ++ l2) = (pendingOf t l1 + pendingOf t l2)%nat.
Proof.
  induction l1 as [| [x []] l1 IH]; simpl; rewrite ?IH; lia.
Qed.

Lemma pendingOf_settlePromise (t u : Task) (l : list (Task * PromiseState)) :
  pendingOf u (settlePromise t Resolved l)
  = if Nat.eqb t u then Nat.pred (pendingOf u l) else pendingOf u l.
Proof.
  induction l as [| [x st] l IH]; [simpl; now destruct (Nat.eqb t u) |].
  destruct st; cbn [settlePromise pendingOf]; try exact IH.
  destruct (Nat.eqb_spec x t) as [-> | Hxt]; cbn [pendingOf].
  - destruct (Nat.eqb t u); reflexivity.
  - rewrite IH. destruct (Nat.eqb_spec t u) as [-> | Htu]; [| reflexivity].
    apply Nat.eqb_neq in Hxt. rewrite Hxt. reflexivity.
Qed.

Lemma pendingOf_none (l : list (Task * PromiseState)) :
  (forall t, pendingOf t l = 0%nat) ->
  forall t st, In (t, st) l -> st <> Pending.
Proof.
  intros Hnone t st Hin ->. specialize (Hnone t).
  induction l as [| [x s] l IH]; [contradiction |].
  destruct Hin as [[= -> ->] | Hin].
  - simpl in Hnone. rewrite Nat.eqb_refl in Hnone. discriminate.
  - apply IH; [| exact Hin]. destruct s; simpl in Hnone; lia.
Qed.

(** Every pending promise belongs to a task that waits, runs or is about
    to finish, and a task waits only while four are active. *)
Definition QueueInv (p : Pipeline) : Prop :=
  (forall t : Task,
      pendingOf t (promises p)
      = (occurrences t (processQueue p) + occurrences t (running p)
         + occurrences t (settled p))%nat) /\
  (processQueue p <> [] -> activeProcesses p = MAX_CONCURRENT_FFMPEG).

Lemma QueueInv_step (p q : Pipeline) :
  PipelineInv p -> QueueInv p -> PipelineStep p q -> QueueInv q.
Proof.
  intros (Hcount & Hmax & _) (Hpend & Hfull) Hstep.
  unfold MAX_CONCURRENT_FFMPEG in *.
  destruct Hstep as [t p | t o p Hin | t p Hin]; unfold QueueInv, MAX_CONCURRENT_FFMPEG.
  - unfold runLimited, execute, MAX_CONCURRENT_FFMPEG. cbn [activeProcesses promises].
    destruct (Z.ltb_spec (activeProcesses p) 4) as [Hlt | Hge];
      cbn [activeProcesses processQueue running settled promises].
    + split.
      * intros u. rewrite pendingOf_app, occurrences_app, occurrences_one, Hpend.
        simpl. lia.
      * intros Hq. specialize (Hfull Hq). lia.
    + split.
      * intros u. rewrite pendingOf_app, occurrences_app, occurrences_one, Hpend.
        simpl. lia.
      * intros _. lia.
  - unfold taskSettles. cbn [activeProcesses processQueue running settled promises].
    split; [| exact Hfull].
    intros u. rewrite occurrences_app, occurrences_one, occurrences_removeFirst, Hpend.
    destruct (Nat.eqb_spec t u) as [-> | Htu]; [| lia].
    apply occurrences_In in Hin. lia.
  - unfold finallyCallback, execute.
    cbn [activeProcesses processQueue running settled promises].
    assert (Hsettled : forall u,
               pendingOf u (settlePromise t Resolved (promises p))
               = (occurrences u (processQueue p) + occurrences u (running p)
                  + occurrences u (removeFirst t (settled p)))%nat).
    { intros u. rewrite pendingOf_settlePromise, occurrences_removeFirst, Hpend.
      destruct (Nat.eqb_spec t u) as [-> | Htu]; [| reflexivity].
      apply occurrences_In in Hin. lia. }
    destruct (processQueue p) as [| next rest] eqn:Hq;
      cbn [activeProcesses processQueue running settled promises].
    + split; [exact Hsettled | intros H; now destruct H].
    + split.
      * intros u. rewrite Hsettled, occurrences_cons, occurrences_app, occurrences_one. lia.
      * intros _. rewrite Hfull by discriminate. lia.
Qed.

Lemma Reachable_QueueInv (p : Pipeline) : Reachable p -> QueueInv p.
Proof.
  induction 1 as [| p q Hreach IH Hstep].
  - split; [intros t; reflexivity | intros H; now destruct H].
  - exact (QueueInv_step p q (Reachable_inv p Hreach) IH Hstep).
Qed.

(** X12.  In every reachable state a task waits in the queue only while four
    tasks are active: a slot that is free is never left unused, and a
    submission that finds tasks waiting goes behind them.  The four are
    tasks that run or are about to finish, so there is always a task whose
    [finally] callback will start the one at the front of the queue. *)
Theorem pipeline_work_conserving (p : Pipeline) :
  Reachable p ->
  (processQueue p <> [] -> activeProcesses p = MAX_CONCURRENT_FFMPEG) /\
  (activeProcesses p < MAX_CONCURRENT_FFMPEG -> processQueue p = []) /\
  (processQueue p <> [] -> (length (running p) + length (settled p) = 4)%nat) /\
  (forall t : Task,
      processQueue p <> [] ->
      running (runLimited t p) = running p /\
      processQueue (runLimited t p) = processQueue p ++ [t]).
Proof.
  intros Hreach. destruct (Reachable_QueueInv p Hreach) as [_ Hfull].
  destruct (Reachable_inv p Hreach) as (Hcount & _ & _).
  split; [exact Hfull |]. split; [| split].
  - intros Hlt. destruct (processQueue p) as [| t rest]; [reflexivity |].
    rewrite Hfull in Hlt by discriminate. lia.
  - intros Hq. specialize (Hfull Hq). unfold MAX_CONCURRENT_FFMPEG in Hfull. lia.
  - intros t Hq. specialize (Hfull Hq).
    unfold runLimited. cbn [activeProcesses]. rewrite Hfull. split; reflexivity.
Qed.

(** Six submissions, then the first task finishes: the fifth starts. *)
Definition firstFinished : Pipeline :=
  finallyCallback 1%nat (taskSettles 1%nat TaskFulfilled sixSubmitted).

Lemma firstFinished_reachable : Reachable firstFinished.
Proof.
  unfold firstFinished.
  apply (reach_step (taskSettles 1%nat TaskFulfilled sixSubmitted)).
  - apply (reach_step sixSubmitted); [apply sixSubmitted_reachable |].
    apply step_taskSettles. simpl. auto.
  - apply step_finallyCallback. simpl. auto.
Qed.

Lemma pipeline_work_conserving_witness :
  activeProcesses firstFinished = MAX_CONCURRENT_FFMPEG /\
  running firstFinished = [2; 3; 4; 5]%nat /\
  processQueue firstFinished = [6]%nat.
Proof.
  split; [| split; reflexivity].
  apply (proj1 (pipeline_work_conserving firstFinished firstFinished_reachable)).
  discriminate.
Defined.

(** X13.  In every reachable state the pending promises are exactly those of the
    tasks that wait, run or are about to finish, task by task; so once
    nothing waits, runs or is about to finish, every promise handed out has
    been resolved. *)
Theorem pipeline_promises_settle (p : Pipeline) :
  Reachable p ->
  (forall t : Task,
      pendingOf t (promises p)
      = (occurrences t (processQueue p) + occurrences t (running p)
         + occurrences t (settled p))%nat) /\
  (processQueue p = [] -> running p = [] -> settled p = [] ->
   forall (t : Task) (st : PromiseState), In (t, st) (promises p) -> st = Resolved).
Proof.
  intros Hreach. destruct (Reachable_QueueInv p Hreach) as [Hpend _].
  destruct (Reachable_inv p Hreach) as (_ & _ & Hrej).
  split; [exact Hpend |].
  intros Hq Hr Hs t st Hin.
  assert (Hnone : forall u, pendingOf u (promises p) = 0%nat)
    by (intros u; rewrite Hpend, Hq, Hr, Hs; reflexivity).
  pose proof (pendingOf_none _ Hnone t st Hin) as Hp.
  pose proof (Hrej t st Hin) as Hj.
  destruct st; [contradiction | reflexivity | contradiction].
Qed.

(** Two submissions that both finish. *)
Definition twoFinished : Pipeline :=
  finallyCallback 2%nat (finallyCallback 1%nat
    (taskSettles 1%nat (TaskRejected "probe failed")
       (taskSettles 2%nat TaskFulfilled
          (runLimited 2%nat (runLimited 1%nat emptyPipeline))))).

Lemma twoFinished_reachable : Reachable twoFinished.
Proof.
  unfold twoFinished.
  set (p2 := runLimited 2%nat (runLimited 1%nat emptyPipeline)).
  set (p3 := taskSettles 2%nat TaskFulfilled p2).
  set (p4 := taskSettles 1%nat (TaskRejected "probe failed") p3).
  set (p5 := finallyCallback 1%nat p4).
  assert (H2 : Reachable p2).
  { subst p2. repeat (eapply reach_step; [| apply step_runLimited]). apply reach_init. }
  assert (H3 : Reachable p3).
  { apply (reach_step p2); [exact H2 |]. apply step_taskSettles. simpl. auto. }
  assert (H4 : Reachable p4).
  { apply (reach_step p3); [exact H3 |]. apply step_taskSettles. simpl. auto. }
  assert (H5 : Reachable p5).
  { apply (reach_step p4); [exact H4 |]. apply step_finallyCallback. simpl. auto. }
  apply (reach_step p5); [exact H5 |]. apply step_finallyCallback. simpl. auto.
Qed.

Lemma pipeline_promises_settle_witness :
  Forall (fun handed => snd handed = Resolved) (promises twoFinished).
Proof.
  apply List.Forall_forall. intros [t st] Hin.
  exact (proj2 (pipeline_promises_settle twoFinished twoFinished_reachable)
           eq_refl eq_refl eq_refl t st Hin).
Defined.

(** ** The three tasks of a segment *)

Lemma processSegment_reachable (probe volume sprite : Task) (p : Pipeline) :
  Reachable p -> Reachable (processSegment probe volume sprite p).
Proof.
  intros Hreach. unfold processSegment.
  repeat (eapply reach_step; [| apply step_runLimited]). exact Hreach.
Qed.

Lemma runLimited_record (t : Task) (active : Z) (queue run done : list Task)
    (handed : list (Task * PromiseState)) :
  runLimited t (mkPipeline active queue run done handed)
  = if active <? MAX_CONCURRENT_FFMPEG
    then mkPipeline (active + 1) queue (run ++ [t]) done (handed ++ [(t, Pending)])
    else mkPipeline active (queue ++ [t]) run done (handed ++ [(t, Pending)]).
Proof. reflexivity. Qed.

(** X14.  [processSegment] hands out three promises and submits its tasks in the
    order probe, volume, thumbnail: as many of them as there are free slots
    start at once, in this order, and the others wait behind the tasks that
    wait already, in this order; with tasks waiting, none of the three
    starts.  The state it leaves is a reachable one. *)
Theorem processSegment_fifo (probe volume sprite : Task) (p : Pipeline) :
  Reachable p ->
  let p' := processSegment probe volume sprite p in
  let free := Z.to_nat (MAX_CONCURRENT_FFMPEG - activeProcesses p) in
  Reachable p' /\
  promises p' = promises p ++ [(probe, Pending); (volume, Pending); (sprite, Pending)] /\
  running p' = running p ++ firstn free [probe; volume; sprite] /\
  processQueue p' = processQueue p ++ skipn free [probe; volume; sprite] /\
  (processQueue p <> [] -> running p' = running p).
Proof.
  intros Hreach p' free. subst p' free.
  split; [apply processSegment_reachable, Hreach |].
  destruct (Reachable_inv p Hreach) as (Hcount & Hmax & _).
  destruct (Reachable_QueueInv p Hreach) as [_ Hfull].
  unfold MAX_CONCURRENT_FFMPEG in *.
  assert (Hcases : activeProcesses p = 0 \/ activeProcesses p = 1 \/ activeProcesses p = 2
                   \/ activeProcesses p = 3 \/ activeProcesses p = 4) by lia.
  destruct p as [active queue run done handed].
  cbn [activeProcesses processQueue running settled promises] in *.
  clear Hreach Hcount Hmax.
  unfold processSegment.
  destruct Hcases as [-> | [-> | [-> | [-> | ->]]]];
    repeat (rewrite runLimited_record; simpl);
    rewrite <- ?app_assoc; simpl; rewrite ?app_nil_r;
    repeat split; try reflexivity;
    intros Hq; specialize (Hfull Hq); lia.
Qed.

Lemma processSegment_fifo_witness :
  let p := runLimited 3%nat (runLimited 2%nat (runLimited 1%nat emptyPipeline)) in
  running (processSegment 4%nat 5%nat 6%nat p) = [1; 2; 3; 4]%nat /\
  processQueue (processSegment 4%nat 5%nat 6%nat p) = [5; 6]%nat.
Proof.
  intros p.
  assert (Hreach : Reachable p).
  { subst p. repeat (eapply reach_step; [| apply step_runLimited]). apply reach_init. }
  destruct (processSegment_fifo 4%nat 5%nat 6%nat p Hreach) as (_ & _ & Hr & Hq & _).
  split; [exact Hr | exact Hq].
Defined.

(** ** URLs *)

Lemma lastIndexFrom_lacks (c : ascii) (s : string) (i found : Z) :
  lacks c s -> lastIndexFrom c s i found = found.
Proof.
  revert i. induction s as [| x s IH]; intros i H; [reflexivity |].
  destruct H as [Hx Hs]. cbn [lastIndexFrom].
  destruct (Ascii.eqb_spec x c) as [-> | _]; [contradiction |].
  apply IH, Hs.
Qed.

Lemma lastIndexFrom_last (c : ascii) (a b : string) (i found : Z) :
  lacks c b ->
  lastIndexFrom c (a +:+ String c b) i found = i + Z.of_nat (String.length a).
Proof.
  intros Hb. revert i found. induction a as [| x a IH]; intros i found.
  - change (EmptyString +:+ String c b) with (String c b). cbn [lastIndexFrom].
    rewrite Ascii.eqb_refl, lastIndexFrom_lacks by exact Hb. simpl. lia.
  - rewrite app_cons. cbn [lastIndexFrom]. rewrite IH.
    cbn [String.length]. lia.
Qed.

Lemma substring_prefix (a b : string) :
  String.substring 0 (String.length a) (a +:+ b) = a.
Proof.
  induction a as [| x a IH]; [destruct b; reflexivity |].
  rewrite app_cons. cbn [String.length String.substring]. now rewrite IH.
Qed.

Lemma baseUrlOf_directory (dir file : string) :
  lacks "/" file -> baseUrlOf (dir +:+ String "/" file) = dir +:+ "/".
Proof.
  intros Hfile. unfold baseUrlOf, lastIndexOf.
  rewrite lastIndexFrom_last by exact Hfile.
  replace (Z.to_nat (0 + Z.of_nat (String.length dir) + 1))
    with (String.length (dir +:+ "/")).
  - change (String "/" file) with ("/" +:+ file).
    rewrite <- app_assoc_string. apply substring_prefix.
  - clear. induction dir as [| x dir IH]; [reflexivity |].
    rewrite app_cons. cbn [String.length]. rewrite IH. lia.
Qed.

Lemma baseUrlOf_bare (file : string) : lacks "/" file -> baseUrlOf file = "".
Proof.
  intros Hfile. unfold baseUrlOf, lastIndexOf.
  rewrite lastIndexFrom_lacks by exact Hfile.
  destruct file; reflexivity.
Qed.

(** X15.  A URI that starts with [http] is taken as it is, whatever follows.
    Any other URI replaces the part of the base URL after its last slash:
    the directory of the base is kept, with its slash; against a base
    without a slash the URI stands alone. *)
Theorem resolveVariantUrl_cases (dir file uri : string) :
  lacks "/" file ->
  (String.prefix "http" uri = true ->
   resolveVariantUrl (dir +:+ String "/" file) uri = uri) /\
  (String.prefix "http" uri = false ->
   resolveVariantUrl (dir +:+ String "/" file) uri = dir +:+ "/" +:+ uri /\
   resolveVariantUrl file uri = uri).
Proof.
  intros Hfile. unfold resolveVariantUrl. split; intros Hp; rewrite Hp; [reflexivity |].
  rewrite baseUrlOf_directory, baseUrlOf_bare by exact Hfile.
  split; [apply app_assoc_string | reflexivity].
Qed.

Lemma resolveVariantUrl_cases_witness :
  resolveVariantUrl "http://host/live/index.m3u8" "low/index.m3u8"
  = "http://host/live/low/index.m3u8".
Proof.
  apply (proj1 (proj2 (resolveVariantUrl_cases "http://host/live" "index.m3u8"
                         "low/index.m3u8" ltac:(simpl; repeat split; discriminate))
                  eq_refl)).
Defined.

(** ** Frame rate *)

(** X16.  What the probe stores as frame rate is never NaN: it is 0, or a number
    other than 0, which can be infinite; it is 0 for a missing or empty
    rate; and the [|| 0] the monitor applies to the stored value when it
    writes a history sample changes nothing. *)
Theorem frameRate_stored (r_frame_rate : option string) :
  frameRate r_frame_rate <> JNaN /\
  (frameRate r_frame_rate = JFin 0 \/ truthy_num (frameRate r_frame_rate) = true) /\
  (truthy_string r_frame_rate = false -> frameRate r_frame_rate = JFin 0) /\
  orZero (frameRate r_frame_rate) = frameRate r_frame_rate.
Proof.
  assert (Hor : forall n, orZero n <> JNaN /\
                          (orZero n = JFin 0 \/ truthy_num (orZero n) = true) /\
                          orZero (orZero n) = orZero n).
  { intros n. unfold orZero. destruct (truthy_num n) eqn:Hn.
    - rewrite Hn. repeat split; [| now right]. intros ->. discriminate.
    - repeat split; [discriminate | now left]. }
  unfold frameRate. cbv zeta.
  destruct (truthy_string r_frame_rate).
  - destruct (Nat.eqb _ 2).
    + destruct (Hor (jsDiv (parseFloat (nth 0 (split "/" (default "" r_frame_rate)) ""))
                       (parseFloat (nth 1 (split "/" (default "" r_frame_rate)) ""))))
        as (H1 & H2 & H3).
      repeat split; [exact H1 | exact H2 | discriminate | exact H3].
    + destruct (Hor (parseFloat (default "" r_frame_rate))) as (H1 & H2 & H3).
      repeat split; [exact H1 | exact H2 | discriminate | exact H3].
  - repeat split; [discriminate | now left].
Qed.

(** ** Volume detection, silence and the audio score *)

(** The document with the audio block [a]. *)
Definition withAudio (a : AudioStats) (stream : Stream) : Stream :=
  with_stats (fun st => mkStats (bandwidth st) (resolution st) (fps st) (video st)
                          (Some a) (container st)) stream.

Lemma Qltb_lt (x y : Q) : Qltb x y = true <-> (x < y)%Q.
Proof.
  unfold Qltb. rewrite negb_true_iff. split.
  - intros H. apply Qnot_le_lt. intros Hle. apply Qle_bool_iff in Hle. congruence.
  - intros H. destruct (Qle_bool y x) eqn:E; [| reflexivity].
    apply Qle_bool_iff in E. apply Qlt_not_le in H. contradiction.
Qed.

(** X17.  A volume detection that reports a level, on a document with an audio
    block: the two levels are stored when they are finite numbers and
    cleared when they are not; the other audio fields are kept; the stream
    is silent exactly when the peak is a finite number under -50 dB, so a
    report without a peak clears the flag; and a silent stream scores
    exactly 15 less than it would otherwise, never at the clamp. *)
Theorem volumeDetected_silence (meanMatch maxMatch : option string)
    (stream : Stream) (a : AudioStats) :
  audio (stats stream) = Some a ->
  matched meanMatch || matched maxMatch = true ->
  let stream' := volumeDetected meanMatch maxMatch stream in
  exists a' : AudioStats,
    audio (stats stream') = Some a' /\
    a_peakDb a' = validDb maxMatch /\
    a_avgDb a' = validDb meanMatch /\
    a_codec a' = a_codec a /\ a_channels a' = a_channels a /\
    a_sampleRate a' = a_sampleRate a /\ a_bitRate a' = a_bitRate a /\
    a_channelLayout a' = a_channelLayout a /\
    (a_isSilent a' = Some true <->
     exists peak : Q, validDb maxMatch = Some peak /\ (peak < -50)%Q) /\
    (a_isSilent a' = Some true \/ a_isSilent a' = Some false) /\
    calculateAudioScore stream'
    = 100 - (if truthy_string (a_codec a) then 0 else 20)
          - (match a_sampleRate a with
             | Some rate => if negb (rate =? 0) && (rate <? 44100) then 10 else 0
             | None => 0
             end)
          - (if truthy_bool (a_isSilent a') then 15 else 0).
Proof.
  intros Ha Hm stream'. subst stream'. unfold volumeDetected. rewrite Hm, Ha.
  eexists. split; [reflexivity |]. cbn [a_peakDb a_avgDb a_codec a_channels a_sampleRate
                                         a_bitRate a_channelLayout a_isSilent].
  repeat split.
  - intros [= H]. destruct (validDb maxMatch) as [peak |]; [| discriminate].
    exists peak. split; [reflexivity | now apply Qltb_lt].
  - intros (peak & -> & Hlt). apply Qltb_lt in Hlt. now rewrite Hlt.
  - destruct (validDb maxMatch) as [peak |]; [destruct (Qltb peak (-50)) |]; auto.
  - unfold calculateAudioScore, with_stats, set_stats.
    cbn [stats audio a_codec a_sampleRate a_isSilent truthy_bool].
    set (silent := match validDb maxMatch with
                   | Some peak => Qltb peak (-50)
                   | None => false
                   end).
    destruct (a_sampleRate a) as [rate |]; cbn [truthy_Z default from_option id];
      destruct (truthy_string (a_codec a)), silent;
      try destruct (negb (rate =? 0) && (rate <? 44100)); reflexivity.
Qed.

Lemma volumeDetected_silence_witness :
  calculateAudioScore
    (volumeDetected (Some "-91.0") (Some "-91.0") (withAudio probedAudio quietStream))
  = 85.
Proof.
  destruct (volumeDetected_silence (Some "-91.0") (Some "-91.0")
              (withAudio probedAudio quietStream) probedAudio eq_refl eq_refl)
    as (a' & Ha' & _ & _ & _ & _ & _ & _ & _ & _ & _ & Hscore).
  rewrite Hscore. injection Ha' as <-. reflexivity.
Defined.

(** X18.  The probe that follows a volume detection replaces the audio block and
    carries the detection over: a silence verdict is kept together with its
    peak, also when the tool reports nothing about the audio stream; what
    is dropped is a level of exactly 0 dB. *)
Theorem probe_after_volume (meanMatch maxMatch : option string)
    (stream : Stream) (a : AudioStats) (probe : ProbeAudio) :
  audio (stats stream) = Some a ->
  matched meanMatch || matched maxMatch = true ->
  let detected := audio (stats (volumeDetected meanMatch maxMatch stream)) in
  let probed := probeAudioStats probe detected in
  a_isSilent probed = (detected ≫= a_isSilent) /\
  (a_isSilent probed = Some true -> a_peakDb probed = validDb maxMatch) /\
  (forall level : Q,
      validDb maxMatch = Some level ->
      a_peakDb probed = if Qeq_bool level 0 then None else Some level) /\
  (forall level : Q,
      validDb meanMatch = Some level ->
      a_avgDb probed = if Qeq_bool level 0 then None else Some level) /\
  a_bitRate probed <> Some 0%Q /\ a_bitRate probed <> None.
Proof.
  intros Ha Hm detected probed. subst detected probed.
  unfold volumeDetected. rewrite Hm, Ha. unfold with_stats, set_stats.
  cbn [stats audio]. unfold probeAudioStats.
  cbn [a_isSilent a_peakDb a_avgDb a_bitRate truthy_bool mbind option_bind].
  split; [| split; [| split; [| split; [| split]]]].
  - reflexivity.
  - destruct (validDb maxMatch) as [peak |]; [| reflexivity].
    intros [= Hs]. apply Qltb_lt in Hs. cbn [truthy_Q].
    destruct (Qeq_bool peak 0) eqn:E; [| reflexivity].
    apply Qeq_bool_iff in E. rewrite E in Hs. discriminate.
  - intros level ->. cbn [truthy_Q]. destruct (Qeq_bool level 0); reflexivity.
  - intros level ->. cbn [truthy_Q]. destruct (Qeq_bool level 0); reflexivity.
  - unfold parseIntOr. intros [= H].
    destruct (truthy_Z (parseIntField (bit_rate probe))) eqn:E; [| discriminate].
    destruct (parseIntField (bit_rate probe)) as [z |]; [| discriminate].
    cbn in E, H. apply negb_true_iff, Z.eqb_neq in E. contradiction.
  - discriminate.
Qed.

Lemma probe_after_volume_witness :
  let detected :=
    audio (stats (volumeDetected (Some "-91.0") (Some "-91.0")
                    (withAudio probedAudio quietStream))) in
  a_isSilent (probeAudioStats (mkProbeAudio (Some "aac") (Some 2) None None) detected)
  = Some true.
Proof.
  intros detected. subst detected.
  rewrite (proj1 (probe_after_volume (Some "-91.0") (Some "-91.0")
                    (withAudio probedAudio quietStream) probedAudio
                    (mkProbeAudio (Some "aac") (Some 2) None None) eq_refl eq_refl)).
  reflexivity.
Defined.

(** ** A poll that completes *)

Lemma calculateVideoScore_range (stream : Stream) : 0 <= calculateVideoScore stream <= 100.
Proof. unfold calculateVideoScore. destruct (video (stats stream)); lia. Qed.

Lemma calculateAudioScore_range (stream : Stream) : 0 <= calculateAudioScore stream <= 100.
Proof. unfold calculateAudioScore. destruct (audio (stats stream)); lia. Qed.

Lemma signalLevel_range (bitrate full : Q) : (0 <= signalLevel bitrate full <= 100)%Q.
Proof.
  unfold signalLevel. split.
  - apply Q.min_glb; [discriminate | apply Q.le_max_l].
  - apply Q.le_min_l.
Qed.

Lemma calculateHealthScore_range (stream : Stream) (r : option RecentIssues) (d : Q) :
  (0 <= calculateHealthScore stream r d <= 100)%Q.
Proof.
  destruct (calculateHealthScore_clamped stream r d) as [x ->]. apply clampScore_range.
Qed.

(** What the evaluation commits to the document, and what it leaves. *)
Lemma evaluatePlaylist_commit env w now m st :
  wp (evaluatePlaylist now m st) env w (fun o w' =>
    o = Normal tt /\
    events w' = events w /\
    saveCalls w' = saveCalls w /\
    stream_id (doc w') = stream_id (doc w) /\
    mediaSequence (health (doc w')) = default 0 (mf_mediaSequence m) /\
    previousMediaSequence (health (doc w')) = lastMediaSequence st /\
    segmentCount (health (doc w')) = Z.of_nat (length (default [] (segments m)))).
Proof.
  unfold_evaluation.
  generalize (default 0 (mf_mediaSequence m)). intros seq.
  repeat wp_step; close_leaf.
Qed.

(** [save]: the hook ages the ledger out and touches nothing else, the
    store answers, and the answer decides the outcome. *)
Lemma save_run env w :
  wp save env w (fun o w' =>
    o = match saveRejection env (saveCalls w) with
        | None => Normal tt
        | Some e => Thrown e
        end /\
    events w' = events w ++ [StreamSave (saveRejection env (saveCalls w))] /\
    saveCalls w' = S (saveCalls w) /\
    health (doc w') = health (doc w) /\
    status (doc w') = status (doc w) /\
    stats (doc w') = stats (doc w) /\
    stream_id (doc w') = stream_id (doc w) /\
    streamState w' = streamState w).
Proof.
  unfold save, preSave.
  repeat wp_step; repeat split; reflexivity.
Qed.

Lemma recentIssuesOf_run env w id :
  wp (recentIssuesOf id) env w (fun o w' =>
    (exists now : Z,
        o = Normal (calculateSlidingWindowMetrics now (findById env (default "" id)) id)) /\
    doc w' = doc w /\ events w' = events w /\ saveCalls w' = saveCalls w /\
    streamState w' = streamState w).
Proof.
  unfold recentIssuesOf.
  repeat wp_step; (split; [eexists; reflexivity | repeat split; reflexivity]).
Qed.

Lemma decayFactorOf_run env w lastErrorTime :
  wp (decayFactorOf lastErrorTime) env w (fun o w' =>
    (exists d : Q, o = Normal d) /\
    doc w' = doc w /\ events w' = events w /\ saveCalls w' = saveCalls w /\
    streamState w' = streamState w).
Proof.
  unfold decayFactorOf.
  repeat wp_step; (split; [eexists; reflexivity | repeat split; reflexivity]).
Qed.

(** What a history sample says, against the document [s] it was taken
    from: the scores and levels lie between 0 and 100, and the sequence,
    the segment count, the status and the error count are those of the
    document. *)
Definition SampleOf (sample : MetricsSample) (s : Stream) : Prop :=
  (0 <= ms_healthScore sample <= 100)%Q /\
  0 <= ms_videoScore sample <= 100 /\
  0 <= ms_audioScore sample <= 100 /\
  (0 <= ms_videoLevel sample <= 100)%Q /\
  (0 <= ms_audioLevel sample <= 100)%Q /\
  ms_streamId sample = stream_id s /\
  ms_mediaSequence sample = mediaSequence (health s) /\
  ms_segmentCount sample = segmentCount (health s) /\
  ms_status sample = status s /\
  ms_errorCount sample = totalErrors (health s).

(** What a completed poll leaves behind. *)
Definition CompletedPoll (env : Env) (w : World) (media : Manifest)
    (segmentUrl : string) (w' : World) : Prop :=
  exists sample : MetricsSample,
    events w' = events w ++
      [ProcessSegment segmentUrl;
       StreamSave None;
       MetricsHistoryCreate sample (createRejection env);
       StreamSave (saveRejection env (S (saveCalls w)));
       EmitStreamUpdate (doc w')] /\
    SampleOf sample (doc w') /\
    mediaSequence (health (doc w')) = default 0 (mf_mediaSequence media) /\
    segmentCount (health (doc w')) = Z.of_nat (length (default [] (segments media))) /\
    0 <= recentSequenceJumps (health (doc w')) <= recentErrors (health (doc w')) /\
    0 <= recentSequenceResets (health (doc w')) <= recentErrors (health (doc w')).

Lemma scoreAndPublish_run env w seq count :
  mediaSequence (health (doc w)) = seq ->
  segmentCount (health (doc w)) = count ->
  wp (scoreAndPublish seq count) env w (fun o w' =>
    o = Normal tt /\
    exists sample : MetricsSample,
      events w' = events w ++
        [MetricsHistoryCreate sample (createRejection env);
         StreamSave (saveRejection env (saveCalls w));
         EmitStreamUpdate (doc w')] /\
      SampleOf sample (doc w') /\
      mediaSequence (health (doc w')) = seq /\
      segmentCount (health (doc w')) = count /\
      0 <= recentSequenceJumps (health (doc w')) <= recentErrors (health (doc w')) /\
      0 <= recentSequenceResets (health (doc w')) <= recentErrors (health (doc w'))).
Proof.
  intros Hseq Hcount. unfold scoreAndPublish.
  apply wp_bind, wp_getStream. cbv zeta.
  apply wp_bind. eapply wp_mono; [apply recentIssuesOf_run |].
  intros o w1 ([now ->] & Hd1 & He1 & Hs1 & _).
  set (recent := calculateSlidingWindowMetrics now
                   (findById env (default "" (Some (stream_id (doc w)))))
                   (Some (stream_id (doc w)))).
  pose proof (window_counts now (findById env (default "" (Some (stream_id (doc w)))))
                (Some (stream_id (doc w)))) as Hwin.
  fold recent in Hwin.
  apply wp_bind. eapply wp_mono; [apply decayFactorOf_run |].
  intros o w2 ([d ->] & Hd2 & He2 & Hs2 & _).
  do 10 wp_step.
  apply wp_bind, wp_emit. world_simpl.
  apply wp_bind, wp_tryCatch. eapply wp_mono; [apply save_run |].
  intros o w3 (Ho & He3 & _ & Hh3 & Hst3 & _ & Hid3 & _).
  cbn [doc streamState clockReads randomDraws saveCalls events] in Ho, He3, Hh3, Hst3, Hid3.
  assert (Hend : wp (getStream ≫= (fun stream => emit (EmitStreamUpdate stream))) env w3
            (fun o w' =>
               o = Normal tt /\
               doc w' = doc w3 /\
               events w' = events w3 ++ [EmitStreamUpdate (doc w3)])).
  { repeat wp_step. repeat split; reflexivity. }
  assert (Hgoal : forall o4 w4,
             o4 = Normal tt /\ doc w4 = doc w3 /\
             events w4 = events w3 ++ [EmitStreamUpdate (doc w3)] ->
             o4 = Normal tt /\
             exists sample : MetricsSample,
               events w4 = events w ++
                 [MetricsHistoryCreate sample (createRejection env);
                  StreamSave (saveRejection env (saveCalls w));
                  EmitStreamUpdate (doc w4)] /\
               SampleOf sample (doc w4) /\
               mediaSequence (health (doc w4)) = seq /\
               segmentCount (health (doc w4)) = count /\
               0 <= recentSequenceJumps (health (doc w4)) <= recentErrors (health (doc w4)) /\
               0 <= recentSequenceResets (health (doc w4)) <= recentErrors (health (doc w4))).
  { intros o4 w4 (-> & Hd4 & He4). split; [reflexivity |].
    eexists. rewrite He4, He3, Hd4, <- !app_assoc, Hs2, Hs1, He2, He1. cbn [app].
    split; [reflexivity |].
    unfold SampleOf. rewrite Hh3, Hst3, Hid3, Hd2, Hd1.
    cbn [ms_healthScore ms_videoScore ms_audioScore ms_videoLevel ms_audioLevel
         ms_streamId ms_mediaSequence ms_segmentCount ms_status ms_errorCount].
    world_simpl.
    split; [| rewrite Hseq, Hcount; repeat split; lia].
    split; [apply calculateHealthScore_range |].
    split; [apply calculateVideoScore_range |].
    split; [apply calculateAudioScore_range |].
    split; [apply signalLevel_range |].
    split; [apply signalLevel_range |].
    rewrite Hseq, Hcount. repeat split; reflexivity. }
  destruct o as [[] | e].
  - eapply wp_mono; [exact Hend | exact Hgoal].
  - apply wp_ret. eapply wp_mono; [exact Hend | exact Hgoal].
Qed.

Lemma completed_poll_run env w manifest media variantUrl first others :
  fetchMaster env (url (doc w)) = FetchOk manifest ->
  mediaOf env (doc w) manifest = Some (media, variantUrl) ->
  segments media = Some (first :: others) ->
  saveRejection env (saveCalls w) = None ->
  wp checkStream env w (fun _ w' =>
    CompletedPoll env w media
      (resolveVariantUrl variantUrl (seg_uri (List.last others first))) w').
Proof.
  intros Hfetch Hmedia Hseg Hacc.
  unfold checkStream.
  do 10 wp_step.
  apply wp_bind.
  eapply wp_mono; [apply (followVariant_media _ _ manifest media variantUrl); exact Hmedia |].
  intros o w1 (-> & Hev1 & Hsc1 & _ & _ & Hid1 & _).
  cbn [doc streamState clockReads randomDraws saveCalls events] in Hev1, Hsc1, Hid1.
  unfold analyzeMediaPlaylist. rewrite Hseg.
  apply wp_bind.
  eapply wp_mono; [apply evaluatePlaylist_commit |].
  intros o w2 (-> & Hev2 & Hsc2 & Hid2 & Hseq2 & _ & Hcount2).
  rewrite Hseg in Hcount2. cbn [default from_option id] in Hcount2.
  do 6 wp_step.
  apply wp_bind. unfold saveOrReturn. apply wp_tryCatch, wp_bind.
  eapply wp_mono; [apply save_run |].
  intros o w3 (Ho & He3 & Hsc3 & Hh3 & _ & _ & Hid3 & _).
  cbn [doc streamState clockReads randomDraws saveCalls events] in Ho, He3, Hsc3, Hh3, Hid3.
  rewrite Hsc2, Hsc1, Hacc in Ho, He3. subst o.
  apply wp_ret. cbv beta iota.
  eapply wp_mono; [apply scoreAndPublish_run |].
  - rewrite Hh3. world_simpl. exact Hseq2.
  - rewrite Hh3. world_simpl. exact Hcount2.
  - cbv beta. intros o w4 (-> & sample & He4 & Hsample & Hseq4 & Hcount4 & Hj & Hr).
    exists sample. rewrite He4, He3, Hsc3, Hsc2, Hsc1, Hev2, Hev1, <- !app_assoc.
    rewrite Hseg. cbn [app default from_option id].
    repeat split; try assumption; apply Hsample || apply Hj || apply Hr.
Qed.

(** X19.  A poll that reaches the playlist evaluation and whose first save is
    accepted completes, whatever the history insert and the second save
    answer: it dispatches the analysis of the latest segment, saves,
    writes one history sample, saves again and emits one update that
    carries the document as the poll leaves it.  The scores and levels of
    the sample lie between 0 and 100; its sequence, segment count, status
    and error count are those of the document; and the recent counters of
    the document are those of the window, with jumps and resets within the
    errors. *)
Theorem checkStream_completed_poll (env : Env) (w : World)
    (manifest media : Manifest) (variantUrl : string)
    (first : Segment) (others : list Segment) :
  fetchMaster env (url (doc w)) = FetchOk manifest ->
  mediaOf env (doc w) manifest = Some (media, variantUrl) ->
  segments media = Some (first :: others) ->
  saveRejection env (saveCalls w) = None ->
  CompletedPoll env w media
    (resolveVariantUrl variantUrl (seg_uri (List.last others first)))
    (snd (checkStream env w)).
Proof.
  intros Hfetch Hmedia Hseg Hacc.
  exact (completed_poll_run env w manifest media variantUrl first others
           Hfetch Hmedia Hseg Hacc).
Qed.

Lemma checkStream_completed_poll_witness :
  CompletedPoll (pollEnv 1000 100 acceptAll) freshWorld (mediaPlaylist 100)
    "http://host/live/seg-c.ts" firstPoll.
Proof.
  exact (checkStream_completed_poll (pollEnv 1000 100 acceptAll) freshWorld
           (mediaPlaylist 100) (mediaPlaylist 100) "http://host/live/index.m3u8"
           (mkSegment "seg-a.ts" false)
           [mkSegment "seg-b.ts" false; mkSegment "seg-c.ts" false]
           eq_refl eq_refl eq_refl eq_refl).
Defined.

(** ** Entries written by a poll, read back by the window *)

Lemma lacks_app (c : ascii) (a b : string) :
  lacks c (a +:+ b) <-> lacks c a /\ lacks c b.
Proof.
  induction a as [| x a IH].
  - change (EmptyString +:+ b) with b. simpl. tauto.
  - rewrite app_cons. cbn [lacks]. rewrite IH. tauto.
Qed.

(** [c] is not a decimal digit. *)
Definition notDigit (c : ascii) : Prop := forall x : N, pretty_N_char x <> c.

Lemma lacks_pretty_N_go (c : ascii) (x : N) (s : string) :
  notDigit c -> lacks c s -> lacks c (pretty_N_go x s).
Proof.
  intros Hc. revert s. induction (N.lt_wf_0 x) as [x _ IH]. intros s Hs.
  destruct (N.eq_dec x 0%N) as [-> | Hx].
  - now rewrite pretty_N_go_0.
  - rewrite pretty_N_go_step by lia. apply IH.
    + apply N.div_lt; lia.
    + split; [apply Hc | exact Hs].
Qed.

(** The decimal text of an integer has digits and the minus sign only. *)
Lemma lacks_pretty_Z (c : ascii) (z : Z) :
  notDigit c -> c <> "-"%char -> lacks c (pretty z).
Proof.
  intros Hc Hdash.
  assert (Hpos : forall p : positive, lacks c (pretty p)).
  { intros p. unfold pretty, pretty_positive, pretty, pretty_N.
    destruct (decide (N.pos p = 0%N)); [discriminate |].
    apply lacks_pretty_N_go; [exact Hc | exact I]. }
  destruct z as [| p | p]; unfold pretty, pretty_Z.
  - split; [exact (Hc 0%N) | exact I].
  - apply Hpos.
  - apply lacks_app. split; [| apply Hpos].
    split; [congruence | exact I].
Qed.

Lemma notDigit_s : notDigit "s".
Proof. intros x. unfold pretty_N_char. repeat case_match; discriminate. Qed.

Lemma notDigit_j : notDigit "j".
Proof. intros x. unfold pretty_N_char. repeat case_match; discriminate. Qed.

(** A text without [c] contains no text with [c]. *)
Lemma lacks_Substring (c : ascii) (sub s : string) :
  lacks c s -> Substring sub s -> lacks c sub.
Proof.
  intros Hs (pre & post & ->).
  apply lacks_app in Hs as [_ Hs]. apply lacks_app in Hs as [Hs _]. exact Hs.
Qed.

Ltac lacks_text :=
  repeat (apply lacks_app; split);
  first [ apply lacks_pretty_Z; [first [exact notDigit_s | exact notDigit_j] | discriminate]
        | simpl; repeat split; discriminate ].

Lemma jumpMessage_read (last seq : Z) :
  Substring "Sequence jumped" (jumpMessage last seq) /\
  ~ Substring "reset" (jumpMessage last seq).
Proof.
  split.
  - exists "", (" from " +:+ pretty last +:+ " to " +:+ pretty seq
                +:+ " (gap: " +:+ pretty (seq - (last + 1)) +:+ ")").
    reflexivity.
  - intros Hsub.
    assert (Hl : lacks "s" (jumpMessage last seq)) by (unfold jumpMessage; lacks_text).
    apply (lacks_Substring _ _ _ Hl) in Hsub. simpl in Hsub. tauto.
Qed.

Lemma resetMessage_read (last seq : Z) :
  Substring "reset" (resetMessage last seq) /\
  ~ Substring "Sequence jumped" (resetMessage last seq).
Proof.
  split.
  - exists "Sequence ", (" from " +:+ pretty last +:+ " to " +:+ pretty seq).
    reflexivity.
  - intros Hsub.
    assert (Hl : lacks "j" (resetMessage last seq)) by (unfold resetMessage; lacks_text).
    apply (lacks_Substring _ _ _ Hl) in Hsub. simpl in Hsub. tauto.
Qed.

(** The counts of the window over a ledger [l], read for the stream [id]. *)
Definition windowOf (id : string) (readNow : Z) (l : list StreamError) : RecentIssues :=
  calculateSlidingWindowMetrics readNow
    (QueryResolved (Some (mkLeanStream (Some l)))) (Some id).

Lemma windowOf_counts (id : string) (readNow : Z) (l : list StreamError) :
  id <> EmptyString ->
  windowOf id readNow l =
  mkRecentIssues (Z.of_nat (length (filter IsJump (filter (InWindow readNow) l))))
                 (Z.of_nat (length (filter IsReset (filter (InWindow readNow) l))))
                 (Z.of_nat (length (filter (InWindow readNow) l))).
Proof.
  intros Hid. unfold windowOf, calculateSlidingWindowMetrics.
  replace (negb (truthy_string (Some id))) with false
    by (destruct id; [contradiction | reflexivity]).
  cbn [lean_streamErrors].
  rewrite (filter_bool_Prop _ (InWindow readNow)) by (intros x; apply inWindowStart_spec).
  rewrite fold_countIssue. reflexivity.
Qed.

Lemma windowOf_snoc (id : string) (readNow : Z) (l : list StreamError) (e : StreamError) :
  id <> EmptyString ->
  InWindow readNow e ->
  windowOf id readNow (l ++ [e]) =
  mkRecentIssues
    (jumps (windowOf id readNow l) + (if decide (IsJump e) then 1 else 0))
    (resets (windowOf id readNow l) + (if decide (IsReset e) then 1 else 0))
    (errors (windowOf id readNow l) + 1).
Proof.
  intros Hid Hin. rewrite !windowOf_counts by exact Hid. cbn [jumps resets errors].
  rewrite filter_app, (filter_cons (InWindow readNow) e), filter_nil.
  destruct (decide (InWindow readNow e)); [| contradiction].
  rewrite !filter_app, !length_app, !filter_cons, !filter_nil.
  destruct (decide (IsJump e)), (decide (IsReset e)); cbn [length];
    f_equal; lia.
Qed.

(** The entry a jump or a reset appends, with its date. *)
Lemma evaluatePlaylist_jump_dated env w now m st :
  lastMediaSequence st <> -1 ->
  3 <= default 0 (mf_mediaSequence m) - (lastMediaSequence st + 1) ->
  wp (evaluatePlaylist now m st) env w (fun o w' =>
    exists e : StreamError,
      ledger (doc w') = ledger (doc w) ++ [e] /\
      date e = Some (ValidDate (clock env (2 + clockReads w))) /\
      errorType e = Some ErrorTypes.MEDIA_SEQUENCE /\
      details e = Some (jumpMessage (lastMediaSequence st) (default 0 (mf_mediaSequence m)))).
Proof.
  intros Hseen Hgap. unfold jumpMessage. unfold_evaluation.
  generalize dependent (default 0 (mf_mediaSequence m)). intros seq Hgap.
  repeat wp_step; close_leaf.
Qed.

Lemma evaluatePlaylist_reset_dated env w now m st :
  lastMediaSequence st <> -1 ->
  default 0 (mf_mediaSequence m) < lastMediaSequence st ->
  wp (evaluatePlaylist now m st) env w (fun o w' =>
    exists e : StreamError,
      ledger (doc w') = ledger (doc w) ++ [e] /\
      date e = Some (ValidDate (clock env (2 + clockReads w))) /\
      errorType e = Some ErrorTypes.MEDIA_SEQUENCE /\
      details e = Some (resetMessage (lastMediaSequence st) (default 0 (mf_mediaSequence m)))).
Proof.
  intros Hseen Hlt. unfold resetMessage. unfold_evaluation.
  generalize dependent (default 0 (mf_mediaSequence m)). intros seq Hlt.
  repeat wp_step; close_leaf.
Qed.

(** X20.  The entries are written under the type Media Sequence, which the
    window does not know; it recognises them by their text.  Read within 12
    minutes of its date, the entry of a jump counts as one more error and
    one more jump and as no reset, and the entry of a reset as one more
    error and one more reset and as no jump. *)
Theorem sequence_entries_read_back (env : Env) (w : World) (now : Z)
    (m : Manifest) (st : PollState) (id : string) (readNow : Z) :
  lastMediaSequence st <> -1 ->
  id <> EmptyString ->
  readNow - WINDOW_MS <= clock env (2 + clockReads w) ->
  let seq := default 0 (mf_mediaSequence m) in
  let last := lastMediaSequence st in
  let before := windowOf id readNow (ledger (doc w)) in
  let after := windowOf id readNow (ledger (doc (snd (evaluatePlaylist now m st env w)))) in
  (3 <= seq - (last + 1) ->
   after = mkRecentIssues (jumps before + 1) (resets before) (errors before + 1)) /\
  (seq < last ->
   after = mkRecentIssues (jumps before) (resets before + 1) (errors before + 1)).
Proof.
  intros Hseen Hid Hread seq last before after. subst seq last before after.
  unfold WINDOW_MS in Hread.
  assert (Hnot : forall e : StreamError,
             errorType e = Some ErrorTypes.MEDIA_SEQUENCE ->
             errorType e <> Some "SEQUENCE_JUMP" /\ errorType e <> Some "SEQUENCE_RESET").
  { intros e ->. split; discriminate. }
  split.
  - intros Hgap.
    pose proof (evaluatePlaylist_jump_dated env w now m st Hseen Hgap) as H.
    unfold wp in H. destruct H as (e & -> & Hdate & Hty & Hdet).
    destruct (jumpMessage_read (lastMediaSequence st) (default 0 (mf_mediaSequence m)))
      as [Hyes Hno].
    destruct (Hnot e Hty) as [Hnj Hnr].
    rewrite windowOf_snoc by (first [exact Hid | eexists; split; [exact Hdate | exact Hread]]).
    destruct (decide (IsJump e)) as [_ | Hj].
    + destruct (decide (IsReset e)) as [[Hr | (d & Hd & Hr)] | _].
      * contradiction.
      * rewrite Hdet in Hd. injection Hd as <-. contradiction.
      * f_equal; lia.
    + exfalso. apply Hj. right. eexists. split; [exact Hdet | exact Hyes].
  - intros Hlt.
    pose proof (evaluatePlaylist_reset_dated env w now m st Hseen Hlt) as H.
    unfold wp in H. destruct H as (e & -> & Hdate & Hty & Hdet).
    destruct (resetMessage_read (lastMediaSequence st) (default 0 (mf_mediaSequence m)))
      as [Hyes Hno].
    destruct (Hnot e Hty) as [Hnj Hnr].
    rewrite windowOf_snoc by (first [exact Hid | eexists; split; [exact Hdate | exact Hread]]).
    destruct (decide (IsReset e)) as [_ | Hr].
    + destruct (decide (IsJump e)) as [[Hj | (d & Hd & Hj)] | _].
      * contradiction.
      * rewrite Hdet in Hd. injection Hd as <-. contradiction.
      * f_equal; lia.
    + exfalso. apply Hr. right. eexists. split; [exact Hdet | exact Hyes].
Qed.

Lemma sequence_entries_read_back_witness :
  windowOf "s1" 9000
    (ledger (doc (snd (evaluatePlaylist 8000 (mediaPlaylist 105) (mkPollState 1000 100 0)
                         (pollEnv 8000 105 acceptAll) afterFirstPoll))))
  = mkRecentIssues 1 0 1.
Proof.
  apply (proj1 (sequence_entries_read_back (pollEnv 8000 105 acceptAll) afterFirstPoll
                  8000 (mediaPlaylist 105) (mkPollState 1000 100 0) "s1" 9000
                  ltac:(discriminate) ltac:(discriminate)
                  ltac:(vm_compute; discriminate))).
  vm_compute. discriminate.
Defined.

(** ** A save that fails *)

(** The update that ends the outer [catch]: emitted unless its save met a
    version conflict. *)
Definition updateAfter (second : option JsError) (s : Stream) : list Event :=
  match second with
  | Some e => if String.eqb (err_name e) "VersionError" then [] else [EmitStreamUpdate s]
  | None => [EmitStreamUpdate s]
  end.

(** The entry the outer [catch] writes for the error [err]. *)
Definition FatalEntry (err : JsError) (e : StreamError) : Prop :=
  errorType e = Some ErrorTypes.MANIFEST_RETRIEVAL /\
  details e = Some (err_message err) /\
  mediaType e = "VIDEO" /\
  code e = None.

(** The outer [catch] from the world [w] with [k] clock reads behind it:
    the entry is dated by read [k + 1], the error time by read [k + 2],
    and the hook of the save ages the ledger out by read [k + 3]. *)
Lemma fatalHandler_run env w err :
  wp (fatalHandler err) env w (fun o w' =>
    o = Normal tt /\
    status (doc w') = error /\
    streamState w' = streamState w /\
    totalErrors (health (doc w')) = totalErrors (health (doc w)) + 1 /\
    events w' = events w ++ StreamSave (saveRejection env (saveCalls w))
                            :: updateAfter (saveRejection env (saveCalls w)) (doc w') /\
    clockReads w' = (clockReads w + 4)%nat /\
    lastErrorTime (health (doc w'))
      = Some (ValidDate (clock env (clockReads w + 2))) /\
    exists e : StreamError,
      FatalEntry err e /\
      date e = Some (ValidDate (clock env (clockReads w + 1))) /\
      variant e = variantOf (doc w) /\
      ledger (doc w') =
        List.filter (keepRecent (clock env (clockReads w + 3) - SEVEN_DAYS_MS))
          (ledger (doc w) ++ [e])).
Proof.
  unfold fatalHandler, save, preSave, addError, generateErrorId, updateAfter, FatalEntry,
    ledger, SEVEN_DAYS_MS.
  replace (clockReads w + 4)%nat with (S (S (S (S (clockReads w))))) by lia.
  replace (clockReads w + 3)%nat with (S (S (S (clockReads w)))) by lia.
  replace (clockReads w + 2)%nat with (S (S (clockReads w))) by lia.
  replace (clockReads w + 1)%nat with (S (clockReads w)) by lia.
  repeat wp_step;
    first
      [ solve [impossible_leaf]
      | cbn [default from_option id];
        rewrite <- ?app_assoc; cbn [app];
        repeat match goal with
               | H : (_ =? _)%string = _ |- _ => rewrite H
               end;
        cbn [negb];
        repeat split; try reflexivity;
        eexists; repeat split; reflexivity ].
Qed.

(** The world after the playlist evaluation of the poll that starts in
    [w], fetches [manifest] and evaluates the media playlist [media]. *)
Definition evaluated (env : Env) (w : World) (manifest media : Manifest) : World :=
  snd (evaluatePlaylist (clock env (clockReads w)) media
         (cachedState (streamState w) (stream_id (doc w))) env
         (snd (followVariant manifest env (snd (dateNow env w))))).

(** The clock reads behind a save that follows the evaluation: one for
    [lastChecked], and one of the hook when the ledger has entries. *)
Definition readsBeforeCatch (wE : World) : nat :=
  match ledger (doc wE) with
  | [] => S (clockReads wE)
  | _ :: _ => S (S (clockReads wE))
  end.

(** What a poll leaves behind when its first save, after the evaluation,
    fails with [err], which is not a version conflict; [wE] is the world
    after the evaluation. *)
Definition SaveFailedPoll (env : Env) (w wE : World) (media : Manifest)
    (segmentUrl : string) (err : JsError) (w' : World) : Prop :=
  let second := saveRejection env (S (saveCalls w)) in
  let k := readsBeforeCatch wE in
  let firstLimit := clock env (S (clockReads wE)) - SEVEN_DAYS_MS in
  let secondLimit := clock env (k + 3) - SEVEN_DAYS_MS in
  status (doc w') = error /\
  events w' = events w ++
    [ProcessSegment segmentUrl; StreamSave (Some err); StreamSave second]
    ++ updateAfter second (doc w') /\
  lastMediaSequence <$> streamState w' !! stream_id (doc w)
    = Some (default 0 (mf_mediaSequence media)) /\
  totalErrors (health (doc w')) = totalErrors (health (doc wE)) + 1 /\
  lastErrorTime (health (doc w')) = Some (ValidDate (clock env (k + 2))) /\
  clockReads w' = (k + 4)%nat /\
  exists e : StreamError,
    FatalEntry err e /\
    date e = Some (ValidDate (clock env (k + 1))) /\
    variant e = variantOf (doc wE) /\
    ledger (doc w') =
      List.filter (keepRecent secondLimit)
        (List.filter (keepRecent firstLimit) (ledger (doc wE)) ++ [e]) /\
    (secondLimit < clock env (k + 1) ->
     ledger (doc w') =
       List.filter (keepRecent secondLimit)
         (List.filter (keepRecent firstLimit) (ledger (doc wE))) ++ [e]).

Lemma wp_bind_normal {A B} (m : M A) (f : A -> M B) env w
    (Q : Outcome B -> World -> Prop) (a : A) :
  fst (m env w) = Normal a ->
  wp (f a) env (snd (m env w)) Q ->
  wp (m ≫= f) env w Q.
Proof.
  unfold wp, mbind, M_bind. destruct (m env w) as [o w1]. simpl. intros ->. auto.
Qed.

Lemma filter_snoc_kept {A} (f : A -> bool) (l : list A) (x : A) :
  f x = true -> List.filter f (l ++ [x]) = List.filter f l ++ [x].
Proof. intros H. rewrite List.filter_app. simpl. now rewrite H. Qed.

Ltac world_simpl_in H :=
  cbn [doc streamState clockReads randomDraws saveCalls events
       with_health with_stats
       set_isStale set_lastManifestUpdate set_timeSinceLastUpdate set_mediaSequence
       set_previousMediaSequence set_sequenceJumps set_sequenceResets
       set_discontinuitySequence set_discontinuityCount set_segmentCount
       set_targetDuration set_playlistType set_totalErrors set_timeSinceLastError
       set_recentErrors set_recentSequenceJumps set_recentSequenceResets set_lastErrorTime
       set_status set_health set_stats set_streamErrors set_lastChecked
       set_bandwidth set_resolution
       isStale lastManifestUpdate timeSinceLastUpdate staleThreshold mediaSequence
       previousMediaSequence sequenceJumps sequenceResets discontinuitySequence
       discontinuityCount segmentCount targetDuration playlistType totalErrors
       timeSinceLastError recentErrors recentSequenceJumps recentSequenceResets
       lastErrorTime stream_id name url status health stats streamErrors thumbnail
       lastChecked lastPollTime lastMediaSequence consecutiveStales
       bandwidth resolution fps video audio container
       eid date errorType mediaType variant details code
       default from_option id] in H.

Lemma save_failed_run env w manifest media variantUrl first others err :
  fetchMaster env (url (doc w)) = FetchOk manifest ->
  mediaOf env (doc w) manifest = Some (media, variantUrl) ->
  segments media = Some (first :: others) ->
  saveRejection env (saveCalls w) = Some err ->
  err_name err <> "VersionError" ->
  wp checkStream env w (fun _ w' =>
    SaveFailedPoll env w (evaluated env w manifest media) media
      (resolveVariantUrl variantUrl (seg_uri (List.last others first))) err w').
Proof.
  intros Hfetch Hmedia Hseg Hrej Hname.
  assert (Hver : String.eqb (err_name err) "VersionError" = false)
    by (apply String.eqb_neq; exact Hname).
  unfold checkStream.
  do 10 wp_step.
  set (w0 := mkWorld (doc w) (streamState w) (S (clockReads w)) (randomDraws w)
               (saveCalls w) (events w)).
  pose proof (followVariant_media env w0 manifest media variantUrl Hmedia) as H1.
  unfold wp in H1. destruct H1 as (Ho1 & Hev1 & Hsc1 & _ & Hss1 & Hid1 & _).
  eapply wp_bind_normal; [exact Ho1 |]. cbv beta iota.
  unfold analyzeMediaPlaylist. rewrite Hseg.
  pose proof (evaluatePlaylist_frame env (snd (followVariant manifest env w0))
                (clock env (clockReads w)) media
                (cachedState (streamState w) (stream_id (doc w)))) as H2.
  unfold wp in H2. destruct H2 as (Ho2 & Hev2 & Hsc2 & Hid2 & _ & _ & _ & Hseq2 & _).
  eapply wp_bind_normal; [exact Ho2 |].
  change (evaluated env w manifest media)
    with (snd (evaluatePlaylist (clock env (clockReads w)) media
                 (cachedState (streamState w) (stream_id (doc w))) env
                 (snd (followVariant manifest env w0)))).
  set (wE := snd (evaluatePlaylist (clock env (clockReads w)) media
                    (cachedState (streamState w) (stream_id (doc w))) env
                    (snd (followVariant manifest env w0)))) in *.
  assert (HevE : events wE = events w) by (rewrite Hev2, Hev1; reflexivity).
  assert (HscE : saveCalls wE = saveCalls w) by (rewrite Hsc2, Hsc1; reflexivity).
  assert (HseqE : lastMediaSequence <$> streamState wE !! stream_id (doc w)
                  = Some (default 0 (mf_mediaSequence media)))
    by (rewrite Hid1 in Hseq2; exact Hseq2).
  assert (HrejE : saveRejection env (saveCalls wE) = Some err)
    by (rewrite HscE; exact Hrej).
  clearbody wE. clear Ho1 Hev1 Hsc1 Hss1 Hid1 Ho2 Hev2 Hsc2 Hid2 Hseq2. clear w0.
  unfold saveOrReturn, save, preSave.
  repeat wp_step;
    (eapply wp_mono; [apply fatalHandler_run |];
     cbv beta;
     intros o w4 (_ & Hst4 & Hss4 & Htot4 & He4 & Hclock4 & Hlast4
                  & e & Hentry & Hdate & Hvar & Hl4);
     cbn [doc streamState clockReads randomDraws saveCalls events]
       in Hss4, Htot4, He4, Hclock4, Hlast4, Hdate, Hvar, Hl4;
     unfold ledger, variantOf in Hl4, Hvar;
     world_simpl_in Hl4; world_simpl_in Htot4; world_simpl_in Hvar;
     unfold SaveFailedPoll, readsBeforeCatch, ledger, variantOf, SEVEN_DAYS_MS in *;
     rewrite Hm; try rewrite Hm in Hl4; cbn [default from_option id] in Hl4 |- *;
     try (destruct l as [| x l']; simpl in Hb; try discriminate);
     cbv zeta beta iota; cbn [List.filter app] in Hl4 |- *;
     split; [exact Hst4 |];
     split; [rewrite He4, HevE, HscE, <- !app_assoc; reflexivity |];
     split; [rewrite Hss4; exact HseqE |];
     split; [exact Htot4 |];
     split; [exact Hlast4 |];
     split; [exact Hclock4 |];
     exists e;
     split; [exact Hentry |];
     split; [exact Hdate |];
     split; [exact Hvar |];
     split; [exact Hl4 |];
     intros Hlt; rewrite Hl4;
     apply (filter_snoc_kept _ _ e) || (cbn [List.filter]);
     unfold keepRecent; rewrite Hdate; cbn [getTime];
     rewrite (proj2 (Z.ltb_lt _ _) Hlt); reflexivity).
Qed.

(** X21.  A poll that reaches the playlist evaluation and whose first save
    fails with an error other than a version conflict ends in the outer
    [catch].  Against the world [wE] the evaluation left: the status becomes
    [error]; [totalErrors] is one more; the ledger is the ledger of [wE],
    aged out by the hook of the failed save, plus one entry of type
    Manifest Retrieval for the media type VIDEO, without code, whose
    details are the message of the store's error and whose date is the
    clock read after the one of its id, aged out again by the hook of the
    second save, which keeps the new entry, as the last one, unless its
    date is seven days behind that hook's clock; [lastErrorTime] is the
    clock read that follows.  The events are the dispatch of the segment
    analysis, the rejected save, the second save and then, unless that
    save meets a version conflict, one update; no history sample is
    written, and the cache keeps the sequence of the evaluation. *)
Theorem checkStream_save_failure (env : Env) (w : World)
    (manifest media : Manifest) (variantUrl : string)
    (first : Segment) (others : list Segment) (err : JsError) :
  fetchMaster env (url (doc w)) = FetchOk manifest ->
  mediaOf env (doc w) manifest = Some (media, variantUrl) ->
  segments media = Some (first :: others) ->
  saveRejection env (saveCalls w) = Some err ->
  err_name err <> "VersionError" ->
  SaveFailedPoll env w (evaluated env w manifest media) media
    (resolveVariantUrl variantUrl (seg_uri (List.last others first))) err
    (snd (checkStream env w)).
Proof.
  intros Hfetch Hmedia Hseg Hrej Hname.
  exact (save_failed_run env w manifest media variantUrl first others err
           Hfetch Hmedia Hseg Hrej Hname).
Qed.

(** The store is down for the first save and back for the second. *)
Definition storeDown : JsError := mkJsError "MongoNetworkError" "connection timed out".

Definition downOnce : nat -> option JsError :=
  fun k => match k with O => Some storeDown | S _ => None end.

(** The poll of the scenarios that sees the jump from 100 to 105, with the
    store down at its first save: two entries are counted, the jump and the
    failure of the store, and the latter is the last of the ledger. *)
Lemma checkStream_save_failure_witness :
  let w' := snd (checkStream (pollEnv 8000 105 downOnce) afterFirstPoll) in
  status (doc w') = error /\
  eventKinds (events w') = ["processSegment"; "save rejected"; "save"; "stream:update"] /\
  totalErrors (health (doc w')) = 2 /\
  exists (kept : list StreamError) (e : StreamError),
    ledger (doc w') = kept ++ [e] /\
    errorType e = Some "Manifest Retrieval" /\
    details e = Some "connection timed out".
Proof.
  intros w'.
  destruct (checkStream_save_failure (pollEnv 8000 105 downOnce) afterFirstPoll
              (mediaPlaylist 105) (mediaPlaylist 105) "http://host/live/index.m3u8"
              (mkSegment "seg-a.ts" false)
              [mkSegment "seg-b.ts" false; mkSegment "seg-c.ts" false]
              storeDown eq_refl eq_refl eq_refl eq_refl ltac:(discriminate))
    as (Hst & Hev & _ & Htot & _ & _ & e & (Hty & Hdet & _) & _ & _ & _ & Hlast).
  fold w' in Hst, Hev, Htot, Hlast.
  split; [exact Hst |].
  split; [rewrite Hev; reflexivity |].
  split; [rewrite Htot; vm_compute; reflexivity |].
  eexists. exists e. split; [apply Hlast; vm_compute; reflexivity |].
  split; [exact Hty | exact Hdet].
Defined.

(** ** The first poll of a stream *)

(** X22.  The evaluation of a stream that has no entry in the cache, as at its
    first poll and at every first poll after a restart of the worker, runs
    no sequence check: whatever the sequence of the playlist (other than
    the marker -1 itself), nothing is entered in the ledger and no counter
    moves; the stream is online and fresh, and the document and the cache
    take the sequence, with -1 as the previous one. *)
Theorem evaluatePlaylist_first_poll (env : Env) (w : World) (now : Z)
    (m : Manifest) (cache : gmap string PollState) :
  cache !! stream_id (doc w) = None ->
  default 0 (mf_mediaSequence m) <> -1 ->
  let w' := snd (evaluatePlaylist now m (cachedState cache (stream_id (doc w))) env w) in
  ledger (doc w') = ledger (doc w) /\
  totalErrors (health (doc w')) = totalErrors (health (doc w)) /\
  sequenceJumps (health (doc w')) = sequenceJumps (health (doc w)) /\
  sequenceResets (health (doc w')) = sequenceResets (health (doc w)) /\
  status (doc w') = online /\
  isStale (health (doc w')) = false /\
  previousMediaSequence (health (doc w')) = -1 /\
  mediaSequence (health (doc w')) = default 0 (mf_mediaSequence m) /\
  streamState w' !! stream_id (doc w)
    = Some (mkPollState now (default 0 (mf_mediaSequence m)) 0).
Proof.
  intros Hmiss Hseq w'. subst w'.
  unfold cachedState. rewrite Hmiss. cbn [default from_option id].
  change (wp (evaluatePlaylist now m (mkPollState 0 (-1) 0)) env w (fun _ w' =>
    ledger (doc w') = ledger (doc w) /\
    totalErrors (health (doc w')) = totalErrors (health (doc w)) /\
    sequenceJumps (health (doc w')) = sequenceJumps (health (doc w)) /\
    sequenceResets (health (doc w')) = sequenceResets (health (doc w)) /\
    status (doc w') = online /\
    isStale (health (doc w')) = false /\
    previousMediaSequence (health (doc w')) = -1 /\
    mediaSequence (health (doc w')) = default 0 (mf_mediaSequence m) /\
    streamState w' !! stream_id (doc w)
      = Some (mkPollState now (default 0 (mf_mediaSequence m)) 0))).
  unfold_evaluation.
  generalize dependent (default 0 (mf_mediaSequence m)). intros seq Hseq.
  repeat wp_step; close_leaf.
Qed.

Lemma evaluatePlaylist_first_poll_witness :
  let w' := snd (evaluatePlaylist 1000 (mediaPlaylist 100) (cachedState ∅ "s1")
                   (pollEnv 1000 100 acceptAll) freshWorld) in
  ledger (doc w') = [] /\ status (doc w') = online.
Proof.
  destruct (evaluatePlaylist_first_poll (pollEnv 1000 100 acceptAll) freshWorld 1000
              (mediaPlaylist 100) (streamState freshWorld)
              ltac:(vm_compute; reflexivity) ltac:(discriminate))
    as (Hl & _ & _ & _ & Hs & _).
  split; [exact Hl | exact Hs].
Defined.

(** ** The entries a poll writes *)

Section Preservation.

Variable R : World -> World -> Prop.
Hypothesis R_refl : forall w, R w w.
Hypothesis R_trans : forall w1 w2 w3, R w1 w2 -> R w2 w3 -> R w1 w3.

(** Every run of [m] relates the world it starts in to the world it ends
    in, whatever its outcome. *)
Definition preserves {A : Type} (m : M A) : Prop :=
  forall env w, R w (snd (m env w)).

Lemma preserves_bind {A B} (m : M A) (f : A -> M B) :
  preserves m -> (forall a, preserves (f a)) -> preserves (m ≫= f).
Proof.
  intros Hm Hf env w. specialize (Hm env w).
  unfold mbind, M_bind. destruct (m env w) as [[a | e] w1]; simpl in *.
  - eapply R_trans; [exact Hm | apply Hf].
  - exact Hm.
Qed.

Lemma preserves_tryCatch {A} (body : M A) (handler : JsError -> M A) :
  preserves body -> (forall e, preserves (handler e)) ->
  preserves (tryCatch body handler).
Proof.
  intros Hb Hh env w. specialize (Hb env w).
  unfold tryCatch. destruct (body env w) as [[a | e] w1]; simpl in *.
  - exact Hb.
  - eapply R_trans; [exact Hb | apply Hh].
Qed.

Lemma preserves_ret {A} (a : A) : preserves (mret a : M A).
Proof. intros env w. apply R_refl. Qed.

Lemma preserves_throw {A} (e : JsError) : preserves (throw e : M A).
Proof. intros env w. apply R_refl. Qed.

End Preservation.

(** The four error types the worker enters, of the seven of the schema. *)
Definition enteredType (ty : string) : Prop :=
  ty = ErrorTypes.MANIFEST_RETRIEVAL \/ ty = ErrorTypes.MEDIA_SEQUENCE \/
  ty = ErrorTypes.PLAYLIST_CONTENT \/ ty = ErrorTypes.STALE_MANIFEST.

(** An entry as [checkStream] writes them. *)
Definition Written (e : StreamError) : Prop :=
  (exists ty : string, errorType e = Some ty /\ enteredType ty) /\
  (mediaType e = "VIDEO" \/ mediaType e = "MASTER") /\
  (exists t : Z, date e = Some (ValidDate t)) /\
  (exists text : string, details e = Some text).

(** The entries of the ledger of [w'] were in the ledger of [w] or have
    been written since. *)
Definition LedgerGrows (w w' : World) : Prop :=
  forall e : StreamError,
    In e (ledger (doc w')) -> In e (ledger (doc w)) \/ Written e.

Lemma LedgerGrows_refl (w : World) : LedgerGrows w w.
Proof. intros e He. now left. Qed.

Lemma LedgerGrows_trans (w1 w2 w3 : World) :
  LedgerGrows w1 w2 -> LedgerGrows w2 w3 -> LedgerGrows w1 w3.
Proof.
  intros H12 H23 e He. destruct (H23 e He) as [H | H]; [apply H12, H | now right].
Qed.

Definition writes {A : Type} (m : M A) : Prop := preserves LedgerGrows m.

Lemma writes_ledger_kept {A} (m : M A) :
  (forall env w, streamErrors (doc (snd (m env w))) = streamErrors (doc w)) ->
  writes m.
Proof. intros H env w e He. left. unfold ledger in *. rewrite (H env w) in He. exact He. Qed.

Lemma writes_addError (ty text media : string) (code : option Z) :
  enteredType ty -> media = "VIDEO" \/ media = "MASTER" ->
  writes (addError ty text media code).
Proof.
  intros Hty Hmedia env w.
  assert (H : wp (addError ty text media code) env w (fun _ w' =>
            exists e, ledger (doc w') = ledger (doc w) ++ [e] /\ Written e)).
  { unfold addError, generateErrorId, Written, ledger.
    repeat wp_step. cbn [default from_option id].
    eexists. split; [reflexivity |]. world_simpl. eauto 10. }
  unfold wp in H. destruct H as (e & Hl & He).
  intros e' He'. rewrite Hl in He'. apply in_app_iff in He'.
  destruct He' as [He' | [<- | []]]; [now left | now right].
Qed.

Lemma writes_preSave : writes preSave.
Proof.
  intros env w e He.
  pose proof (preSave_run env w) as H. unfold wp in H. destruct H as (_ & Hl & _).
  rewrite Hl in He. apply filter_In in He. left. apply He.
Qed.

Ltac writes_step :=
  cbv zeta; unfold writes;
  lazymatch goal with
  | |- preserves _ (_ ≫= _) =>
      apply (preserves_bind LedgerGrows LedgerGrows_trans); [writes_step | intros; writes_step]
  | |- preserves _ (tryCatch _ _) =>
      apply (preserves_tryCatch LedgerGrows LedgerGrows_trans);
      [writes_step | intros; writes_step]
  | |- preserves _ (mret _) => apply (preserves_ret LedgerGrows LedgerGrows_refl)
  | |- preserves _ (throw _) => apply (preserves_throw LedgerGrows LedgerGrows_refl)
  | |- preserves _ (addError _ _ _ _) =>
      apply writes_addError; [unfold enteredType; tauto | tauto]
  | |- preserves _ preSave => apply writes_preSave
  | |- preserves _ (if ?b then _ else _) => destruct b; writes_step
  | |- preserves _ (match ?x with _ => _ end) => destruct x; writes_step
  | |- preserves _ (let '(_, _) := ?x in _) => destruct x; writes_step
  | |- _ => apply writes_ledger_kept; intros; reflexivity
  end.

Lemma writes_checkStream : writes checkStream.
Proof.
  unfold checkStream, followVariant, analyzeMediaPlaylist, fatalHandler,
    saveAndPublish, saveOrReturn, scoreAndPublish, recentIssuesOf, decayFactorOf,
    evaluatePlaylist, stalenessCheck, sequenceChecks, discontinuityCheck, updateHealth,
    save, setStatus.
  writes_step.
Qed.

(** X23.  Whatever happens in a poll, every entry of the ledger after it was
    there before or is an entry of the worker's making: of one of the four
    types Manifest Retrieval, Media Sequence, Playlist Content and Stale
    Manifest, for the media type VIDEO or MASTER, with a valid date and
    with details.  So a poll never enters an error of the types Playlist
    Size, Segment Continuity or Discontinuity Sequence. *)
Theorem checkStream_entries (env : Env) (w : World) (e : StreamError) :
  In e (ledger (doc (snd (checkStream env w)))) ->
  (In e (ledger (doc w)) \/ Written e) /\
  (~ In e (ledger (doc w)) ->
   errorType e <> Some ErrorTypes.PLAYLIST_SIZE /\
   errorType e <> Some ErrorTypes.SEGMENT_CONTINUITY /\
   errorType e <> Some ErrorTypes.DISCONTINUITY_SEQUENCE).
Proof.
  intros He. pose proof (writes_checkStream env w e He) as H.
  split; [exact H |].
  intros Hnew. destruct H as [H | ((ty & -> & Hty) & _)]; [contradiction |].
  unfold enteredType in Hty.
  repeat split; intros [= ->]; repeat destruct Hty as [Hty | Hty]; discriminate.
Qed.

(** The entry of the jump at the second poll of the scenarios. *)
Definition jumpEntry : StreamError :=
  mkStreamError "eid-8002-r0" (Some (ValidDate 8003)) (Some "Media Sequence") "VIDEO"
    "unknown" (Some "Sequence jumped from 100 to 105 (gap: 4)") None.

Lemma checkStream_entries_witness :
  In jumpEntry (ledger (doc (secondPoll 105))) /\ Written jumpEntry.
Proof.
  assert (Hin : In jumpEntry (ledger (doc (secondPoll 105))))
    by (vm_compute; left; reflexivity).
  split; [exact Hin |].
  destruct (proj1 (checkStream_entries (pollEnv 8000 105 acceptAll) (nextPoll firstPoll)
                     jumpEntry Hin)) as [Hold | Hnew]; [| exact Hnew].
  vm_compute in Hold. contradiction.
Defined.

(** ** Discontinuities *)

Lemma fold_discontinuities (segs : list Segment) (n : Z) :
  fold_left (fun n seg => if discontinuity seg then n + 1 else n) segs n
  = n + Z.of_nat (length (List.filter discontinuity segs)).
Proof.
  revert n. induction segs as [| seg segs IH]; intros n; [simpl; lia |].
  cbn [fold_left List.filter]. rewrite IH.
  destruct (discontinuity seg); cbn [length]; lia.
Qed.

(** X24.  After the evaluation the document's discontinuity count is the number
    of segments of the playlist that carry the flag, whatever it was, and
    its discontinuity sequence is the one of the playlist when the playlist
    has one and is kept when it has none; the target duration is the
    playlist's, or 0, and the playlist type the playlist's, or LIVE when it
    has none or an empty one. *)
Theorem evaluatePlaylist_discontinuity (env : Env) (w : World) (now : Z)
    (m : Manifest) (st : PollState) :
  let w' := snd (evaluatePlaylist now m st env w) in
  discontinuityCount (health (doc w'))
    = Z.of_nat (length (List.filter discontinuity (default [] (segments m)))) /\
  discontinuitySequence (health (doc w'))
    = default (discontinuitySequence (health (doc w))) (mf_discontinuitySequence m) /\
  targetDuration (health (doc w')) = default 0 (mf_targetDuration m) /\
  playlistType (health (doc w'))
    = match mf_playlistType m with
      | Some ty => if String.eqb ty "" then "LIVE" else ty
      | None => "LIVE"
      end.
Proof.
  intros w'. subst w'.
  change (wp (evaluatePlaylist now m st) env w (fun _ w' =>
    discontinuityCount (health (doc w'))
      = Z.of_nat (length (List.filter discontinuity (default [] (segments m)))) /\
    discontinuitySequence (health (doc w'))
      = default (discontinuitySequence (health (doc w))) (mf_discontinuitySequence m) /\
    targetDuration (health (doc w')) = default 0 (mf_targetDuration m) /\
    playlistType (health (doc w'))
      = match mf_playlistType m with
        | Some ty => if String.eqb ty "" then "LIVE" else ty
        | None => "LIVE"
        end)).
  unfold_evaluation. rewrite fold_discontinuities.
  generalize (default 0 (mf_mediaSequence m)). intros seq.
  assert (Hty : (if truthy_string (mf_playlistType m)
                 then default "" (mf_playlistType m) else "LIVE")
                = match mf_playlistType m with
                  | Some ty => if String.eqb ty "" then "LIVE" else ty
                  | None => "LIVE"
                  end).
  { destruct (mf_playlistType m) as [ty |]; [| reflexivity].
    cbn [truthy_string default from_option id]. destruct (String.eqb ty ""); reflexivity. }
  rewrite Hty.
  repeat wp_step; close_leaf; cbn [default from_option id]; try lia; congruence.
Qed.

(** ** The sweep *)

(** The clock has been read at least as often. *)
Definition ClockAdvances (w w' : World) : Prop := (clockReads w <= clockReads w')%nat.

Lemma ClockAdvances_refl (w : World) : ClockAdvances w w.
Proof. unfold ClockAdvances. lia. Qed.

Lemma ClockAdvances_trans (w1 w2 w3 : World) :
  ClockAdvances w1 w2 -> ClockAdvances w2 w3 -> ClockAdvances w1 w3.
Proof. unfold ClockAdvances. lia. Qed.

Ltac clock_step :=
  cbv zeta;
  lazymatch goal with
  | |- preserves _ (_ ≫= _) =>
      apply (preserves_bind ClockAdvances ClockAdvances_trans);
      [clock_step | intros; clock_step]
  | |- preserves _ (tryCatch _ _) =>
      apply (preserves_tryCatch ClockAdvances ClockAdvances_trans);
      [clock_step | intros; clock_step]
  | |- preserves _ (if ?b then _ else _) => destruct b; clock_step
  | |- preserves _ (match ?x with _ => _ end) => destruct x; clock_step
  | |- preserves _ (let '(_, _) := ?x in _) => destruct x; clock_step
  | |- _ => intros ? ?; unfold ClockAdvances; simpl; lia
  end.

(** Every poll reads the clock, first of all. *)
Lemma checkStream_reads_clock env w :
  (S (clockReads w) <= clockReads (snd (checkStream env w)))%nat.
Proof.
  change (wp checkStream env w (fun _ w' => (S (clockReads w) <= clockReads w')%nat)).
  unfold checkStream.
  apply wp_bind, wp_dateNow.
  lazymatch goal with
  | |- wp ?rest _ ?w0 _ =>
      assert (Hrest : preserves ClockAdvances rest);
      [ unfold followVariant, analyzeMediaPlaylist, fatalHandler,
          saveAndPublish, saveOrReturn, scoreAndPublish, recentIssuesOf, decayFactorOf,
          evaluatePlaylist, stalenessCheck, sequenceChecks, discontinuityCheck,
          updateHealth, save, preSave, addError, generateErrorId, setStatus;
        clock_step
      | exact (Hrest env w0) ]
  end.
Qed.

(** The world in which the poll of [stream] starts, within a sweep that
    has reached the world [w]: the document is [stream]. *)
Definition withDoc (stream : Stream) (w : World) : World :=
  mkWorld stream (streamState w) (clockReads w) (randomDraws w) (saveCalls w) (events w).

(** The world the poll of [stream] leaves. *)
Definition pollOf (env : Env) (w : World) (stream : Stream) : World :=
  snd (checkStream env (withDoc stream w)).

(** The documents as their polls leave them, each poll starting in the
    world the one before it left. *)
Fixpoint polledDocs (env : Env) (w : World) (streams : list Stream) : list Stream :=
  match streams with
  | [] => []
  | stream :: rest => doc (pollOf env w stream) :: polledDocs env (pollOf env w stream) rest
  end.

Lemma checkStreamOf_run (stream : Stream) env w :
  checkStreamOf stream env w
  = (Normal (doc (pollOf env w stream)), pollOf env w stream).
Proof.
  unfold checkStreamOf, pollOf, mbind, M_bind.
  change (modifyStream (fun _ => stream) env w) with (Normal tt, withDoc stream w).
  cbv beta iota.
  assert (Hn : fst (checkStream env (withDoc stream w)) = Normal tt)
    by (destruct (returns_checkStream env (withDoc stream w)) as [[] Ha]; exact Ha).
  destruct (checkStream env (withDoc stream w)) as [o w1]. simpl in Hn. subst o.
  reflexivity.
Qed.

Lemma pollOf_keeps (env : Env) (w : World) (stream : Stream) :
  stream_id (doc (pollOf env w stream)) = stream_id stream /\
  totalErrors (health stream) <= totalErrors (health (doc (pollOf env w stream))) /\
  (forall other : string,
      other <> stream_id stream ->
      streamState (pollOf env w stream) !! other = streamState w !! other) /\
  (S (clockReads w) <= clockReads (pollOf env w stream))%nat /\
  (exists more : list Event, events (pollOf env w stream) = events w ++ more).
Proof.
  unfold pollOf.
  destruct (progresses_checkStream env (withDoc stream w))
    as (Hi & _ & Ht & _ & _ & _ & Hc & He).
  pose proof (checkStream_reads_clock env (withDoc stream w)) as Hk.
  repeat split; assumption.
Qed.

(** X9.  A sweep over the streams that [Stream.find()] resolved to polls
    each of them once, in their order, each poll starting in the world the
    poll before it left, and returns: its final world is the one obtained
    by running [checkStream] on one document after the other, and a poll
    that fails inside does not end the sweep.  So the clock has been read
    at least once per stream, the documents keep their ids, their error
    counters do not decrease, the cache entries of streams that are not in
    the sweep are untouched, and the events emitted before are kept.  When
    the lookup itself fails, the sweep throws that error and nothing else
    happens. *)
Theorem monitorLoop_sweep (streams : list Stream) (env : Env) (w : World) :
  monitorLoop (FindResolved streams) env w
  = (Normal (polledDocs env w streams), fold_left (pollOf env) streams w) /\
  (clockReads w + length streams <= clockReads (fold_left (pollOf env) streams w))%nat /\
  Forall2 (fun s s' => stream_id s' = stream_id s /\
                       totalErrors (health s) <= totalErrors (health s'))
    streams (polledDocs env w streams) /\
  (forall other : string,
      ~ In other (List.map stream_id streams) ->
      streamState (fold_left (pollOf env) streams w) !! other = streamState w !! other) /\
  (exists more : list Event,
      events (fold_left (pollOf env) streams w) = events w ++ more) /\
  forall e : JsError, monitorLoop (FindRejected e) env w = (Thrown e, w).
Proof.
  split; [| split; [| split; [| split; [| split]]]]; try reflexivity.
  - cbn [monitorLoop]. revert w.
    induction streams as [| s rest IH]; intros w; [reflexivity |].
    cbn [forEachStream polledDocs fold_left]. unfold mbind, M_bind.
    rewrite checkStreamOf_run, IH. reflexivity.
  - revert w. induction streams as [| s rest IH]; intros w; [simpl; lia |].
    cbn [fold_left length]. specialize (IH (pollOf env w s)).
    destruct (pollOf_keeps env w s) as (_ & _ & _ & Hk & _). lia.
  - revert w. induction streams as [| s rest IH]; intros w; [constructor |].
    cbn [polledDocs]. destruct (pollOf_keeps env w s) as (Hi & Ht & _).
    constructor; [split; assumption | apply IH].
  - revert w. induction streams as [| s rest IH]; intros w other Hnot; [reflexivity |].
    cbn [fold_left]. simpl in Hnot.
    rewrite IH by tauto.
    destruct (pollOf_keeps env w s) as (_ & _ & Hc & _). apply Hc. intros ->. tauto.
  - revert w. induction streams as [| s rest IH]; intros w.
    + exists []. now rewrite app_nil_r.
    + cbn [fold_left]. destruct (IH (pollOf env w s)) as [m2 H2].
      destruct (pollOf_keeps env w s) as (_ & _ & _ & _ & [m1 H1]).
      exists (m1 ++ m2). rewrite H2, H1, app_assoc. reflexivity.
Qed.
